(** * Kiosk configuration/state backend: the handlers of [server.py]

    The request handlers of [server.py] are embedded as functions of a
    state-and-exception monad over a world that holds the document store,
    the clock read by [datetime.utcnow], the source of [uuid.uuid4] and
    the feed fetcher.  Documents and pydantic model instances are Python
    dicts, modelled as finite maps from field names to scalar values.

    What lies outside [server.py] is modelled as follows.
    - The store holds BSON: the driver encodes a document before it is
      sent, raises [OverflowError] for an integer outside the signed 64-bit
      range (and then writes nothing), and keeps a datetime to the
      millisecond.  Timestamps are counted in microseconds, as
      [datetime.utcnow] reads them.  The store keeps the documents of a
      collection in insertion order and accepts an empty [$set].  The [_id]
      key that the store adds on its own is invisible to every handler
      (pydantic drops it) and is left out.  Strings are text the encoder
      accepts, and documents stay below the size the store admits.
    - The fetcher stands for [feedparser.parse(url).entries].  The library
      reports a URL it cannot reach, or a text that is no feed, through its
      [bozo] flag and hands back no entries; [Raise] is kept for the errors
      it lets through.
    - The states called [reachable] are those the handlers produce one
      after the other, each running to its end before the next starts.
      Handlers that interleave at an [await] are outside it; one such
      schedule, two first GETs, is spelled out in [two_gets_interleaved].
    - Filters are equalities on one key; a [None] filter value also matches
      a document that lacks the key.
    - Model construction keeps a value of the declared type, rejects [None]
      for a field that is not [Optional], fills a missing field from its
      default, ignores extra keys, and rejects a value of another type
      (the conversions pydantic attempts between scalar types are not
      modelled; no handler writes such a value to a singleton document).
    - The nested dicts of the weather response are kept as a record of
      flat dicts. *)

From Stdlib Require Import ZArith Lia Sorting.Sorted.
From Stdlib Require Import Floats.SpecFloat.
From stdpp Require Import base option list strings gmap fin_maps sorting.

Open Scope string_scope.
Open Scope list_scope.
Open Scope Z_scope.

(** ** Values and documents *)

(** A Python float is kept as its sign, mantissa and exponent. *)
Inductive value : Type :=
  | VNone
  | VBool (b : bool)
  | VInt (z : Z)
  | VFloat (f : spec_float)
  | VStr (s : string)
  | VDate (t : Z).

#[global] Instance spec_float_eq_dec : EqDecision spec_float.
Proof. solve_decision. Defined.

#[global] Instance value_eq_dec : EqDecision value.
Proof. solve_decision. Defined.

Abbreviation doc := (gmap string value).

(** [1.0] *)
Definition float_one : spec_float := S754_finite false 4503599627370496 (-52).

(** ** Exceptions and results *)

Inductive exn : Type :=
  | HTTPException (status_code : Z) (detail : string)
  | ValidationError (loc : string)
  | KeyError (key : string)
  | AttributeError (name : string)
  | TypeError
  | OverflowError
  | OtherException (msg : string).

Inductive Result (A : Type) : Type :=
  | Ok (a : A)
  | Raise (e : exn).
Arguments Ok {A} a.
Arguments Raise {A} e.

(** [str(e)] *)
Definition str_exn (e : exn) : string :=
  match e with
  | HTTPException _ d => d
  | ValidationError l => "validation error: " +:+ l
  | KeyError k => "'" +:+ k +:+ "'"
  | AttributeError n => "object has no attribute '" +:+ n +:+ "'"
  | TypeError => "unsupported operand type(s)"
  | OverflowError => "MongoDB can only handle up to 8-byte ints"
  | OtherException m => m
  end.

(** ** The document store *)

Inductive coll_name : Type :=
  | app_config | slide_images | slide_settings
  | current_number | bluetooth_remote | voice_settings.

#[global] Instance coll_name_eq_dec : EqDecision coll_name.
Proof. solve_decision. Defined.

Record DB : Type := mkDB {
  c_app_config : list doc;
  c_slide_images : list doc;
  c_slide_settings : list doc;
  c_current_number : list doc;
  c_bluetooth_remote : list doc;
  c_voice_settings : list doc;
}.

Definition empty_db : DB := mkDB [] [] [] [] [] [].

Definition sel (c : coll_name) (d : DB) : list doc :=
  match c with
  | app_config => c_app_config d
  | slide_images => c_slide_images d
  | slide_settings => c_slide_settings d
  | current_number => c_current_number d
  | bluetooth_remote => c_bluetooth_remote d
  | voice_settings => c_voice_settings d
  end.

Definition upd (c : coll_name) (l : list doc) (d : DB) : DB :=
  match c with
  | app_config => mkDB l (c_slide_images d) (c_slide_settings d) (c_current_number d) (c_bluetooth_remote d) (c_voice_settings d)
  | slide_images => mkDB (c_app_config d) l (c_slide_settings d) (c_current_number d) (c_bluetooth_remote d) (c_voice_settings d)
  | slide_settings => mkDB (c_app_config d) (c_slide_images d) l (c_current_number d) (c_bluetooth_remote d) (c_voice_settings d)
  | current_number => mkDB (c_app_config d) (c_slide_images d) (c_slide_settings d) l (c_bluetooth_remote d) (c_voice_settings d)
  | bluetooth_remote => mkDB (c_app_config d) (c_slide_images d) (c_slide_settings d) (c_current_number d) l (c_voice_settings d)
  | voice_settings => mkDB (c_app_config d) (c_slide_images d) (c_slide_settings d) (c_current_number d) (c_bluetooth_remote d) l
  end.

(** ** The world a handler runs in *)

Record World : Type := mkWorld {
  db : DB;
  clock : nat → Z;            (* successive readings of [datetime.utcnow()] *)
  ticks : nat;
  uuid_src : nat → string;    (* successive results of [str(uuid.uuid4())] *)
  drawn : nat;
  feedparser_parse : value → Result (list doc);   (* [feedparser.parse(url).entries];
                                                     no entries for a feed that cannot be read *)
}.

Definition set_db (d : DB) (w : World) : World :=
  mkWorld d (clock w) (ticks w) (uuid_src w) (drawn w) (feedparser_parse w).

Definition M (A : Type) : Type := World → Result A * World.

#[global] Instance M_ret : MRet M := λ A a w, (Ok a, w).
#[global] Instance M_bind : MBind M := λ A B f m w,
  match m w with
  | (Ok a, w') => f a w'
  | (Raise e, w') => (Raise e, w')
  end.

#[global] Instance M_fmap : FMap M := λ A B f m, a ← m; mret (f a).

Definition raise {A} (e : exn) : M A := λ w, (Raise e, w).

(** [try: body  except Exception as e: handler(e)] *)
Definition try_except {A} (body : M A) (handler : exn → M A) : M A := λ w,
  match body w with
  | (Ok a, w') => (Ok a, w')
  | (Raise e, w') => handler e w'
  end.

Definition utcnow : M value := λ w,
  (Ok (VDate (clock w (ticks w))),
   mkWorld (db w) (clock w) (S (ticks w)) (uuid_src w) (drawn w) (feedparser_parse w)).

Definition uuid4_str : M value := λ w,
  (Ok (VStr (uuid_src w (drawn w))),
   mkWorld (db w) (clock w) (ticks w) (uuid_src w) (S (drawn w)) (feedparser_parse w)).

Definition get_coll (c : coll_name) : M (list doc) := λ w, (Ok (sel c (db w)), w).
Definition put_coll (c : coll_name) (l : list doc) : M unit := λ w, (Ok tt, set_db (upd c l (db w)) w).

(** ** Comparison of stored values

    The store orders values of different types by type (null and missing
    first, then numbers, strings, booleans, dates) and compares integers
    and floats by their numeric value. *)

Inductive num : Type := NNaN | NNegInf | NFin (m e : Z) | NPosInf.

Definition num_of_float (f : spec_float) : num :=
  match f with
  | S754_zero _ => NFin 0 0
  | S754_infinity s => if s then NNegInf else NPosInf
  | S754_nan => NNaN
  | S754_finite s m e => NFin (if s then Z.neg m else Z.pos m) e
  end.

Definition num_rank (n : num) : Z :=
  match n with NNaN => 0 | NNegInf => 1 | NFin _ _ => 2 | NPosInf => 3 end.

Definition num_compare (a b : num) : comparison :=
  match a, b with
  | NFin m1 e1, NFin m2 e2 =>
      let e := Z.min e1 e2 in Z.compare (m1 * 2 ^ (e1 - e)) (m2 * 2 ^ (e2 - e))
  | _, _ => Z.compare (num_rank a) (num_rank b)
  end.

Inductive bson : Type :=
  | BNull | BNum (n : num) | BString (s : string) | BBool (b : bool) | BDate (t : Z).

Definition bson_of (o : option value) : bson :=
  match o with
  | None | Some VNone => BNull
  | Some (VInt z) => BNum (NFin z 0)
  | Some (VFloat f) => BNum (num_of_float f)
  | Some (VStr s) => BString s
  | Some (VBool b) => BBool b
  | Some (VDate t) => BDate t
  end.

Definition bson_rank (b : bson) : Z :=
  match b with BNull => 0 | BNum _ => 1 | BString _ => 2 | BBool _ => 3 | BDate _ => 4 end.

Definition bson_compare (a b : option value) : comparison :=
  match bson_of a, bson_of b with
  | BNum x, BNum y => num_compare x y
  | BString x, BString y => String.compare x y
  | BBool x, BBool y => Bool.compare x y
  | BDate x, BDate y => Z.compare x y
  | x, y => Z.compare (bson_rank x) (bson_rank y)
  end.

Definition bson_le (a b : option value) : bool :=
  match bson_compare a b with Gt => false | _ => true end.

(** The filter [{k: v}]. *)
Definition matches (k : string) (v : value) (d : doc) : bool :=
  match bson_compare (d !! k) (Some v) with Eq => true | _ => false end.

(** ** BSON encoding

    The driver encodes every document it sends.  An integer must fit in
    eight bytes; a datetime, read in microseconds, keeps its milliseconds. *)

Definition int64 (z : Z) : bool :=
  Z.leb (-9223372036854775808) z && Z.ltb z 9223372036854775808.

Definition encodable (v : value) : bool :=
  match v with
  | VInt z => int64 z
  | _ => true
  end.

(** The document can be encoded: every integer in it fits. *)
Definition bson_ok (d : doc) : bool :=
  bool_decide (map_Forall (λ _ v, encodable v = true) d).

(** The microseconds a stored datetime keeps. *)
Definition ms (t : Z) : Z := 1000 * (t / 1000).

Definition to_bson (v : value) : value :=
  match v with
  | VDate t => VDate (ms t)
  | _ => v
  end.

(** The document as the store holds it and hands it back. *)
Definition encode (d : doc) : doc := to_bson <$> d.

(** ** Store operations *)

Fixpoint update_first (p : doc → bool) (f : doc → doc) (l : list doc) : option (list doc) :=
  match l with
  | [] => None
  | d :: l' => if p d then Some (f d :: l') else (d ::.) <$> update_first p f l'
  end.

Fixpoint delete_first (p : doc → bool) (l : list doc) : option (list doc) :=
  match l with
  | [] => None
  | d :: l' => if p d then Some l' else (d ::.) <$> delete_first p l'
  end.

Fixpoint insert_by (key : string) (x : doc) (l : list doc) : list doc :=
  match l with
  | [] => [x]
  | y :: l' => if bson_le (x !! key) (y !! key) then x :: y :: l' else y :: insert_by key x l'
  end.

Definition sort_by (key : string) (l : list doc) : list doc :=
  foldr (insert_by key) [] l.

(** [await db.c.find_one({k: v})]; the handlers filter on strings, which
    always encode. *)
Definition find_one (c : coll_name) (k : string) (v : value) : M (option doc) :=
  l ← get_coll c; mret (find (matches k v) l).

(** [await db.c.insert_one(d)]: the document is encoded, then appended. *)
Definition insert_one (c : coll_name) (d : doc) : M unit :=
  if bson_ok d then
    l ← get_coll c; put_coll c (l ++ [encode d])
  else raise OverflowError.

(** [await db.c.update_one({k: v}, {"$set": data}, upsert=upsert)]: filter
    and [data] are encoded; the fields of [data] then overwrite those of
    the first match; with [upsert] and no match, the document made of the
    filter and [data] is inserted. *)
Definition update_one (c : coll_name) (k : string) (v : value) (data : doc) (upsert : bool) : M unit :=
  if encodable v && bson_ok data then
    l ← get_coll c;
    match update_first (matches k (to_bson v)) (λ d, encode data ∪ d) l with
    | Some l' => put_coll c l'
    | None => if upsert then put_coll c (l ++ [encode data ∪ {[k := to_bson v]}]) else mret tt
    end
  else raise OverflowError.

(** [await db.c.delete_one({k: v})], returning [deleted_count] *)
Definition delete_one (c : coll_name) (k : string) (v : value) : M Z :=
  l ← get_coll c;
  match delete_first (matches k v) l with
  | Some l' => put_coll c l';; mret 1
  | None => mret 0
  end.

(** [await db.c.find().sort(key, 1).to_list(n)] *)
Definition find_sort_to_list (c : coll_name) (key : string) (n : nat) : M (list doc) :=
  l ← get_coll c; mret (take n (sort_by key l)).

(** ** Pydantic models *)

Inductive ftype : Type := TStr | TInt | TBool | TFloat | TDatetime.

Inductive fdefault : Type :=
  | Required
  | Default (v : value)
  | Factory_utcnow
  | Factory_uuid4.

Record field : Type := Field {
  f_name : string;
  f_optional : bool;
  f_type : ftype;
  f_default : fdefault;
}.

Abbreviation model := (list field).

Definition has_type (t : ftype) (v : value) : bool :=
  match t, v with
  | TStr, VStr _ | TInt, VInt _ | TBool, VBool _ | TFloat, VFloat _ | TDatetime, VDate _ => true
  | _, _ => false
  end.

Definition check (f : field) (v : value) : bool :=
  match v with
  | VNone => f_optional f
  | _ => has_type (f_type f) v
  end.

Definition default_value (f : field) : M value :=
  match f_default f with
  | Required => raise (ValidationError (f_name f))
  | Default v => mret v
  | Factory_utcnow => utcnow
  | Factory_uuid4 => uuid4_str
  end.

Definition validate_field (f : field) (kwargs : doc) : M value :=
  match kwargs !! f_name f with
  | Some v => if check f v then mret v else raise (ValidationError (f_name f))
  | None => default_value f
  end.

(** The constructor call of a model on the keyword arguments [kwargs]; the
    instance is represented by its [.dict()]. *)
Fixpoint construct (m : model) (kwargs : doc) : M doc :=
  match m with
  | [] => mret ∅
  | f :: m' =>
      v ← validate_field f kwargs;
      rest ← construct m' kwargs;
      mret (<[f_name f := v]> rest)
  end.

Definition str (name : string) (d : fdefault) : field := Field name false TStr d.
Definition opt_str (name : string) : field := Field name true TStr (Default VNone).
Definition int (name : string) (d : fdefault) : field := Field name false TInt d.
Definition opt_int (name : string) (d : fdefault) : field := Field name true TInt d.
Definition bool_ (name : string) (d : fdefault) : field := Field name false TBool d.
Definition opt_bool (name : string) : field := Field name true TBool (Default VNone).
Definition float (name : string) (d : fdefault) : field := Field name false TFloat d.
Definition opt_float (name : string) : field := Field name true TFloat (Default VNone).
Definition datetime (name : string) (d : fdefault) : field := Field name false TDatetime d.

Definition DEFAULT_RSS : string := "https://news.google.com/rss?hl=it&gl=IT&ceid=IT:it".

Definition AppConfig : model :=
  [ str "id" (Default (VStr "main_config"));
    str "restaurant_name" (Default (VStr "Number ONE"));
    str "city" (Default (VStr "ROMA"));
    opt_str "logo_base64";
    str "theme_primary_color" (Default (VStr "#FF0000"));
    str "theme_secondary_color" (Default (VStr "#2C3E50"));
    str "theme_text_color" (Default (VStr "#FFFFFF"));
    str "rss_feed_url" (Default (VStr DEFAULT_RSS));
    opt_str "weather_api_key";
    datetime "created_at" Factory_utcnow;
    datetime "updated_at" Factory_utcnow ].

Definition AppConfigUpdate : model :=
  [ opt_str "restaurant_name";
    opt_str "city";
    opt_str "logo_base64";
    opt_str "theme_primary_color";
    opt_str "theme_secondary_color";
    opt_str "theme_text_color";
    opt_str "rss_feed_url";
    opt_str "weather_api_key" ].

Definition SlideImage : model :=
  [ str "id" Factory_uuid4;
    str "image_base64" Required;
    int "order" (Default (VInt 0));
    datetime "created_at" Factory_utcnow ].

Definition SlideImageCreate : model :=
  [ str "image_base64" Required;
    opt_int "order" (Default (VInt 0)) ].

Definition SlideSettings : model :=
  [ str "id" (Default (VStr "slide_settings"));
    int "interval_seconds" (Default (VInt 10));
    str "transition_effect" (Default (VStr "fade"));
    bool_ "auto_play" (Default (VBool true)) ].

Definition SlideSettingsUpdate : model :=
  [ opt_int "interval_seconds" (Default VNone);
    opt_str "transition_effect";
    opt_bool "auto_play" ].

Definition CurrentNumber : model :=
  [ str "id" (Default (VStr "current_number"));
    int "number" (Default (VInt 1));
    datetime "updated_at" Factory_utcnow ].

Definition NumberUpdate : model :=
  [ int "number" Required ].

Definition BluetoothRemote : model :=
  [ str "id" (Default (VStr "bluetooth_remote"));
    opt_str "device_name";
    opt_str "device_id";
    str "button_a_action" (Default (VStr "increment"));
    str "button_b_action" (Default (VStr "decrement"));
    str "button_c_action" (Default (VStr "reset"));
    str "button_d_action" (Default (VStr "none"));
    bool_ "is_paired" (Default (VBool false)) ].

Definition BluetoothRemoteUpdate : model :=
  [ opt_str "device_name";
    opt_str "device_id";
    opt_str "button_a_action";
    opt_str "button_b_action";
    opt_str "button_c_action";
    opt_str "button_d_action";
    opt_bool "is_paired" ].

Definition VoiceSettings : model :=
  [ str "id" (Default (VStr "voice_settings"));
    bool_ "enabled" (Default (VBool true));
    str "voice_type" (Default (VStr "female"));
    float "pitch" (Default (VFloat float_one));
    float "rate" (Default (VFloat float_one));
    str "phrase_template" (Default (VStr "Numero {number}"));
    str "language" (Default (VStr "it-IT")) ].

Definition VoiceSettingsUpdate : model :=
  [ opt_bool "enabled";
    opt_str "voice_type";
    opt_float "pitch";
    opt_float "rate";
    opt_str "phrase_template";
    opt_str "language" ].

(** ** Python expressions used by the handlers *)

(** Truth value of an optional dict: [None] and [{}] are false. *)
Definition truthy (o : option doc) : bool :=
  match o with
  | None => false
  | Some d => negb (bool_decide (d = ∅))
  end.

(** [d.get(k, dflt)] *)
Definition dict_get (d : doc) (k : string) (dflt : value) : value :=
  default dflt (d !! k).

(** [d[k]] *)
Definition getitem (d : doc) (k : string) : M value :=
  match d !! k with
  | Some v => mret v
  | None => raise (KeyError k)
  end.

(** [obj.k] *)
Definition getattr (d : doc) (k : string) : M value :=
  match d !! k with
  | Some v => mret v
  | None => raise (AttributeError k)
  end.

(** Unpacking the result of [find_one] as keyword arguments. *)
Definition splat (o : option doc) : M doc :=
  match o with
  | Some d => mret d
  | None => raise TypeError
  end.

(** [{k: v for k, v in u.dict().items() if v is not None}] *)
Definition not_none_items (u : doc) : doc :=
  filter (λ kv, kv.2 ≠ VNone) u.

(** [v + 1] and [v - 1] *)
Definition py_add1 (v : value) : M value :=
  match v with
  | VInt z => mret (VInt (z + 1))
  | VBool b => mret (VInt (Z.b2z b + 1))
  | VFloat f => mret (VFloat (SFadd 53 1024 f float_one))
  | _ => raise TypeError
  end.

Definition py_sub1 (v : value) : M value :=
  match v with
  | VInt z => mret (VInt (z - 1))
  | VBool b => mret (VInt (Z.b2z b - 1))
  | VFloat f => mret (VFloat (SFsub 53 1024 f float_one))
  | _ => raise TypeError
  end.

(** [max(1, v)]: [v] when [v > 1], else [1] *)
Definition py_max1 (v : value) : M value :=
  match v with
  | VInt z => mret (VInt (Z.max 1 z))
  | VBool b => mret (VInt 1)
  | VFloat f => mret (match SFcompare f float_one with Some Gt => VFloat f | _ => VInt 1 end)
  | _ => raise TypeError
  end.

Fixpoint mapM {A B} (f : A → M B) (l : list A) : M (list B) :=
  match l with
  | [] => mret []
  | x :: l' => y ← f x; ys ← mapM f l'; mret (y :: ys)
  end.

Fixpoint for_each {A} (f : A → M unit) (l : list A) : M unit :=
  match l with
  | [] => mret tt
  | x :: l' => f x;; for_each f l'
  end.

(** ** Config endpoints *)

Definition get_config : M doc :=
  config ← find_one app_config "id" (VStr "main_config");
  if negb (truthy config) then
    default_config ← construct AppConfig ∅;
    insert_one app_config default_config;;
    mret default_config
  else
    kw ← splat config; construct AppConfig kw.

Definition update_config (config_update : doc) : M doc :=
  let update_data := not_none_items config_update in
  now ← utcnow;
  let update_data := <["updated_at" := now]> update_data in
  update_one app_config "id" (VStr "main_config") update_data true;;
  config ← find_one app_config "id" (VStr "main_config");
  kw ← splat config; construct AppConfig kw.

(** ** Slide image endpoints *)

Definition get_slides : M (list doc) :=
  slides ← find_sort_to_list slide_images "order" 100;
  mapM (construct SlideImage) slides.

Definition create_slide (slide : doc) : M doc :=
  slide_obj ← construct SlideImage slide;
  insert_one slide_images slide_obj;;
  mret slide_obj.

Definition delete_slide (slide_id : string) : M doc :=
  deleted_count ← delete_one slide_images "id" (VStr slide_id);
  if Z.eqb deleted_count 0 then
    raise (HTTPException 404 "Slide not found")
  else
    mret {[ "message" := VStr "Slide deleted successfully" ]}.

Definition reorder_slides (slide_orders : list doc) : M doc :=
  for_each (λ item,
      id ← getitem item "id";
      order ← getitem item "order";
      update_one slide_images "id" id {[ "order" := order ]} false)
    slide_orders;;
  mret {[ "message" := VStr "Slides reordered successfully" ]}.

(** ** Slide settings endpoints *)

Definition get_slide_settings : M doc :=
  settings ← find_one slide_settings "id" (VStr "slide_settings");
  if negb (truthy settings) then
    default_settings ← construct SlideSettings ∅;
    insert_one slide_settings default_settings;;
    mret default_settings
  else
    kw ← splat settings; construct SlideSettings kw.

Definition update_slide_settings (settings_update : doc) : M doc :=
  let update_data := not_none_items settings_update in
  update_one slide_settings "id" (VStr "slide_settings") update_data true;;
  settings ← find_one slide_settings "id" (VStr "slide_settings");
  kw ← splat settings; construct SlideSettings kw.

(** ** Current number endpoints *)

Definition get_current_number : M doc :=
  number ← find_one current_number "id" (VStr "current_number");
  if negb (truthy number) then
    default_number ← construct CurrentNumber ∅;
    insert_one current_number default_number;;
    mret default_number
  else
    kw ← splat number; construct CurrentNumber kw.

Definition update_number (number_update : doc) : M doc :=
  n ← getattr number_update "number";
  now ← utcnow;
  let update_data : doc := {[ "number" := n; "updated_at" := now ]} in
  update_one current_number "id" (VStr "current_number") update_data true;;
  number ← find_one current_number "id" (VStr "current_number");
  kw ← splat number; construct CurrentNumber kw.

Definition increment_number : M doc :=
  found ← find_one current_number "id" (VStr "current_number");
  current ← (if negb (truthy found) then
               current ← construct CurrentNumber ∅;
               insert_one current_number current;;
               mret current
             else splat found);
  new_number ← py_add1 (dict_get current "number" (VInt 1));
  now ← utcnow;
  let update_data : doc := {[ "number" := new_number; "updated_at" := now ]} in
  update_one current_number "id" (VStr "current_number") update_data false;;
  number ← find_one current_number "id" (VStr "current_number");
  kw ← splat number; construct CurrentNumber kw.

Definition decrement_number : M doc :=
  found ← find_one current_number "id" (VStr "current_number");
  current ← (if negb (truthy found) then
               current ← construct CurrentNumber ∅;
               insert_one current_number current;;
               mret current
             else splat found);
  less ← py_sub1 (dict_get current "number" (VInt 1));
  new_number ← py_max1 less;
  now ← utcnow;
  let update_data : doc := {[ "number" := new_number; "updated_at" := now ]} in
  update_one current_number "id" (VStr "current_number") update_data false;;
  number ← find_one current_number "id" (VStr "current_number");
  kw ← splat number; construct CurrentNumber kw.

Definition reset_number : M doc :=
  now ← utcnow;
  let update_data : doc := {[ "number" := VInt 1; "updated_at" := now ]} in
  update_one current_number "id" (VStr "current_number") update_data true;;
  number ← find_one current_number "id" (VStr "current_number");
  kw ← splat number; construct CurrentNumber kw.

(** ** News feed endpoint *)

Record NewsResponse : Type := mkNews {
  news : list doc;
  error : option string;
}.

Definition parse (url : value) : M (list doc) := λ w, (feedparser_parse w url, w).

Definition news_item (entry : doc) : M doc :=
  title ← getattr entry "title";
  link ← getattr entry "link";
  mret {[ "title" := title; "link" := link;
          "published" := dict_get entry "published" (VStr "") ]}.

Definition get_news_feed : M NewsResponse :=
  try_except
    (config ← find_one app_config "id" (VStr "main_config");
     let rss_url :=
       if truthy config
       then dict_get (default ∅ config) "rss_feed_url" (VStr DEFAULT_RSS)
       else VStr DEFAULT_RSS in
     entries ← parse rss_url;
     news_items ← mapM news_item (take 20 entries);
     mret (mkNews news_items None))
    (λ e, mret (mkNews [] (Some (str_exn e)))).

(** ** Weather endpoint (mocked) *)

Record Weather : Type := mkWeather {
  city : value;
  current : doc;
  forecast : list doc;
}.

Definition forecast_day (day : string) (temp : Z) (condition : string) : doc :=
  {[ "day" := VStr day; "temp" := VInt temp; "condition" := VStr condition ]}.

Definition get_weather : M Weather :=
  config ← find_one app_config "id" (VStr "main_config");
  let city :=
    if truthy config
    then dict_get (default ∅ config) "city" (VStr "ROMA")
    else VStr "ROMA" in
  let mock_weather :=
    mkWeather city
      {[ "temp" := VInt 32; "condition" := VStr "sunny"; "icon" := VStr "☀️" ]}
      [ forecast_day "GIO" 35 "sunny";
        forecast_day "VEN" 36 "sunny";
        forecast_day "SAB" 35 "sunny";
        forecast_day "DOM" 35 "partly_cloudy";
        forecast_day "LUN" 35 "sunny";
        forecast_day "MAR" 34 "sunny" ] in
  mret mock_weather.

(** ** Bluetooth remote endpoints *)

Definition get_bluetooth_settings : M doc :=
  settings ← find_one bluetooth_remote "id" (VStr "bluetooth_remote");
  if negb (truthy settings) then
    default_settings ← construct BluetoothRemote ∅;
    insert_one bluetooth_remote default_settings;;
    mret default_settings
  else
    kw ← splat settings; construct BluetoothRemote kw.

Definition update_bluetooth_settings (settings_update : doc) : M doc :=
  let update_data := not_none_items settings_update in
  update_one bluetooth_remote "id" (VStr "bluetooth_remote") update_data true;;
  settings ← find_one bluetooth_remote "id" (VStr "bluetooth_remote");
  kw ← splat settings; construct BluetoothRemote kw.

(** ** Voice settings endpoints *)

Definition get_voice_settings : M doc :=
  settings ← find_one voice_settings "id" (VStr "voice_settings");
  if negb (truthy settings) then
    default_settings ← construct VoiceSettings ∅;
    insert_one voice_settings default_settings;;
    mret default_settings
  else
    kw ← splat settings; construct VoiceSettings kw.

Definition update_voice_settings (settings_update : doc) : M doc :=
  let update_data := not_none_items settings_update in
  update_one voice_settings "id" (VStr "voice_settings") update_data true;;
  settings ← find_one voice_settings "id" (VStr "voice_settings");
  kw ← splat settings; construct VoiceSettings kw.

(** ** Notions used in the statements *)

(** The list a collection holds after [update_one]. *)
Definition updated (k : string) (v : value) (data : doc) (upsert : bool) (l : list doc) : list doc :=
  match update_first (matches k v) (λ d, data ∪ d) l with
  | Some l' => l'
  | None => if upsert then l ++ [data ∪ {[k := v]}] else l
  end.

(** The value a field takes when no factory has to run. *)
Definition field_value (f : field) (kwargs : doc) : value :=
  match kwargs !! f_name f with
  | Some v => v
  | None => match f_default f with Default v => v | _ => VNone end
  end.

(** The field validates without running a factory. *)
Definition field_ok (f : field) (kwargs : doc) : bool :=
  match kwargs !! f_name f with
  | Some v => check f v
  | None => match f_default f with Default _ => true | _ => false end
  end.

(** The instance a model builds from [kwargs] when every field is [field_ok]. *)
Fixpoint project (m : model) (kwargs : doc) : doc :=
  match m with
  | [] => ∅
  | f :: m' => <[f_name f := field_value f kwargs]> (project m' kwargs)
  end.

(** The document [find_one] returns for a singleton key. *)
Definition singleton_doc (c : coll_name) (key : string) (d : DB) : option doc :=
  find (matches "id" (VStr key)) (sel c d).

(** The number held by the stored CurrentNumber document. *)
Definition stored_number (d : DB) : option value :=
  singleton_doc current_number "current_number" d ≫= (.!! "number").

Abbreviation number_doc n t :=
  ({[ "id" := VStr "current_number"; "number" := VInt n; "updated_at" := VDate t ]} : doc).

Abbreviation number_data n t :=
  ({[ "number" := VInt n; "updated_at" := VDate t ]} : doc).

(** The world after one reading of the clock. *)
Definition tick (w : World) : World :=
  mkWorld (db w) (clock w) (S (ticks w)) (uuid_src w) (drawn w) (feedparser_parse w).

(** The tail shared by the counter writes: [$set] of a number and a
    timestamp on the stored document, then the document read back. *)
Definition write_number (n t : Z) (upsert : bool) : M doc :=
  update_one current_number "id" (VStr "current_number") (number_data n t) upsert;;
  number ← find_one current_number "id" (VStr "current_number");
  kw ← splat number; construct CurrentNumber kw.

(** The document an upsert writes onto: the one found, or else the filter. *)
Definition base_doc (key : string) (o : option doc) : doc :=
  default {[ "id" := VStr key ]} o.

(** [increment_number] and [decrement_number] differ in one expression. *)
Definition step_number (op : value → M value) : M doc :=
  found ← find_one current_number "id" (VStr "current_number");
  current ← (if negb (truthy found) then
               current ← construct CurrentNumber ∅;
               insert_one current_number current;;
               mret current
             else splat found);
  new_number ← op (dict_get current "number" (VInt 1));
  now ← utcnow;
  let update_data : doc := {[ "number" := new_number; "updated_at" := now ]} in
  update_one current_number "id" (VStr "current_number") update_data false;;
  number ← find_one current_number "id" (VStr "current_number");
  kw ← splat number; construct CurrentNumber kw.

(** [max(1, v - 1)] *)
Definition decrement_op (v : value) : M value := less ← py_sub1 v; py_max1 less.

(** A world whose store holds the number [n], the clock, which advances
    by a millisecond at each reading, standing at 7. *)
Definition world_with_number (n : Z) : World :=
  mkWorld (upd current_number [number_doc n 0] empty_db)
    (λ k, 1000 * Z.of_nat k) 7 (λ _, "u") 0 (λ _, Ok []).

(** The document carries the given slide id. *)
Definition has_id (slide_id : string) (d : doc) : Prop := d !! "id" = Some (VStr slide_id).

(** A world over the store [d] whose fetcher raises. *)
Definition world_of (d : DB) : World :=
  mkWorld d (λ k, 1000 * Z.of_nat k) 0 (λ _, "u") 0 (λ _, Raise (OtherException "fetcher error")).

(** A store with two slides, stored out of order. *)
Definition two_slides : DB :=
  upd slide_images
    [ {[ "id" := VStr "a"; "image_base64" := VStr "x"; "order" := VInt 2; "created_at" := VDate 0 ]};
      {[ "id" := VStr "b"; "image_base64" := VStr "y"; "order" := VInt 1; "created_at" := VDate 1000 ]} ]
    empty_db.

(** The URL [get_news_feed] fetches. *)
Definition rss_url_of (d : DB) : value :=
  match singleton_doc app_config "main_config" d with
  | Some config => dict_get config "rss_feed_url" (VStr DEFAULT_RSS)
  | None => VStr DEFAULT_RSS
  end.

(** A feed entry without title or link. *)
Definition malformed (entry : doc) : Prop := entry !! "title" = None ∨ entry !! "link" = None.

(** ** Slides as stored and as listed *)

(** Every field of the model is present with a value the model accepts;
    this is what [Model.dict()] looks like. *)
Definition conforms (m : model) (d : doc) : bool :=
  forallb (λ f, match d !! f_name f with Some v => check f v | None => false end) m.

(** The [order] of a listed slide. *)
Definition order_of (d : doc) : Z :=
  match d !! "order" with Some (VInt z) => z | _ => 0 end.

(** Non-decreasing [order]. *)
Definition by_order (a b : doc) : Prop := order_of a ≤ order_of b.

(** The stored [order] is an integer. *)
Definition has_int_order (d : doc) : Prop := ∃ z, d !! "order" = Some (VInt z).

(** The claim about [get_slides] as the specification words it, for one
    state of the world. *)
Definition lists_sorted_capped (w : World) : Prop :=
  ∃ resp w', get_slides w = (Ok resp, w') ∧
             StronglySorted by_order resp ∧ (length resp ≤ 100)%nat.

(** A state reached through the endpoints: one slide is created, then
    reordered with a null [order]. *)
Definition world_null_order : World :=
  ((create_slide {[ "image_base64" := VStr "x"; "order" := VInt 3 ]};;
    reorder_slides [ {[ "id" := VStr "u"; "order" := VNone ]} ])
     (world_of empty_db)).2.

(** ** The five singleton resources *)

Inductive resource : Type :=
  | RAppConfig | RSlideSettings | RCurrentNumber | RBluetoothRemote | RVoiceSettings.

Definition collection (r : resource) : coll_name :=
  match r with
  | RAppConfig => app_config
  | RSlideSettings => slide_settings
  | RCurrentNumber => current_number
  | RBluetoothRemote => bluetooth_remote
  | RVoiceSettings => voice_settings
  end.

Definition key (r : resource) : string :=
  match r with
  | RAppConfig => "main_config"
  | RSlideSettings => "slide_settings"
  | RCurrentNumber => "current_number"
  | RBluetoothRemote => "bluetooth_remote"
  | RVoiceSettings => "voice_settings"
  end.

Definition model_of (r : resource) : model :=
  match r with
  | RAppConfig => AppConfig
  | RSlideSettings => SlideSettings
  | RCurrentNumber => CurrentNumber
  | RBluetoothRemote => BluetoothRemote
  | RVoiceSettings => VoiceSettings
  end.

Definition update_model (r : resource) : model :=
  match r with
  | RAppConfig => AppConfigUpdate
  | RSlideSettings => SlideSettingsUpdate
  | RCurrentNumber => NumberUpdate
  | RBluetoothRemote => BluetoothRemoteUpdate
  | RVoiceSettings => VoiceSettingsUpdate
  end.

(** The GET and PUT endpoint of each resource. *)
Definition GET (r : resource) : M doc :=
  match r with
  | RAppConfig => get_config
  | RSlideSettings => get_slide_settings
  | RCurrentNumber => get_current_number
  | RBluetoothRemote => get_bluetooth_settings
  | RVoiceSettings => get_voice_settings
  end.

Definition PUT (r : resource) (body : doc) : M doc :=
  match r with
  | RAppConfig => update_config body
  | RSlideSettings => update_slide_settings body
  | RCurrentNumber => update_number body
  | RBluetoothRemote => update_bluetooth_settings body
  | RVoiceSettings => update_voice_settings body
  end.

(** The resources whose PUT stamps [updated_at]. *)
Definition stamps (r : resource) : bool :=
  match r with
  | RAppConfig | RCurrentNumber => true
  | _ => false
  end.

(** The documented default values; the timestamps are the readings of the
    clock taken while the defaults are built. *)
Definition defaults (r : resource) (w : World) : doc :=
  match r with
  | RAppConfig =>
      {[ "id" := VStr "main_config";
         "restaurant_name" := VStr "Number ONE";
         "city" := VStr "ROMA";
         "logo_base64" := VNone;
         "theme_primary_color" := VStr "#FF0000";
         "theme_secondary_color" := VStr "#2C3E50";
         "theme_text_color" := VStr "#FFFFFF";
         "rss_feed_url" := VStr "https://news.google.com/rss?hl=it&gl=IT&ceid=IT:it";
         "weather_api_key" := VNone;
         "created_at" := VDate (clock w (ticks w));
         "updated_at" := VDate (clock w (S (ticks w))) ]}
  | RSlideSettings =>
      {[ "id" := VStr "slide_settings";
         "interval_seconds" := VInt 10;
         "transition_effect" := VStr "fade";
         "auto_play" := VBool true ]}
  | RCurrentNumber =>
      {[ "id" := VStr "current_number";
         "number" := VInt 1;
         "updated_at" := VDate (clock w (ticks w)) ]}
  | RBluetoothRemote =>
      {[ "id" := VStr "bluetooth_remote";
         "device_name" := VNone;
         "device_id" := VNone;
         "button_a_action" := VStr "increment";
         "button_b_action" := VStr "decrement";
         "button_c_action" := VStr "reset";
         "button_d_action" := VStr "none";
         "is_paired" := VBool false ]}
  | RVoiceSettings =>
      {[ "id" := VStr "voice_settings";
         "enabled" := VBool true;
         "voice_type" := VStr "female";
         "pitch" := VFloat float_one;
         "rate" := VFloat float_one;
         "phrase_template" := VStr "Numero {number}";
         "language" := VStr "it-IT" ]}
  end.

(** The five singleton GET handlers have one shape. *)
Definition get_singleton (c : coll_name) (k : string) (m : model) : M doc :=
  found ← find_one c "id" (VStr k);
  if negb (truthy found) then
    dflt ← construct m ∅;
    insert_one c dflt;;
    mret dflt
  else
    kw ← splat found; construct m kw.

(** ** Request bodies and what a PUT writes *)

(** [d] is the [.dict()] of an instance of [m]: every field present and
    accepted, and no other key. *)
Definition instance_of (m : model) (d : doc) : bool :=
  conforms m d && bool_decide (dom d ⊆ (list_to_set (f_name <$> m) : gset string)).

(** The value a body supplies for a key: absent and null supply none. *)
Definition supplied (body : doc) (k : string) : option value :=
  match body !! k with
  | Some VNone | None => None
  | Some v => Some v
  end.

(** The [$set] document of each PUT, [now] being the reading of the clock. *)
Definition put_data (r : resource) (body : doc) (now : Z) : doc :=
  match r with
  | RAppConfig => <["updated_at" := VDate now]> (not_none_items body)
  | RCurrentNumber =>
      {[ "number" := default VNone (body !! "number"); "updated_at" := VDate now ]}
  | _ => not_none_items body
  end.

(** The tail shared by the PUT handlers: upsert of the [$set] document,
    then the document read back and validated. *)
Definition upsert_then_read (c : coll_name) (k : string) (m : model) (data : doc) : M doc :=
  update_one c "id" (VStr k) data true;;
  found ← find_one c "id" (VStr k);
  kw ← splat found; construct m kw.

(** The claim about partial PUTs as the specification words it, for one
    resource, body and state: in the stored document the supplied fields
    take their new value and every other field keeps its prior value. *)
Definition changes_only_supplied (r : resource) (body : doc) (w : World) : Prop :=
  ∀ cur, singleton_doc (collection r) (key r) (db w) = Some cur →
  ∃ cur', singleton_doc (collection r) (key r) (db (PUT r body w).2) = Some cur' ∧
          ∀ k, cur' !! k = match supplied body k with Some v => Some v | None => cur !! k end.

(** A stored AppConfig document, the clock standing at its fifth reading. *)
Definition world_with_config : World :=
  mkWorld (upd app_config [defaults RAppConfig (world_of empty_db)] empty_db)
    (λ k, 1000 * Z.of_nat k) 5 (λ _, "u") 0 (λ _, Ok []).

(** A body for PUT /config that supplies the city alone. *)
Definition city_only : doc :=
  {[ "restaurant_name" := VNone; "city" := VStr "MILANO"; "logo_base64" := VNone;
     "theme_primary_color" := VNone; "theme_secondary_color" := VNone;
     "theme_text_color" := VNone; "rss_feed_url" := VNone; "weather_api_key" := VNone ]}.

#[global] Instance ftype_eq_dec : EqDecision ftype.
Proof. solve_decision. Defined.

(** The field of a model that carries a given name. *)
Definition field_named (m : model) (k : string) : option field :=
  find (λ f, bool_decide (f_name f = k)) m.

(** An update model and its model give the fields they share one type. *)
Definition types_agree (um m : model) : bool :=
  forallb (λ uf, match field_named m (f_name uf) with
                 | Some f => bool_decide (f_type uf = f_type f)
                 | None => false
                 end) um.

(** A body for PUT /voice that supplies the language alone, and a store
    that holds no VoiceSettings document. *)
Definition language_only : doc :=
  {[ "enabled" := VNone; "voice_type" := VNone; "pitch" := VNone; "rate" := VNone;
     "phrase_template" := VNone; "language" := VStr "en-GB" ]}.

(** ** Requests *)

Inductive request : Type :=
  | GetConfig
  | PutConfig (config_update : doc)
  | GetSlides
  | PostSlide (slide : doc)
  | DeleteSlide (slide_id : string)
  | PutReorder (slide_orders : list doc)
  | GetSlideSettings
  | PutSlideSettings (settings_update : doc)
  | GetNumber
  | PutNumber (number_update : doc)
  | PostIncrement
  | PostDecrement
  | PostReset
  | GetNews
  | GetBluetooth
  | PutBluetooth (settings_update : doc)
  | GetVoice
  | PutVoice (settings_update : doc).

Inductive response : Type :=
  | RDoc (d : doc)
  | RDocs (l : list doc)
  | RNews (n : NewsResponse).

(** The route table: each method and path with its handler. *)
Definition handle (q : request) : M response :=
  match q with
  | GetConfig => RDoc <$> get_config
  | PutConfig u => RDoc <$> update_config u
  | GetSlides => RDocs <$> get_slides
  | PostSlide s => RDoc <$> create_slide s
  | DeleteSlide i => RDoc <$> delete_slide i
  | PutReorder l => RDoc <$> reorder_slides l
  | GetSlideSettings => RDoc <$> get_slide_settings
  | PutSlideSettings u => RDoc <$> update_slide_settings u
  | GetNumber => RDoc <$> get_current_number
  | PutNumber u => RDoc <$> update_number u
  | PostIncrement => RDoc <$> increment_number
  | PostDecrement => RDoc <$> decrement_number
  | PostReset => RDoc <$> reset_number
  | GetNews => RNews <$> get_news_feed
  | GetBluetooth => RDoc <$> get_bluetooth_settings
  | PutBluetooth u => RDoc <$> update_bluetooth_settings u
  | GetVoice => RDoc <$> get_voice_settings
  | PutVoice u => RDoc <$> update_voice_settings u
  end.

(** The request passes the validation of its declared body type: a body
    is an instance of its model; the reorder list is a list of dicts. *)
Definition well_formed (q : request) : bool :=
  match q with
  | PutConfig u => instance_of AppConfigUpdate u
  | PostSlide s => instance_of SlideImageCreate s
  | PutSlideSettings u => instance_of SlideSettingsUpdate u
  | PutNumber u => instance_of NumberUpdate u
  | PutBluetooth u => instance_of BluetoothRemoteUpdate u
  | PutVoice u => instance_of VoiceSettingsUpdate u
  | _ => true
  end.




(** The states of the world the endpoints can produce from an empty store,
    one request handled after the other. *)
Inductive reachable : World → Prop :=
  | reachable_start w : db w = empty_db → reachable w
  | reachable_step q w : reachable w → well_formed q = true → reachable (handle q w).2.



(** What the handlers need of a stored singleton document in order to
    validate it: each field absent with a default, or present and accepted. *)
Definition field_valid (f : field) (d : doc) : bool :=
  match d !! f_name f with
  | Some v => check f v
  | None => match f_default f with Required => false | _ => true end
  end.

Definition doc_valid (m : model) (d : doc) : bool :=
  forallb (λ f, field_valid f d) m.

(** A stored singleton document validates and holds what the store can
    hold. *)
Definition stored_ok (m : model) (x : doc) : Prop :=
  doc_valid m x = true ∧ bson_ok x = true.

Definition singletons_valid (d : DB) : Prop :=
  ∀ r, Forall (stored_ok (model_of r)) (sel (collection r) d).

(** A [$set] document whose values the model accepts keeps a document valid. *)
Definition typed_for (m : model) (data : doc) : Prop :=
  ∀ f v, f ∈ m → data !! f_name f = Some v → check f v = true.

(** The computation writes to no collection but [c]. *)
Definition keeps (c : coll_name) {A} (m : M A) : Prop :=
  ∀ w c', c' ≠ c → sel c' (db (m w).2) = sel c' (db w).

#[global] Instance resource_eq_dec : EqDecision resource.
Proof. solve_decision. Defined.


(** ** Sequences of requests *)

(** The same request sent [n] times, with the responses in order. *)
Fixpoint repeat_request {A} (n : nat) (m : M A) : M (list A) :=
  match n with
  | O => mret []
  | S n' => r ← m; rs ← repeat_request n' m; mret (r :: rs)
  end.

(** The number a CurrentNumber response carries. *)
Definition number_of (resp : doc) : option value := resp !! "number".

(** ** Slides: creation, order and frames *)

(** The SlideImage that [create_slide] builds in the world [w]. *)
Definition new_slide (w : World) (image_base64 : string) (order : Z) : doc :=
  {[ "id" := VStr (uuid_src w (drawn w));
     "image_base64" := VStr image_base64;
     "order" := VInt order;
     "created_at" := VDate (clock w (ticks w)) ]}.

(** That slide as the store keeps it: created to the millisecond. *)
Definition stored_slide (w : World) (image_base64 : string) (order : Z) : doc :=
  {[ "id" := VStr (uuid_src w (drawn w));
     "image_base64" := VStr image_base64;
     "order" := VInt order;
     "created_at" := VDate (ms (clock w (ticks w))) ]}.

(** Two documents that differ at most in their [order]. *)
Definition same_but_order (d d' : doc) : Prop :=
  ∀ k, k ≠ "order" → d' !! k = d !! k.

(** Every reorder entry carries both keys. *)
Definition keyed (l : list doc) : Prop :=
  Forall (λ item : doc, is_Some (item !! "id") ∧ is_Some (item !! "order")) l.

(** Every integer a reorder list carries fits in 64 bits. *)
Definition fits (l : list doc) : Prop :=
  Forall (λ item : doc, bson_ok item = true) l.

(** No stored slide is selected by the [id] of any reorder entry. *)
Definition no_entry_matches (l : list doc) (slides : list doc) : Prop :=
  Forall (λ item : doc, ∀ v, item !! "id" = Some v →
                             find (matches "id" (to_bson v)) slides = None) l.

(** The slides after one reorder entry: the first slide the id selects
    takes the order, every other slide is as it was. *)
Fixpoint set_order (id order : value) (slides : list doc) : list doc :=
  match slides with
  | [] => []
  | d :: rest =>
      if matches "id" id d then <["order" := order]> d :: rest
      else d :: set_order id order rest
  end.

(** The slides after the entries of a reorder list, taken in turn. *)
Fixpoint reordered (l : list doc) (slides : list doc) : list doc :=
  match l with
  | [] => slides
  | item :: l' =>
      match item !! "id", item !! "order" with
      | Some id, Some order => reordered l' (set_order (to_bson id) (to_bson order) slides)
      | _, _ => reordered l' slides
      end
  end.

(** Every [order] a reorder list supplies is an integer. *)
Definition integer_orders (l : list doc) : Prop :=
  Forall (λ item : doc, ∀ v, item !! "order" = Some v → ∃ z, v = VInt z) l.

(** The stored slides all conform to SlideImage. *)
Definition slides_conform (d : DB) : Prop :=
  Forall (λ x, conforms SlideImage x = true) (sel slide_images d).

(** A body for POST /slides, and a reorder list whose second entry has
    no [order]. *)
Definition slide_body : doc := {[ "image_base64" := VStr "x"; "order" := VInt 3 ]}.

Definition half_keyed : list doc :=
  [ {[ "id" := VStr "b"; "order" := VInt 7 ]}; {[ "id" := VStr "a" ]};
    {[ "id" := VStr "a"; "order" := VInt 9 ]} ].

(** What [reorder_slides] does with one entry. *)
Definition reorder_item (item : doc) : M unit :=
  id ← getitem item "id";
  order ← getitem item "order";
  update_one slide_images "id" id {[ "order" := order ]} false.

(** The key whose lookup fails first on a reorder entry. *)
Definition missing_key (item : doc) : option string :=
  match item !! "id", item !! "order" with
  | None, _ => Some "id"
  | Some _, None => Some "order"
  | Some _, Some _ => None
  end.

(** ** News items and feeds *)

(** How a news item relates to the feed entry it is made from. *)
Definition item_of_entry (entry item : doc) : Prop :=
  is_Some (entry !! "title") ∧ item !! "title" = entry !! "title" ∧
  is_Some (entry !! "link") ∧ item !! "link" = entry !! "link" ∧
  item !! "published" = Some (dict_get entry "published" (VStr "")) ∧
  dom item = ({[ "title"; "link"; "published" ]} : gset string).

(** The same world with another feed fetcher. *)
Definition with_feed (fp : value → Result (list doc)) (w : World) : World :=
  mkWorld (db w) (clock w) (ticks w) (uuid_src w) (drawn w) fp.

(** A feed of twenty-five well-formed entries. *)
Definition long_feed : list doc :=
  replicate 25 {[ "title" := VStr "t"; "link" := VStr "l" ]}.

Definition world_with_feed (entries : list doc) : World :=
  mkWorld empty_db (λ k, 1000 * Z.of_nat k) 0 (λ _, "u") 0 (λ _, Ok entries).

(** A body for PUT /config that supplies the feed URL alone. *)
Definition feed_only : doc :=
  {[ "restaurant_name" := VNone; "city" := VNone; "logo_base64" := VNone;
     "theme_primary_color" := VNone; "theme_secondary_color" := VNone;
     "theme_text_color" := VNone; "rss_feed_url" := VStr "https://example.org/rss";
     "weather_api_key" := VNone ]}.

(** Two fetchers that serve [long_feed] at one URL, the one PUT by
    [feed_only] and the default one, and raise everywhere else. *)
Definition example_only (url : value) : Result (list doc) :=
  if decide (url = VStr "https://example.org/rss") then Ok long_feed
  else Raise (OtherException "fetcher error").

Definition default_only (url : value) : Result (list doc) :=
  if decide (url = VStr DEFAULT_RSS) then Ok long_feed
  else Raise (OtherException "fetcher error").

(** ** One document per singleton *)

(** What a singleton GET does once [find_one] has answered. *)
Definition get_singleton_resume (c : coll_name) (m : model) (found : option doc) : M doc :=
  if negb (truthy found) then
    dflt ← construct m ∅;
    insert_one c dflt;;
    mret dflt
  else
    kw ← splat found; construct m kw.

(** Two GETs of one resource that interleave: each handler is suspended at
    the [await] of its [find_one] and resumes once both have looked the
    document up. *)
Definition two_gets_interleaved (c : coll_name) (k : string) (m : model) : M (doc * doc) :=
  found1 ← find_one c "id" (VStr k);
  found2 ← find_one c "id" (VStr k);
  d1 ← get_singleton_resume c m found1;
  d2 ← get_singleton_resume c m found2;
  mret (d1, d2).

(** A singleton collection holds nothing, or one document with the fixed id. *)
Definition single_keyed (r : resource) (l : list doc) : Prop :=
  l = [] ∨ ∃ x, l = [x] ∧ x !! "id" = Some (VStr (key r)).

Definition singletons_unique (d : DB) : Prop :=
  ∀ r, single_keyed r (sel (collection r) d).

(** A world reached by three requests on an empty store. *)
Definition world_after_three : World :=
  (handle PostIncrement (handle (PutVoice language_only) (handle GetConfig (world_of empty_db)).2).2).2.

(** ** Integers the store refuses *)

(** The claim about a PUT that creates the document as the specification
    words it, for one resource, body and state: the PUT completes and one
    document is appended. *)
Definition put_creates_document (r : resource) (body : doc) (w : World) : Prop :=
  stamps r = false →
  instance_of (update_model r) body = true →
  singleton_doc (collection r) (key r) (db w) = None →
  ∃ stored resp w1,
    PUT r body w = (Ok resp, w1) ∧
    sel (collection r) (db w1) = sel (collection r) (db w) ++ [stored].

(** A body for PUT /slides/settings whose interval is 2^63, and a body for
    PUT /number that carries 2^63. *)
Definition huge_interval : doc :=
  {[ "interval_seconds" := VInt 9223372036854775808;
     "transition_effect" := VNone; "auto_play" := VNone ]}.

Definition huge_number : doc := {[ "number" := VInt 9223372036854775808 ]}.

(** ** The first GET and the second *)

(** The claim about two GETs on an empty store as the specification words
    it, for one resource and state: the second GET returns the document
    the first one returned. *)
Definition second_get_same (r : resource) (w : World) : Prop :=
  sel (collection r) (db w) = [] →
  ∃ d w1 w2, GET r w = (Ok d, w1) ∧ GET r w1 = (Ok d, w2).

(** An empty store, and a clock that reads one microsecond past each
    millisecond. *)
Definition world_fine_clock : World :=
  mkWorld empty_db (λ k, 1000 * Z.of_nat k + 1) 0 (λ _, "u") 0 (λ _, Ok []).

(** ** The counter at the edge of the store's integers *)

(** The largest integer the store holds. *)
Definition max_int64 : Z := 9223372036854775807.



(** The claim about an increment followed by a decrement as the
    specification words it, for one number and state. *)
Definition increment_decrement_returns (N : Z) (w : World) : Prop :=
  1 ≤ N → stored_number (db w) = Some (VInt N) →
  ∃ r1 w1 r2 w2,
    increment_number w = (Ok r1, w1) ∧
    decrement_number w1 = (Ok r2, w2) ∧
    number_of r2 = Some (VInt N).

(** The fields of [m], read from [kwargs], laid over the instance [rest]
    that the remaining fields of a model have produced. *)
Fixpoint overlay (m : model) (kwargs rest : doc) : doc :=
  match m with
  | [] => rest
  | f :: m' => <[f_name f := field_value f kwargs]> (overlay m' kwargs rest)
  end.

(** * Properties *)

(** ** The monad *)

Lemma bind_ok {A B} (m : M A) (f : A → M B) (w w' : World) (a : A) :
  m w = (Ok a, w') → (m ≫= f) w = f a w'.
Proof. intros H. unfold mbind, M_bind. by rewrite H. Qed.

Lemma bind_raise {A B} (m : M A) (f : A → M B) (w w' : World) (e : exn) :
  m w = (Raise e, w') → (m ≫= f) w = (Raise e, w').
Proof. intros H. unfold mbind, M_bind. by rewrite H. Qed.

Lemma ret_eq {A} (a : A) (w : World) : (mret a : M A) w = (Ok a, w).
Proof. reflexivity. Qed.

(** ** Collections of the store *)

#[global] Arguments sel : simpl never.
#[global] Arguments upd : simpl never.

Lemma sel_upd_eq c l d : sel c (upd c l d) = l.
Proof. by destruct c. Qed.

Lemma sel_upd_ne c c' l d : c ≠ c' → sel c' (upd c l d) = sel c' d.
Proof. by destruct c, c'. Qed.

Lemma upd_sel c d : upd c (sel c d) d = d.
Proof. by destruct c, d. Qed.

Lemma upd_upd c l l' d : upd c l (upd c l' d) = upd c l d.
Proof. by destruct c. Qed.

Lemma set_db_id w : set_db (db w) w = w.
Proof. by destruct w. Qed.

Lemma db_set_db d w : db (set_db d w) = d.
Proof. reflexivity. Qed.

(** ** Filters *)

Lemma num_compare_refl n : num_compare n n = Eq.
Proof. destruct n; simpl; try done. apply Z.compare_refl. Qed.

Lemma string_compare_refl (s : string) : String.compare s s = Eq.
Proof.
  pose proof (String.compare_antisym s s) as H.
  by destruct (String.compare s s).
Qed.

Lemma bson_compare_refl o : bson_compare o o = Eq.
Proof.
  unfold bson_compare. destruct (bson_of o); simpl; try done.
  - apply num_compare_refl.
  - apply string_compare_refl.
  - by destruct b.
  - apply Z.compare_refl.
Qed.

Lemma matches_str k s (d : doc) :
  matches k (VStr s) d = true ↔ d !! k = Some (VStr s).
Proof.
  unfold matches, bson_compare.
  destruct (d !! k) as [[ | b | z | f | s' | t]|] eqn:E; simpl; try (split; [done | congruence]).
  destruct (String.compare s' s) eqn:C.
  - apply String.compare_eq_iff in C. by subst.
  - split; [done | intros [= ->]]. by rewrite string_compare_refl in C.
  - split; [done | intros [= ->]]. by rewrite string_compare_refl in C.
Qed.

Lemma matches_self k v (d : doc) : d !! k = Some v → matches k v d = true.
Proof. intros H. unfold matches. by rewrite H, bson_compare_refl. Qed.

Lemma matches_union k v (data d : doc) :
  data !! k = None → matches k v (data ∪ d) = matches k v d.
Proof. intros H. unfold matches. by rewrite lookup_union_r. Qed.

(** ** First-match update and deletion *)

Section first_match.
Context (p : doc → bool).

Lemma update_first_None f l :
  find p l = None → update_first p f l = None.
Proof.
  induction l as [|d l IH]; simpl; [done|].
  destruct (p d); [done|]. intros H. by rewrite IH.
Qed.

Lemma update_first_Some f l d :
  find p l = Some d →
  ∃ l1 l2, l = l1 ++ d :: l2 ∧ find p l1 = None ∧ p d = true ∧
           update_first p f l = Some (l1 ++ f d :: l2).
Proof.
  induction l as [|x l IH]; simpl; [done|].
  destruct (p x) eqn:Px.
  - intros [= ->]. by exists [], l.
  - intros H. destruct (IH H) as (l1 & l2 & -> & H1 & H2 & H3).
    exists (x :: l1), l2. simpl. by rewrite Px, H3.
Qed.

Lemma delete_first_None l :
  find p l = None → delete_first p l = None.
Proof.
  induction l as [|d l IH]; simpl; [done|].
  destruct (p d); [done|]. intros H. by rewrite IH.
Qed.

Lemma delete_first_Some l d :
  find p l = Some d →
  ∃ l1 l2, l = l1 ++ d :: l2 ∧ find p l1 = None ∧ p d = true ∧
           delete_first p l = Some (l1 ++ l2).
Proof.
  induction l as [|x l IH]; simpl; [done|].
  destruct (p x) eqn:Px.
  - intros [= ->]. by exists [], l.
  - intros H. destruct (IH H) as (l1 & l2 & -> & H1 & H2 & H3).
    exists (x :: l1), l2. simpl. by rewrite Px, H3.
Qed.

Lemma find_app_None l1 l2 :
  find p l1 = None → find p (l1 ++ l2) = find p l2.
Proof.
  induction l1 as [|x l1 IH]; simpl; [done|].
  destruct (p x); [done|]. apply IH.
Qed.

Lemma update_first_app_None f l1 l2 :
  find p l1 = None →
  update_first p f (l1 ++ l2) = (l1 ++.) <$> update_first p f l2.
Proof.
  induction l1 as [|x l1 IH]; simpl.
  - intros _. by destruct (update_first p f l2).
  - destruct (p x); [done|]. intros H. rewrite IH by done.
    by destruct (update_first p f l2).
Qed.

Lemma find_None_Forall l :
  find p l = None ↔ Forall (λ d, p d = false) l.
Proof.
  induction l as [|x l IH]; simpl.
  - split; [constructor | done].
  - destruct (p x) eqn:Px.
    + split; [done|]. intros H. inversion H; congruence.
    + rewrite IH. split; [by constructor | by inversion 1].
Qed.
End first_match.

Lemma find_one_eq c k v w :
  find_one c k v w = (Ok (find (matches k v) (sel c (db w))), w).
Proof. reflexivity. Qed.

(** ** Encoding *)

Lemma int64_spec z : int64 z = true ↔ -9223372036854775808 ≤ z < 9223372036854775808.
Proof. unfold int64. rewrite andb_true_iff, Z.leb_le, Z.ltb_lt. done. Qed.

Lemma bson_ok_spec d : bson_ok d = true ↔ map_Forall (λ _ v, encodable v = true) d.
Proof. unfold bson_ok. apply bool_decide_eq_true. Qed.

Lemma bson_ok_false d : bson_ok d = false ↔ ¬ map_Forall (λ _ v, encodable v = true) d.
Proof. unfold bson_ok. apply bool_decide_eq_false. Qed.

Lemma bson_ok_empty : bson_ok ∅ = true.
Proof. apply bson_ok_spec, map_Forall_empty. Qed.

Lemma bson_ok_insert k v d :
  encodable v = true → bson_ok d = true → bson_ok (<[k := v]> d) = true.
Proof. rewrite !bson_ok_spec. intros Hv Hd. by apply map_Forall_insert_2. Qed.

Lemma bson_ok_singleton k v : encodable v = true → bson_ok {[k := v]} = true.
Proof. intros Hv. apply bson_ok_spec. by apply map_Forall_singleton. Qed.

Lemma bson_ok_lookup d k v : bson_ok d = true → d !! k = Some v → encodable v = true.
Proof. rewrite bson_ok_spec. intros Hd Hk. apply (Hd k v Hk). Qed.

Lemma bson_ok_union d1 d2 :
  bson_ok d1 = true → bson_ok d2 = true → bson_ok (d1 ∪ d2) = true.
Proof.
  rewrite !bson_ok_spec. intros H1 H2 k v [Hk | [_ Hk]]%lookup_union_Some_raw.
  - by apply (H1 k).
  - by apply (H2 k).
Qed.

Lemma bson_ok_not_none_items d : bson_ok d = true → bson_ok (not_none_items d) = true.
Proof.
  rewrite !bson_ok_spec. intros H k v [Hk _]%map_lookup_filter_Some. by apply (H k).
Qed.

Lemma encodable_to_bson v : encodable (to_bson v) = encodable v.
Proof. by destruct v. Qed.

Lemma bson_ok_encode d : bson_ok d = true → bson_ok (encode d) = true.
Proof.
  rewrite !bson_ok_spec. unfold encode. intros H k v.
  rewrite lookup_fmap. destruct (d !! k) as [x|] eqn:E; [|done].
  intros [= <-]. rewrite encodable_to_bson. by apply (H k).
Qed.

Lemma ms_ms t : ms (ms t) = ms t.
Proof. unfold ms. rewrite (Z.mul_comm 1000 (t `div` 1000)), Z.div_mul by done. lia. Qed.

Lemma to_bson_idemp v : to_bson (to_bson v) = to_bson v.
Proof. destruct v; simpl; try done. by rewrite ms_ms. Qed.

Lemma lookup_encode d k : encode d !! k = to_bson <$> d !! k.
Proof. apply lookup_fmap. Qed.

Lemma encode_empty : encode ∅ = ∅.
Proof. apply fmap_empty. Qed.

Lemma encode_insert k v d : encode (<[k := v]> d) = <[k := to_bson v]> (encode d).
Proof. apply fmap_insert. Qed.

Lemma encode_singleton k v : encode {[k := v]} = {[k := to_bson v]}.
Proof. apply map_fmap_singleton. Qed.

Lemma encode_idemp d : encode (encode d) = encode d.
Proof.
  apply map_eq. intros k. rewrite !lookup_encode.
  destruct (d !! k); simpl; [|done]. by rewrite to_bson_idemp.
Qed.

(** The literal documents of the handlers are encoded field by field. *)
Ltac encode_fields :=
  rewrite ?encode_insert, ?encode_singleton, ?encode_empty; simpl to_bson.

Ltac fields_fit :=
  repeat (apply bson_ok_insert; [try done|]); try (apply bson_ok_singleton; try done);
  try apply bson_ok_empty.

Lemma insert_one_eq c d w :
  bson_ok d = true →
  insert_one c d w = (Ok tt, set_db (upd c (sel c (db w) ++ [encode d]) (db w)) w).
Proof. intros H. unfold insert_one. by rewrite H. Qed.

Lemma insert_one_raises c d w :
  bson_ok d = false → insert_one c d w = (Raise OverflowError, w).
Proof. intros H. unfold insert_one. by rewrite H. Qed.

Lemma update_one_eq c k v data upsert w :
  encodable v = true → bson_ok data = true →
  update_one c k v data upsert w
  = (Ok tt, set_db (upd c (updated k (to_bson v) (encode data) upsert (sel c (db w))) (db w)) w).
Proof.
  intros Hv Hd.
  unfold update_one, updated, mbind, M_bind, get_coll. rewrite Hv, Hd. simpl.
  destruct (update_first _ _ _); [done|].
  destruct upsert; [done|].
  by rewrite ret_eq, upd_sel, set_db_id.
Qed.

Lemma update_one_raises c k v data upsert w :
  encodable v && bson_ok data = false →
  update_one c k v data upsert w = (Raise OverflowError, w).
Proof. intros H. unfold update_one. by rewrite H. Qed.

Lemma find_updated k v data upsert l :
  data !! k = None →
  find (matches k v) (updated k v data upsert l)
  = match find (matches k v) l with
    | Some d => Some (data ∪ d)
    | None => if upsert then Some (data ∪ {[k := v]}) else None
    end.
Proof.
  intros Hk. unfold updated.
  destruct (find (matches k v) l) as [d|] eqn:F.
  - destruct (update_first_Some _ (λ d, data ∪ d) _ _ F) as (l1 & l2 & -> & H1 & H2 & ->).
    rewrite find_app_None by done. simpl. by rewrite matches_union, H2.
  - rewrite update_first_None by done. destruct upsert; [|done].
    rewrite find_app_None by done. simpl.
    rewrite matches_union by done.
    by rewrite matches_self by apply lookup_singleton_eq.
Qed.

(** ** Model construction *)

Lemma validate_field_pure f kwargs w :
  field_ok f kwargs = true →
  validate_field f kwargs w = (Ok (field_value f kwargs), w).
Proof.
  unfold field_ok, validate_field, field_value, default_value.
  destruct (kwargs !! f_name f) as [v|].
  - by intros ->.
  - by destruct (f_default f).
Qed.

Lemma construct_pure m kwargs w :
  forallb (λ f, field_ok f kwargs) m = true →
  construct m kwargs w = (Ok (project m kwargs), w).
Proof.
  induction m as [|f m IH]; simpl; [done|].
  intros [Hf Hm]%andb_true_iff.
  erewrite bind_ok by by apply validate_field_pure.
  erewrite bind_ok by by apply IH.
  done.
Qed.

(** ** The current number *)

Lemma truthy_found k s (l : list doc) d :
  find (matches k (VStr s)) l = Some d → truthy (Some d) = true.
Proof.
  intros H%find_some. destruct H as [_ H%matches_str].
  unfold truthy. case_bool_decide; [|done]. subst. by rewrite lookup_empty in H.
Qed.

Lemma find_matches_id k s (l : list doc) d :
  find (matches k (VStr s)) l = Some d → d !! k = Some (VStr s).
Proof. intros H%find_some. by destruct H as [_ H%matches_str]. Qed.

Lemma construct_CurrentNumber (kw : doc) s n t w :
  kw !! "id" = Some (VStr s) →
  kw !! "number" = Some (VInt n) →
  kw !! "updated_at" = Some (VDate t) →
  construct CurrentNumber kw w
  = (Ok {[ "id" := VStr s; "number" := VInt n; "updated_at" := VDate t ]}, w).
Proof.
  intros H1 H2 H3. rewrite construct_pure.
  - simpl. unfold field_value. simpl. by rewrite H1, H2, H3.
  - simpl. unfold field_ok. simpl. by rewrite H1, H2, H3.
Qed.

Lemma utcnow_eq w : utcnow w = (Ok (VDate (clock w (ticks w))), tick w).
Proof. reflexivity. Qed.

Lemma base_doc_id c key d :
  base_doc key (singleton_doc c key d) !! "id" = Some (VStr key).
Proof.
  unfold singleton_doc. destruct (find _ _) as [cur|] eqn:F; simpl.
  - apply (find_matches_id _ _ _ _ F).
  - apply lookup_singleton_eq.
Qed.

Lemma encode_number_data n t : encode (number_data n t) = number_data n (ms t).
Proof. by encode_fields. Qed.

Lemma encode_number_doc n t : encode (number_doc n t) = number_doc n (ms t).
Proof. by encode_fields. Qed.

Lemma bson_ok_number_data n t : bson_ok (number_data n t) = int64 n.
Proof.
  destruct (int64 n) eqn:E.
  - by fields_fit.
  - apply bson_ok_false. intros H. specialize (H "number" (VInt n) eq_refl).
    simpl in H. congruence.
Qed.

(** The number and the timestamp are written as the store keeps them:
    the timestamp to the millisecond. *)
Lemma write_number_eq (w : World) (n t : Z) (upsert : bool) :
  int64 n = true →
  upsert = true ∨ is_Some (singleton_doc current_number "current_number" (db w)) →
  let l' := updated "id" (VStr "current_number") (number_data n (ms t)) upsert
              (sel current_number (db w)) in
  write_number n t upsert w
  = (Ok (number_doc n (ms t)), set_db (upd current_number l' (db w)) w)
  ∧ singleton_doc current_number "current_number" (upd current_number l' (db w))
    = Some (number_data n (ms t)
              ∪ base_doc "current_number" (singleton_doc current_number "current_number" (db w))).
Proof.
  intros Hn Hex l'.
  assert (Hf : singleton_doc current_number "current_number" (upd current_number l' (db w))
    = Some (number_data n (ms t)
              ∪ base_doc "current_number" (singleton_doc current_number "current_number" (db w)))).
  { unfold singleton_doc, l' in *. rewrite sel_upd_eq, find_updated by done.
    destruct (find _ _) as [cur|]; [done|].
    destruct Hex as [-> | [? ?]]; done. }
  split; [|done].
  unfold write_number.
  erewrite bind_ok; [|apply update_one_eq; [done | by rewrite bson_ok_number_data]].
  rewrite encode_number_data. change (to_bson (VStr "current_number")) with (VStr "current_number").
  erewrite bind_ok by apply find_one_eq.
  rewrite db_set_db. unfold singleton_doc in Hf. fold l'. rewrite Hf. simpl.
  erewrite bind_ok by apply ret_eq.
  apply construct_CurrentNumber.
  - rewrite lookup_union_r by done.
    apply (base_doc_id current_number "current_number" (db w)).
  - by apply lookup_union_Some_l.
  - by apply lookup_union_Some_l.
Qed.

(** A number outside the signed 64-bit range is refused and nothing is written. *)
Lemma write_number_raises (w : World) (n t : Z) (upsert : bool) :
  int64 n = false → write_number n t upsert w = (Raise OverflowError, w).
Proof.
  intros Hn. unfold write_number.
  erewrite bind_raise; [done|].
  apply update_one_raises. by rewrite bson_ok_number_data, Hn.
Qed.

Lemma increment_number_step : increment_number = step_number py_add1.
Proof. reflexivity. Qed.

Lemma decrement_number_step w : decrement_number w = step_number decrement_op w.
Proof.
  unfold decrement_number, step_number, decrement_op, mbind, M_bind.
  destruct (find_one _ _ _ w) as [[found|e] w1]; [|done].
  destruct (_ w1) as [[current|e] w2]; [|done].
  destruct (py_sub1 _ w2) as [[less|e] w3]; [|done].
  done.
Qed.

Lemma step_number_found (op : value → M value) (w : World) (cur : doc) (n : Z) :
  singleton_doc current_number "current_number" (db w) = Some cur →
  op (dict_get cur "number" (VInt 1)) w = (Ok (VInt n), w) →
  int64 n = true →
  let t := ms (clock w (ticks w)) in
  let l' := updated "id" (VStr "current_number") (number_data n t) false
              (sel current_number (db w)) in
  step_number op w = (Ok (number_doc n t), set_db (upd current_number l' (db w)) (tick w))
  ∧ singleton_doc current_number "current_number" (upd current_number l' (db w))
    = Some (number_data n t ∪ cur).
Proof.
  intros Hcur Hop Hn t l'.
  destruct (write_number_eq (tick w) n (clock w (ticks w)) false Hn) as [Hrun Hst].
  { right. simpl. by rewrite Hcur. }
  simpl db in *. rewrite Hcur in Hst. split; [|done].
  unfold step_number.
  erewrite bind_ok by apply find_one_eq.
  unfold singleton_doc in Hcur. rewrite Hcur.
  rewrite (truthy_found _ _ _ _ Hcur). simpl.
  erewrite bind_ok by apply ret_eq.
  erewrite bind_ok by apply Hop.
  erewrite bind_ok by apply utcnow_eq.
  apply Hrun.
Qed.

(** The step that would leave the signed 64-bit range is refused: the
    handler raises after reading the clock, and the store is as before. *)
Lemma step_number_refused (op : value → M value) (w : World) (cur : doc) (n : Z) :
  singleton_doc current_number "current_number" (db w) = Some cur →
  op (dict_get cur "number" (VInt 1)) w = (Ok (VInt n), w) →
  int64 n = false →
  step_number op w = (Raise OverflowError, tick w).
Proof.
  intros Hcur Hop Hn.
  unfold step_number.
  erewrite bind_ok by apply find_one_eq.
  unfold singleton_doc in Hcur. rewrite Hcur.
  rewrite (truthy_found _ _ _ _ Hcur). simpl.
  erewrite bind_ok by apply ret_eq.
  erewrite bind_ok by apply Hop.
  erewrite bind_ok by apply utcnow_eq.
  by apply write_number_raises.
Qed.

Lemma construct_CurrentNumber_default w :
  construct CurrentNumber ∅ w = (Ok (number_doc 1 (clock w (ticks w))), tick w).
Proof. reflexivity. Qed.

Lemma step_number_absent (op : value → M value) (w : World) (n : Z) :
  singleton_doc current_number "current_number" (db w) = None →
  (∀ w', op (VInt 1) w' = (Ok (VInt n), w')) →
  int64 n = true →
  let t0 := ms (clock w (ticks w)) in
  let t := ms (clock w (S (ticks w))) in
  let l' := sel current_number (db w) ++ [number_data n t ∪ number_doc 1 t0] in
  step_number op w
  = (Ok (number_doc n t), set_db (upd current_number l' (db w)) (tick (tick w)))
  ∧ singleton_doc current_number "current_number" (upd current_number l' (db w))
    = Some (number_data n t ∪ number_doc 1 t0).
Proof.
  intros Hcur Hop Hn t0 t l'.
  set (w1 := set_db (upd current_number (sel current_number (db w) ++ [number_doc 1 t0]) (db w))
               (tick w)).
  assert (Hs1 : singleton_doc current_number "current_number" (db w1) = Some (number_doc 1 t0)).
  { unfold singleton_doc in *. simpl. rewrite sel_upd_eq, find_app_None by done. done. }
  assert (Hl : updated "id" (VStr "current_number") (number_data n t) false
                 (sel current_number (db w1)) = l').
  { unfold updated, l'. simpl. rewrite sel_upd_eq.
    unfold singleton_doc in Hcur. by rewrite update_first_app_None. }
  destruct (write_number_eq (tick w1) n (clock w (S (ticks w))) false Hn) as [Hrun Hst].
  { right. change (db (tick w1)) with (db w1). by rewrite Hs1. }
  fold t in Hrun, Hst.
  change (db (tick w1)) with (db w1) in *. rewrite Hl in *.
  change (db w1) with (upd current_number (sel current_number (db w) ++ [number_doc 1 t0]) (db w))
    in Hrun, Hst.
  rewrite upd_upd in Hrun, Hst.
  split.
  - unfold step_number.
    erewrite bind_ok by apply find_one_eq.
    unfold singleton_doc in Hcur. rewrite Hcur. simpl.
    erewrite (bind_ok _ _ w w1 (number_doc 1 (clock w (ticks w)))).
    2:{ erewrite bind_ok by apply construct_CurrentNumber_default.
        erewrite bind_ok; [|apply insert_one_eq; by fields_fit].
        by rewrite encode_number_doc. }
    change (dict_get (number_doc 1 (clock w (ticks w))) "number" (VInt 1)) with (VInt 1).
    erewrite bind_ok by apply Hop.
    erewrite bind_ok by apply utcnow_eq.
    apply Hrun.
  - unfold singleton_doc, l'. rewrite sel_upd_eq.
    unfold singleton_doc in Hcur. by rewrite find_app_None.
Qed.

Lemma py_add1_int z w : py_add1 (VInt z) w = (Ok (VInt (z + 1)), w).
Proof. reflexivity. Qed.

Lemma decrement_op_int z w : decrement_op (VInt z) w = (Ok (VInt (Z.max 1 (z - 1))), w).
Proof. reflexivity. Qed.

Lemma stored_number_found d (n : Z) :
  stored_number d = Some (VInt n) →
  ∃ cur, singleton_doc current_number "current_number" d = Some cur
         ∧ dict_get cur "number" (VInt 1) = VInt n.
Proof.
  unfold stored_number. destruct (singleton_doc _ _ _) as [cur|]; [|done].
  simpl. intros H. exists cur. unfold dict_get. by rewrite H.
Qed.

Lemma stored_number_updated (d : DB) l (cur : doc) (n t : Z) :
  singleton_doc current_number "current_number" (upd current_number l d)
    = Some (number_data n t ∪ cur) →
  stored_number (upd current_number l d) = Some (VInt n).
Proof.
  unfold stored_number. intros ->. simpl. by apply lookup_union_Some_l.
Qed.

Lemma int64_decrement N : int64 N = true → int64 (Z.max 1 (N - 1)) = true.
Proof. rewrite !int64_spec. lia. Qed.

(** C1. For every stored number N (an integer the store holds fits in 64
    bits), [decrement_number] succeeds, returns a CurrentNumber whose
    number is [max(1, N - 1)] and leaves exactly that number in the stored
    document; from 1 the number stays 1, and the result is never below 1. *)
Theorem decrement_number_floor (w : World) (N : Z) :
  stored_number (db w) = Some (VInt N) →
  int64 N = true →
  ∃ resp w',
    decrement_number w = (Ok resp, w') ∧
    resp !! "number" = Some (VInt (Z.max 1 (N - 1))) ∧
    stored_number (db w') = Some (VInt (Z.max 1 (N - 1))) ∧
    (N = 1 → Z.max 1 (N - 1) = 1) ∧
    1 ≤ Z.max 1 (N - 1).
Proof.
  intros (cur & Hcur & Hn)%stored_number_found HN.
  destruct (step_number_found decrement_op w cur (Z.max 1 (N - 1)) Hcur) as [Hrun Hst].
  { rewrite Hn. apply decrement_op_int. }
  { by apply int64_decrement. }
  eexists _, _. split; [|split; [|split; [|split]]].
  - rewrite decrement_number_step. apply Hrun.
  - done.
  - rewrite db_set_db. by eapply stored_number_updated.
  - lia.
  - lia.
Qed.

Lemma decrement_number_floor_witness :
  ∃ resp w',
    decrement_number (world_with_number 5) = (Ok resp, w') ∧
    resp !! "number" = Some (VInt 4) ∧
    stored_number (db w') = Some (VInt 4) ∧
    ((5:Z) = 1 → Z.max 1 (5 - 1) = 1) ∧
    1 ≤ Z.max 1 (5 - 1).
Proof.
  apply (decrement_number_floor (world_with_number 5) 5).
  - vm_compute. reflexivity.
  - reflexivity.
Defined.

(** C2, as amended.  From a stored number N with 1 ≤ N < 2^63 - 1, so
    that N + 1 can still be stored, [increment_number] followed by
    [decrement_number] succeeds twice and brings the number, in the
    response and in the store, back to N. *)
Theorem increment_then_decrement (w : World) (N : Z) :
  1 ≤ N →
  N < max_int64 →
  stored_number (db w) = Some (VInt N) →
  ∃ r1 w1 r2 w2,
    increment_number w = (Ok r1, w1) ∧
    decrement_number w1 = (Ok r2, w2) ∧
    r1 !! "number" = Some (VInt (N + 1)) ∧
    r2 !! "number" = Some (VInt N) ∧
    stored_number (db w2) = Some (VInt N).
Proof.
  intros HN Hmax (cur & Hcur & Hn)%stored_number_found. unfold max_int64 in Hmax.
  destruct (step_number_found py_add1 w cur (N + 1) Hcur) as [Hrun1 Hst1].
  { rewrite Hn. apply py_add1_int. }
  { apply int64_spec. lia. }
  set (w1 := set_db _ (tick w)) in Hrun1.
  destruct (step_number_found decrement_op w1 _ N Hst1) as [Hrun2 Hst2].
  { unfold dict_get. erewrite lookup_union_Some_l by done. simpl.
    rewrite decrement_op_int. do 3 f_equal. lia. }
  { apply int64_spec. lia. }
  exists (number_doc (N + 1) (ms (clock w (ticks w)))), w1.
  eexists _, _. split; [|split; [|split; [|split]]].
  - rewrite increment_number_step. apply Hrun1.
  - rewrite decrement_number_step. apply Hrun2.
  - done.
  - done.
  - rewrite db_set_db. by eapply stored_number_updated.
Qed.

Lemma increment_then_decrement_witness :
  ∃ r1 w1 r2 w2,
    increment_number (world_with_number 5) = (Ok r1, w1) ∧
    decrement_number w1 = (Ok r2, w2) ∧
    r1 !! "number" = Some (VInt (5 + 1)) ∧
    r2 !! "number" = Some (VInt 5) ∧
    stored_number (db w2) = Some (VInt 5).
Proof.
  apply (increment_then_decrement (world_with_number 5) 5).
  - lia.
  - reflexivity.
  - vm_compute. reflexivity.
Defined.

(** C2, as the specification words it, fails at the largest integer the
    store holds: the increment would write 2^63, the driver refuses it
    with [OverflowError], and the number stays where it was. *)
Lemma increment_at_max_raises :
  ¬ increment_decrement_returns max_int64 (world_with_number max_int64).
Proof.
  intros H. destruct H as (r1 & w1 & r2 & w2 & Hinc & _); [done | reflexivity |].
  rewrite increment_number_step in Hinc.
  erewrite (step_number_refused py_add1 _ (number_doc max_int64 0) (max_int64 + 1)) in Hinc;
    [discriminate | reflexivity | reflexivity | reflexivity].
Qed.

Lemma reset_number_eq w :
  reset_number w = write_number 1 (clock w (ticks w)) true (tick w).
Proof. reflexivity. Qed.

Lemma update_number_eq (n : Z) w :
  update_number {[ "number" := VInt n ]} w = write_number n (clock w (ticks w)) true (tick w).
Proof. reflexivity. Qed.

Lemma updated_absent k v data l :
  find (matches k v) l = None →
  updated k v data true l = l ++ [data ∪ {[k := v]}].
Proof. intros H. unfold updated. by rewrite update_first_None. Qed.

Lemma updated_found k v data upsert l d :
  find (matches k v) l = Some d →
  ∃ l1 l2, l = l1 ++ d :: l2 ∧ find (matches k v) l1 = None ∧
           updated k v data upsert l = l1 ++ (data ∪ d) :: l2.
Proof.
  intros H. unfold updated.
  destruct (update_first_Some _ (λ d, data ∪ d) _ _ H) as (l1 & l2 & -> & H1 & H2 & ->).
  by exists l1, l2.
Qed.

Lemma number_upsert_doc n t :
  number_data n t ∪ {[ "id" := VStr "current_number" ]} = number_doc n t.
Proof. reflexivity. Qed.

(** C3. Whatever the CurrentNumber collection holds, [reset_number]
    succeeds, returns number 1 and leaves number 1 in the stored document,
    touching no other collection; when no document exists it appends the
    new one, stamped to the millisecond.  [update_number] before it stores
    any integer the store can hold as given, also zero or negative, and the
    reset that follows still yields 1. *)
Theorem reset_number_always_one (w : World) (n : Z) :
  (∃ resp w',
    reset_number w = (Ok resp, w') ∧
    resp !! "number" = Some (VInt 1) ∧
    stored_number (db w') = Some (VInt 1) ∧
    (∀ c, c ≠ current_number → sel c (db w') = sel c (db w)) ∧
    match singleton_doc current_number "current_number" (db w) with
    | None => sel current_number (db w')
              = sel current_number (db w) ++ [number_doc 1 (ms (clock w (ticks w)))]
    | Some _ => length (sel current_number (db w')) = length (sel current_number (db w))
    end) ∧
  (int64 n = true →
   ∃ r1 w1 r2 w2,
    update_number {[ "number" := VInt n ]} w = (Ok r1, w1) ∧
    r1 !! "number" = Some (VInt n) ∧
    stored_number (db w1) = Some (VInt n) ∧
    reset_number w1 = (Ok r2, w2) ∧
    r2 !! "number" = Some (VInt 1) ∧
    stored_number (db w2) = Some (VInt 1)).
Proof.
  split.
  - destruct (write_number_eq (tick w) 1 (clock w (ticks w)) true) as [Hrun Hst];
      [done | by left |].
    eexists _, _. split; [|split; [|split; [|split]]].
    + rewrite reset_number_eq. apply Hrun.
    + done.
    + rewrite db_set_db. by eapply stored_number_updated.
    + intros c Hc. rewrite db_set_db. by apply sel_upd_ne.
    + rewrite db_set_db, sel_upd_eq. change (db (tick w)) with (db w).
      unfold singleton_doc.
      destruct (find _ (sel current_number (db w))) as [cur|] eqn:F.
      * destruct (updated_found _ _ (number_data 1 (ms (clock w (ticks w)))) true _ _ F)
          as (l1 & l2 & E & _ & ->).
        rewrite E, !length_app. done.
      * by rewrite updated_absent.
  - intros Hn.
    destruct (write_number_eq (tick w) n (clock w (ticks w)) true) as [Hrun1 Hst1];
      [done | by left |].
    set (w1 := set_db _ (tick w)) in Hrun1.
    destruct (write_number_eq (tick w1) 1 (clock w1 (ticks w1)) true) as [Hrun2 Hst2];
      [done | by left |].
    exists (number_doc n (ms (clock w (ticks w)))), w1. eexists _, _.
    split; [|split; [|split; [|split; [|split]]]].
    + rewrite update_number_eq. apply Hrun1.
    + done.
    + unfold w1. rewrite db_set_db. by eapply stored_number_updated.
    + rewrite reset_number_eq. apply Hrun2.
    + done.
    + rewrite db_set_db. by eapply stored_number_updated.
Qed.

Lemma reset_number_always_one_witness :
  ∃ r1 w1 r2 w2,
    update_number {[ "number" := VInt (-3) ]} (world_with_number 5) = (Ok r1, w1) ∧
    r1 !! "number" = Some (VInt (-3)) ∧
    stored_number (db w1) = Some (VInt (-3)) ∧
    reset_number w1 = (Ok r2, w2) ∧
    r2 !! "number" = Some (VInt 1) ∧
    stored_number (db w2) = Some (VInt 1).
Proof.
  exact (proj2 (reset_number_always_one (world_with_number 5) (-3)) eq_refl).
Defined.

(** ** Deleting a slide *)

Lemma delete_one_eq c k v w :
  delete_one c k v w
  = match delete_first (matches k v) (sel c (db w)) with
    | Some l' => (Ok 1, set_db (upd c l' (db w)) w)
    | None => (Ok 0, w)
    end.
Proof.
  unfold delete_one, mbind, M_bind, get_coll.
  by destruct (delete_first _ _).
Qed.

Lemma find_None_has_id slide_id (l : list doc) :
  Forall (λ d, ¬ has_id slide_id d) l → find (matches "id" (VStr slide_id)) l = None.
Proof.
  intros H. apply find_None_Forall. eapply Forall_impl; [exact H|].
  intros d Hd. simpl in Hd. destruct (matches _ _ d) eqn:E; [|done].
  by apply matches_str in E.
Qed.

(** C6. [delete_slide] on an id that no stored slide carries raises the
    404 error and leaves the world as it was; on an id that some slide
    carries it removes the first such document and nothing else, in no
    other collection either, and returns the success message. *)
Theorem delete_slide_spec (w : World) (slide_id : string) :
  (Forall (λ d, ¬ has_id slide_id d) (sel slide_images (db w)) →
     delete_slide slide_id w = (Raise (HTTPException 404 "Slide not found"), w)) ∧
  (∀ l1 d l2,
     sel slide_images (db w) = l1 ++ d :: l2 →
     Forall (λ d, ¬ has_id slide_id d) l1 →
     has_id slide_id d →
     ∃ w', delete_slide slide_id w
           = (Ok {[ "message" := VStr "Slide deleted successfully" ]}, w') ∧
           sel slide_images (db w') = l1 ++ l2 ∧
           ∀ c, c ≠ slide_images → sel c (db w') = sel c (db w)).
Proof.
  split.
  - intros H%find_None_has_id. unfold delete_slide.
    erewrite bind_ok; [|rewrite delete_one_eq, delete_first_None by done; reflexivity].
    done.
  - intros l1 d l2 E H1%find_None_has_id Hd.
    assert (F : find (matches "id" (VStr slide_id)) (sel slide_images (db w)) = Some d).
    { rewrite E, find_app_None by done. simpl. by rewrite matches_self. }
    destruct (delete_first_Some _ _ _ F) as (l1' & l2' & E' & H1' & H2' & Hdel).
    assert (l1' = l1 ∧ l2' = l2) as [-> ->].
    { rewrite E in E'. clear -E' H1 H1' H2' Hd.
      apply matches_self in Hd.
      revert l1' E' H1'. induction l1 as [|x l1 IH]; intros [|y l1'] E' H1'; simpl in *.
      - by inversion E'.
      - inversion E'; subst. by rewrite Hd in H1'.
      - inversion E'; subst. by rewrite H2' in H1.
      - inversion E'; subst. destruct (matches _ _ y); [done|].
        destruct (IH H1 l1') as [-> ->]; done. }
    eexists. split; [|split].
    + unfold delete_slide.
      erewrite bind_ok; [|rewrite delete_one_eq, Hdel; reflexivity]. done.
    + by rewrite db_set_db, sel_upd_eq.
    + intros c Hc. rewrite db_set_db. by apply sel_upd_ne.
Qed.

Lemma delete_slide_spec_witness :
  delete_slide "c" (world_of two_slides)
    = (Raise (HTTPException 404 "Slide not found"), world_of two_slides) ∧
  ∃ w', delete_slide "b" (world_of two_slides)
        = (Ok {[ "message" := VStr "Slide deleted successfully" ]}, w') ∧
        sel slide_images (db w')
        = [ {[ "id" := VStr "a"; "image_base64" := VStr "x"; "order" := VInt 2; "created_at" := VDate 0 ]} ] ++ [] ∧
        ∀ c, c ≠ slide_images → sel c (db w') = sel c (db (world_of two_slides)).
Proof.
  split.
  - apply (delete_slide_spec (world_of two_slides) "c").
    repeat constructor; vm_compute; discriminate.
  - apply (proj2 (delete_slide_spec (world_of two_slides) "b")
             [ {[ "id" := VStr "a"; "image_base64" := VStr "x"; "order" := VInt 2; "created_at" := VDate 0 ]} ]
             {[ "id" := VStr "b"; "image_base64" := VStr "y"; "order" := VInt 1; "created_at" := VDate 1000 ]}
             []).
    + reflexivity.
    + repeat constructor; vm_compute; discriminate.
    + vm_compute. reflexivity.
Defined.

(** ** The news feed *)

Lemma news_item_total entry w : ∃ r, news_item entry w = (r, w).
Proof.
  unfold news_item, getattr, mbind, M_bind.
  destruct (entry !! "title"); [|by eexists].
  destruct (entry !! "link"); by eexists.
Qed.

Lemma news_item_malformed entry w :
  malformed entry → ∃ e, news_item entry w = (Raise e, w).
Proof.
  unfold news_item, getattr, mbind, M_bind. intros [H|H].
  - rewrite H. by eexists.
  - destruct (entry !! "title"); rewrite ?H; by eexists.
Qed.

Lemma mapM_news_total l w : ∃ r, mapM news_item l w = (r, w).
Proof.
  induction l as [|x l [r IH]]; simpl; [by eexists|].
  unfold mbind, M_bind. destruct (news_item_total x w) as [[y|e] ->]; [|by eexists].
  fold (@mapM doc doc). rewrite IH. destruct r; by eexists.
Qed.

Lemma mapM_news_malformed l w :
  Exists malformed l → ∃ e, mapM news_item l w = (Raise e, w).
Proof.
  induction 1 as [x l Hx | x l _ [e IH]]; simpl; unfold mbind, M_bind.
  - destruct (news_item_malformed x w Hx) as [e ->]. by eexists.
  - destruct (news_item_total x w) as [[y|e'] ->]; [|by eexists].
    fold (@mapM doc doc). rewrite IH. by eexists.
Qed.

Lemma get_news_feed_eq w :
  get_news_feed w
  = match feedparser_parse w (rss_url_of (db w)) with
    | Ok entries =>
        match mapM news_item (take 20 entries) w with
        | (Ok items, w') => (Ok (mkNews items None), w')
        | (Raise e, w') => (Ok (mkNews [] (Some (str_exn e))), w')
        end
    | Raise e => (Ok (mkNews [] (Some (str_exn e))), w)
    end.
Proof.
  unfold get_news_feed, try_except, rss_url_of, singleton_doc.
  erewrite bind_ok by apply find_one_eq.
  destruct (find _ _) as [config|] eqn:F.
  - rewrite (truthy_found _ _ _ _ F). simpl.
    unfold mbind, M_bind, parse.
    destruct (feedparser_parse w _); [|done].
    by destruct (mapM _ _ w) as [[]].
  - simpl. unfold mbind, M_bind, parse.
    destruct (feedparser_parse w _); [|done].
    by destruct (mapM _ _ w) as [[]].
Qed.

(** [get_news_feed] never raises: it always returns a body and leaves the
    world untouched.  When the call of the fetcher raises an exception, the
    body has an empty [news] list and carries the text of the exception in
    [error]; the same holds when one of the first twenty entries lacks its
    title or link. *)
Lemma get_news_feed_never_raises (w : World) :
  (∃ body, get_news_feed w = (Ok body, w)) ∧
  (∀ e, feedparser_parse w (rss_url_of (db w)) = Raise e →
        get_news_feed w = (Ok (mkNews [] (Some (str_exn e))), w)) ∧
  (∀ entries, feedparser_parse w (rss_url_of (db w)) = Ok entries →
        Exists malformed (take 20 entries) →
        ∃ msg, get_news_feed w = (Ok (mkNews [] (Some msg)), w)).
Proof.
  rewrite get_news_feed_eq. split; [|split].
  - destruct (feedparser_parse w _) as [entries|e]; [|by eexists].
    destruct (mapM_news_total (take 20 entries) w) as [[items|e] ->]; by eexists.
  - by intros e ->.
  - intros entries -> [e ->]%(mapM_news_malformed _ w). by eexists.
Qed.

(** C8. The configured feed cannot be read: the URL is unreachable, or
    what it serves is no feed.  The fetcher then hands back no entries and
    raises nothing, so the [except] branch that fills [error] is never
    entered: [get_news_feed] returns an empty [news] list and no [error]
    text, where the specification promises one. *)
Theorem get_news_feed_unread_feed_no_error (w : World) :
  feedparser_parse w (rss_url_of (db w)) = Ok [] →
  get_news_feed w = (Ok (mkNews [] None), w) ∧
  error (mkNews [] None) = None.
Proof. intros H. by rewrite get_news_feed_eq, H. Qed.

Lemma get_news_feed_unread_feed_no_error_witness :
  get_news_feed (world_with_feed []) = (Ok (mkNews [] None), world_with_feed []) ∧
  error (mkNews [] None) = None.
Proof. exact (get_news_feed_unread_feed_no_error (world_with_feed []) eq_refl). Defined.

(** ** Listing the slides *)

Lemma insert_by_perm key x l : insert_by key x l ≡ₚ x :: l.
Proof.
  induction l as [|y l IH]; simpl; [done|].
  destruct (bson_le _ _); [done|]. rewrite IH. apply Permutation_swap.
Qed.

Lemma sort_by_perm key l : sort_by key l ≡ₚ l.
Proof.
  induction l as [|x l IH]; simpl; [done|].
  rewrite insert_by_perm. by rewrite IH.
Qed.

Lemma bson_le_int (a b : Z) : bson_le (Some (VInt a)) (Some (VInt b)) = (a <=? b).
Proof.
  unfold bson_le, bson_compare. simpl.
  rewrite !Z.mul_1_r. unfold Z.leb. by destruct (a ?= b).
Qed.

Lemma bson_le_order (a b : doc) :
  has_int_order a → has_int_order b →
  bson_le (a !! "order") (b !! "order") = (order_of a <=? order_of b).
Proof.
  intros [x Hx] [y Hy]. unfold order_of. rewrite Hx, Hy. apply bson_le_int.
Qed.

Lemma insert_by_sorted x l :
  has_int_order x → Forall has_int_order l →
  StronglySorted by_order l → StronglySorted by_order (insert_by "order" x l).
Proof.
  intros Hx Hl Hs. induction Hs as [|y l Hs IH Hy]; simpl.
  - repeat constructor.
  - inversion Hl as [|? ? Hy' Hl']; subst.
    rewrite bson_le_order by done.
    destruct (order_of x <=? order_of y) eqn:E.
    + apply Z.leb_le in E. constructor; [by constructor|].
      constructor; [done|]. eapply Forall_impl; [exact Hy|].
      intros z Hz. unfold by_order in *. lia.
    + apply Z.leb_gt in E. constructor; [by apply IH|].
      rewrite insert_by_perm. constructor; [unfold by_order; lia | done].
Qed.

Lemma sort_by_sorted l :
  Forall has_int_order l → StronglySorted by_order (sort_by "order" l).
Proof.
  induction 1 as [|x l Hx Hl IH]; simpl; [constructor|].
  apply insert_by_sorted; [done | | done].
  by rewrite sort_by_perm.
Qed.

Lemma conforms_field_ok m d :
  conforms m d = true → forallb (λ f, field_ok f d) m = true.
Proof.
  unfold conforms. rewrite !forallb_forall. intros H f Hf.
  specialize (H f Hf). unfold field_ok. by destruct (d !! f_name f).
Qed.

Lemma mapM_construct m (l : list doc) w :
  Forall (λ d, conforms m d = true) l →
  mapM (construct m) l w = (Ok (project m <$> l), w).
Proof.
  induction 1 as [|d l Hd Hl IH]; simpl; [done|].
  erewrite bind_ok by by apply construct_pure, conforms_field_ok.
  erewrite bind_ok by apply IH. done.
Qed.

Lemma conforms_SlideImage_order d :
  conforms SlideImage d = true → has_int_order d.
Proof.
  unfold conforms. simpl. rewrite !andb_true_iff. intros (_ & _ & H & _).
  destruct (d !! "order") as [[]|] eqn:E; try done. by eexists.
Qed.

Lemma project_SlideImage_order d :
  order_of (project SlideImage d) = order_of d.
Proof.
  unfold order_of. simpl. rewrite lookup_insert_ne, lookup_insert_ne, lookup_insert_eq by done.
  unfold field_value. simpl. by destruct (d !! "order").
Qed.

Lemma project_sorted (l : list doc) :
  StronglySorted by_order l → StronglySorted by_order (project SlideImage <$> l).
Proof.
  apply StronglySorted_fmap. intros x y. unfold by_order.
  by rewrite !project_SlideImage_order.
Qed.

(** A conforming document contains what its model keeps of it. *)
Lemma project_subseteq m d : conforms m d = true → project m d ⊆ d.
Proof.
  unfold conforms. induction m as [|f m IH]; simpl.
  - intros _. apply map_empty_subseteq.
  - intros [Hf Hm]%andb_true_iff. apply insert_subseteq_l; [|by apply IH].
    unfold field_value. by destruct (d !! f_name f).
Qed.

Lemma get_slides_eq w :
  Forall (λ d, conforms SlideImage d = true) (sel slide_images (db w)) →
  get_slides w
  = (Ok (project SlideImage <$> take 100 (sort_by "order" (sel slide_images (db w)))), w).
Proof.
  intros H. unfold get_slides.
  erewrite bind_ok by reflexivity.
  apply mapM_construct. apply Forall_take. by rewrite sort_by_perm.
Qed.

(** C7, as amended.  In every state whose slide documents conform to
    SlideImage, as [create_slide] writes them, [get_slides] succeeds
    without changing the world.  It returns, for the first hundred stored
    documents in the stable ascending order of their [order] field, the
    SlideImage fields of each; the result is non-decreasing in [order] and
    has the length of the collection capped at one hundred. *)
Theorem get_slides_sorted (w : World) :
  Forall (λ d, conforms SlideImage d = true) (sel slide_images (db w)) →
  ∃ sorted resp,
    get_slides w = (Ok resp, w) ∧
    sorted ≡ₚ sel slide_images (db w) ∧
    StronglySorted by_order sorted ∧
    resp = project SlideImage <$> take 100 sorted ∧
    Forall (λ d, project SlideImage d ⊆ d) sorted ∧
    StronglySorted by_order resp ∧
    length resp = (100 `min` length (sel slide_images (db w)))%nat.
Proof.
  intros H. exists (sort_by "order" (sel slide_images (db w))). eexists.
  assert (Hs : StronglySorted by_order (sort_by "order" (sel slide_images (db w)))).
  { apply sort_by_sorted. eapply Forall_impl; [exact H|].
    intros d. apply conforms_SlideImage_order. }
  split; [by apply get_slides_eq|].
  split; [apply sort_by_perm|].
  split; [done|].
  split; [done|].
  split.
  { rewrite sort_by_perm. eapply Forall_impl; [exact H|]. intros d. apply project_subseteq. }
  split.
  - apply project_sorted.
    rewrite <- (take_drop 100 (sort_by _ _)) in Hs. by apply StronglySorted_app_1_l in Hs.
  - rewrite length_fmap, length_take. by rewrite sort_by_perm.
Qed.

Lemma get_slides_sorted_witness :
  ∃ sorted resp,
    get_slides (world_of two_slides) = (Ok resp, world_of two_slides) ∧
    sorted ≡ₚ sel slide_images (db (world_of two_slides)) ∧
    StronglySorted by_order sorted ∧
    resp = project SlideImage <$> take 100 sorted ∧
    Forall (λ d, project SlideImage d ⊆ d) sorted ∧
    StronglySorted by_order resp ∧
    length resp = (100 `min` length (sel slide_images (db (world_of two_slides))))%nat.
Proof.
  apply (get_slides_sorted (world_of two_slides)).
  repeat constructor.
Defined.

(** C7, as stated, fails: after a slide is created and then reordered
    with a null [order], [get_slides] raises instead of returning a list. *)
Lemma get_slides_not_every_state : ¬ lists_sorted_capped world_null_order.
Proof.
  intros (resp & w' & H & _).
  assert (E : (get_slides world_null_order).1 = Raise (ValidationError "order"))
    by (vm_compute; reflexivity).
  rewrite H in E. discriminate.
Qed.

(** ** Reading a singleton for the first time *)

Lemma GET_get_singleton r : GET r = get_singleton (collection r) (key r) (model_of r).
Proof. by destruct r. Qed.

Lemma get_singleton_absent c k m w d w' :
  singleton_doc c k (db w) = None →
  construct m ∅ w = (Ok d, w') →
  bson_ok d = true →
  get_singleton c k m w = (Ok d, set_db (upd c (sel c (db w') ++ [encode d]) (db w')) w').
Proof.
  intros H Hc Hd. unfold get_singleton.
  erewrite bind_ok by apply find_one_eq.
  unfold singleton_doc in H. rewrite H. simpl.
  erewrite bind_ok by apply Hc.
  erewrite bind_ok by by apply insert_one_eq. done.
Qed.

Lemma get_singleton_found c k m w cur :
  singleton_doc c k (db w) = Some cur →
  get_singleton c k m w = construct m cur w.
Proof.
  intros H. unfold get_singleton.
  erewrite bind_ok by apply find_one_eq.
  unfold singleton_doc in H. rewrite H.
  rewrite (truthy_found _ _ _ _ H). simpl.
  by erewrite bind_ok by apply ret_eq.
Qed.

Lemma construct_defaults r w :
  ∃ w', construct (model_of r) ∅ w = (Ok (defaults r w), w') ∧ db w' = db w.
Proof. destruct r; eexists; split; reflexivity. Qed.

Lemma defaults_id r w : defaults r w !! "id" = Some (VStr (key r)).
Proof. by destruct r. Qed.

Lemma defaults_conforms r w : conforms (model_of r) (defaults r w) = true.
Proof. by destruct r. Qed.

Lemma project_defaults r w : project (model_of r) (defaults r w) = defaults r w.
Proof. by destruct r. Qed.

Lemma defaults_fit r w : bson_ok (defaults r w) = true.
Proof. destruct r; by fields_fit. Qed.

(** The defaults as the store holds them: the timestamps to the millisecond. *)
Lemma encode_defaults r w :
  encode (defaults r w)
  = match r with
    | RAppConfig =>
        <["created_at" := VDate (ms (clock w (ticks w)))]>
          (<["updated_at" := VDate (ms (clock w (S (ticks w))))]> (defaults r w))
    | RCurrentNumber => <["updated_at" := VDate (ms (clock w (ticks w)))]> (defaults r w)
    | _ => defaults r w
    end.
Proof. destruct r; unfold defaults; by encode_fields. Qed.

Lemma encode_defaults_id r w : encode (defaults r w) !! "id" = Some (VStr (key r)).
Proof. by rewrite lookup_encode, defaults_id. Qed.

Lemma encode_defaults_conforms r w : conforms (model_of r) (encode (defaults r w)) = true.
Proof. rewrite encode_defaults. by destruct r. Qed.

Lemma project_encode_defaults r w :
  project (model_of r) (encode (defaults r w)) = encode (defaults r w).
Proof. rewrite encode_defaults. by destruct r. Qed.

Lemma GET_twice (r : resource) (w : World) :
  sel (collection r) (db w) = [] →
  ∃ w1,
    GET r w = (Ok (defaults r w), w1) ∧
    db w1 = upd (collection r) [encode (defaults r w)] (db w) ∧
    GET r w1 = (Ok (encode (defaults r w)), w1).
Proof.
  intros H. destruct (construct_defaults r w) as (w' & Hc & Hdb).
  eexists. split; [|split].
  - rewrite GET_get_singleton. eapply get_singleton_absent; [|exact Hc|apply defaults_fit].
    unfold singleton_doc. by rewrite H.
  - rewrite db_set_db, Hdb, H. done.
  - rewrite GET_get_singleton, (get_singleton_found _ _ _ _ (encode (defaults r w))).
    + rewrite construct_pure by apply conforms_field_ok, encode_defaults_conforms.
      by rewrite project_encode_defaults.
    + unfold singleton_doc. rewrite db_set_db, sel_upd_eq, Hdb, H. simpl.
      by rewrite matches_self by apply encode_defaults_id.
Qed.

(** C4, as amended.  For each of the five singleton resources, GET on a
    store whose collection for that resource is empty returns the
    documented defaults and leaves exactly one document in the collection,
    every other collection being untouched: the defaults as the store
    keeps them, which are the defaults with each timestamp cut to the
    millisecond.  A second GET returns that stored document and changes
    nothing; for the three resources without timestamps it is the very
    document the first GET returned. *)
Theorem get_on_empty_store (r : resource) (w : World) :
  sel (collection r) (db w) = [] →
  ∃ stored w1,
    GET r w = (Ok (defaults r w), w1) ∧
    db w1 = upd (collection r) [stored] (db w) ∧
    GET r w1 = (Ok stored, w1) ∧
    (∀ k, stored !! k = match defaults r w !! k with
                        | Some (VDate t) => Some (VDate (ms t))
                        | o => o
                        end) ∧
    (stamps r = false → stored = defaults r w).
Proof.
  intros H. destruct (GET_twice r w H) as (w1 & H1 & H2 & H3).
  exists (encode (defaults r w)), w1.
  split; [done|]. split; [done|]. split; [done|]. split.
  - intros k. rewrite lookup_encode. by destruct (defaults r w !! k) as [[]|].
  - intros Hr. rewrite encode_defaults. by destruct r.
Qed.

Lemma get_on_empty_store_witness :
  ∃ stored w1,
    GET RCurrentNumber world_fine_clock
      = (Ok (defaults RCurrentNumber world_fine_clock), w1) ∧
    db w1 = upd current_number [stored] empty_db ∧
    GET RCurrentNumber w1 = (Ok stored, w1) ∧
    (∀ k, stored !! k = match defaults RCurrentNumber world_fine_clock !! k with
                        | Some (VDate t) => Some (VDate (ms t))
                        | o => o
                        end) ∧
    (stamps RCurrentNumber = false → stored = defaults RCurrentNumber world_fine_clock).
Proof. exact (get_on_empty_store RCurrentNumber world_fine_clock eq_refl). Defined.

(** C4, as the specification words it, fails for CurrentNumber (and
    AppConfig): the first GET answers with the timestamp as the clock read
    it, the store keeps it to the millisecond, and the second GET answers
    with what the store kept. *)
Lemma second_get_differs : ¬ second_get_same RCurrentNumber world_fine_clock.
Proof.
  intros H. destruct H as (d & w1 & w2 & H1 & H2); [done|].
  destruct (GET_twice RCurrentNumber world_fine_clock eq_refl) as (w1' & G1 & _ & G2).
  rewrite G1 in H1.
  assert (d = defaults RCurrentNumber world_fine_clock ∧ w1 = w1') as [-> ->]
    by (split; congruence).
  rewrite G2 in H2.
  assert (E : encode (defaults RCurrentNumber world_fine_clock)
              = defaults RCurrentNumber world_fine_clock) by congruence.
  clear -E. apply (f_equal (λ x : doc, x !! "updated_at")) in E.
  rewrite lookup_encode in E. discriminate E.
Qed.

(** ** Partial updates *)

Lemma supplied_not_none_items (body : doc) k :
  not_none_items body !! k = supplied body k.
Proof.
  unfold not_none_items, supplied.
  destruct (body !! k) as [v|] eqn:E.
  - destruct (decide (v = VNone)) as [->|Hv].
    + apply map_lookup_filter_None. right. intros v' Hv'. simpl. naive_solver.
    + transitivity (Some v); [|by destruct v].
      apply map_lookup_filter_Some. done.
  - apply map_lookup_filter_None. by left.
Qed.

Lemma instance_of_conforms m d : instance_of m d = true → conforms m d = true.
Proof. by intros [? _]%andb_true_iff. Qed.

Lemma instance_of_dom m (d : doc) k :
  instance_of m d = true → is_Some (d !! k) → k ∈ f_name <$> m.
Proof.
  intros [_ H%bool_decide_eq_true]%andb_true_iff Hk.
  apply elem_of_dom in Hk. apply H in Hk. by apply elem_of_list_to_set in Hk.
Qed.

Lemma supplied_is_field m (body : doc) k v :
  instance_of m body = true → supplied body k = Some v → k ∈ f_name <$> m.
Proof.
  intros Hi Hs. apply (instance_of_dom m body k Hi).
  unfold supplied in Hs. by destruct (body !! k).
Qed.

(** ** Fields of a model *)

Lemma field_named_Some m k f :
  field_named m k = Some f → f ∈ m ∧ f_name f = k.
Proof.
  intros [Hin H]%find_some. apply bool_decide_eq_true in H.
  split; [by apply list_elem_of_In | done].
Qed.

Lemma field_named_None m k : field_named m k = None → k ∉ f_name <$> m.
Proof.
  intros H (f & -> & Hf)%list_elem_of_fmap.
  apply list_elem_of_In in Hf.
  pose proof (find_none _ _ H f Hf) as Hn. simpl in Hn.
  by apply bool_decide_eq_false in Hn.
Qed.

Lemma field_named_is_Some m k : k ∈ f_name <$> m → is_Some (field_named m k).
Proof.
  intros H. destruct (field_named m k) eqn:E; [by eexists|].
  by apply field_named_None in E.
Qed.

Lemma project_lookup m d k :
  project m d !! k = (λ f, field_value f d) <$> field_named m k.
Proof.
  unfold field_named. induction m as [|f m IH]; simpl; [done|].
  case_bool_decide as Hk.
  - subst. by rewrite lookup_insert_eq.
  - by rewrite lookup_insert_ne.
Qed.

Lemma field_ok_all m d :
  (∀ k f, field_named m k = Some f → field_ok f d = true) →
  (∀ f, f ∈ m → field_named m (f_name f) = Some f) →
  forallb (λ f, field_ok f d) m = true.
Proof.
  intros H Hn. apply forallb_forall. intros f Hf%list_elem_of_In.
  apply (H (f_name f)). by apply Hn.
Qed.

Lemma conforms_named m (d : doc) k f v :
  conforms m d = true → field_named m k = Some f → d !! k = Some v → check f v = true.
Proof.
  intros Hc [Hf <-]%field_named_Some Hv.
  unfold conforms in Hc. rewrite forallb_forall in Hc.
  apply list_elem_of_In in Hf. specialize (Hc f Hf). by rewrite Hv in Hc.
Qed.

(** A supplied value is accepted by the field of the model that bears its
    name, whenever the update model agrees with the model on types. *)
Lemma supplied_check um m (body : doc) k v f :
  types_agree um m = true →
  instance_of um body = true →
  supplied body k = Some v →
  field_named m k = Some f →
  check f v = true.
Proof.
  intros Ha Hi Hs Hf.
  pose proof (supplied_is_field _ _ _ _ Hi Hs) as Hk.
  destruct (field_named_is_Some _ _ Hk) as [uf Huf].
  assert (Hb : body !! k = Some v ∧ v ≠ VNone).
  { unfold supplied in Hs. destruct (body !! k) as [[]|]; naive_solver. }
  destruct Hb as [Hb Hv].
  pose proof (conforms_named _ _ _ _ _ (instance_of_conforms _ _ Hi) Huf Hb) as Hc.
  destruct (field_named_Some _ _ _ Huf) as [Hin Hname].
  unfold types_agree in Ha. rewrite forallb_forall in Ha.
  apply list_elem_of_In in Hin. specialize (Ha uf Hin).
  rewrite Hname, Hf in Ha. apply bool_decide_eq_true in Ha.
  unfold check in *. rewrite <- Ha. by destruct v.
Qed.

Lemma types_agree_resource r : types_agree (update_model r) (model_of r) = true.
Proof. by destruct r. Qed.

Lemma field_named_unique r f :
  f ∈ model_of r → field_named (model_of r) (f_name f) = Some f.
Proof.
  intros Hf%list_elem_of_In. destruct r; simpl in Hf; intuition (subst; reflexivity).
Qed.

Lemma id_field r f :
  field_named (model_of r) "id" = Some f → check f (VStr (key r)) = true.
Proof. destruct r; intros [= <-]; reflexivity. Qed.

Lemma update_names_in_model r k :
  k ∈ f_name <$> update_model r → k ∈ f_name <$> model_of r.
Proof.
  intros H%list_elem_of_In. apply list_elem_of_In.
  destruct r; simpl in *; intuition.
Qed.

Lemma id_in_model r : "id" ∈ f_name <$> model_of r.
Proof. apply list_elem_of_In. destruct r; simpl; intuition. Qed.

(** No update model has a datetime or, the three below apart, an integer. *)
Lemma update_model_no_date r f : f ∈ update_model r → f_type f ≠ TDatetime.
Proof. intros Hf%list_elem_of_In. destruct r; simpl in Hf; intuition (by subst). Qed.

(** The values of a request body are stored as they are. *)
Lemma body_to_bson r (body : doc) k v :
  instance_of (update_model r) body = true → body !! k = Some v → to_bson v = v.
Proof.
  intros Hi Hk.
  assert (Hin : k ∈ f_name <$> update_model r) by by eapply instance_of_dom.
  destruct (field_named_is_Some _ _ Hin) as [uf Huf].
  pose proof (conforms_named _ _ _ _ _ (instance_of_conforms _ _ Hi) Huf Hk) as Hc.
  destruct (field_named_Some _ _ _ Huf) as [Hf _].
  pose proof (update_model_no_date r uf Hf) as Ht.
  destruct v; try done. simpl in Hc. by destruct (f_type uf).
Qed.

Ltac not_a_field E :=
  apply list_elem_of_In in E; simpl in E; intuition (discriminate || congruence).

Lemma upsert_then_read_eq c k m data w :
  data !! "id" = None →
  bson_ok data = true →
  let l' := updated "id" (VStr k) (encode data) true (sel c (db w)) in
  let stored := encode data ∪ base_doc k (singleton_doc c k (db w)) in
  upsert_then_read c k m data w = construct m stored (set_db (upd c l' (db w)) w)
  ∧ singleton_doc c k (upd c l' (db w)) = Some stored.
Proof.
  intros Hid Hfit l' stored.
  assert (Hid' : encode data !! "id" = None) by by rewrite lookup_encode, Hid.
  assert (Hf : singleton_doc c k (upd c l' (db w)) = Some stored).
  { subst l' stored. unfold singleton_doc. rewrite sel_upd_eq, find_updated by done.
    by destruct (find _ _). }
  split; [|done].
  unfold upsert_then_read.
  erewrite bind_ok by by apply update_one_eq.
  change (to_bson (VStr k)) with (VStr k).
  erewrite bind_ok by apply find_one_eq.
  rewrite db_set_db. unfold singleton_doc in Hf. fold l'. rewrite Hf. simpl.
  by erewrite bind_ok by apply ret_eq.
Qed.

(** A [$set] document that cannot be encoded is refused before anything
    is written. *)
Lemma upsert_then_read_raises c k m data w :
  bson_ok data = false →
  upsert_then_read c k m data w = (Raise OverflowError, w).
Proof.
  intros H. unfold upsert_then_read.
  erewrite bind_raise; [done|]. apply update_one_raises. by rewrite H.
Qed.

Lemma instance_of_NumberUpdate body :
  instance_of NumberUpdate body = true → ∃ n, body !! "number" = Some (VInt n).
Proof.
  intros H%instance_of_conforms. unfold conforms in H. simpl in H.
  destruct (body !! "number") as [[]|]; try done. by eexists.
Qed.

Lemma PUT_eq r body w :
  instance_of (update_model r) body = true →
  PUT r body w
  = upsert_then_read (collection r) (key r) (model_of r)
      (put_data r body (clock w (ticks w))) (if stamps r then tick w else w).
Proof.
  intros Hi. destruct r; try reflexivity.
  destruct (instance_of_NumberUpdate _ Hi) as [n Hn].
  unfold PUT, update_number, put_data. unfold getattr. rewrite Hn.
  reflexivity.
Qed.

Lemma put_data_id r body now :
  instance_of (update_model r) body = true → put_data r body now !! "id" = None.
Proof.
  intros Hi.
  assert (Hs : not_none_items body !! "id" = None).
  { rewrite supplied_not_none_items. destruct (supplied body "id") as [v|] eqn:E; [|done].
    apply (supplied_is_field _ _ _ _ Hi) in E.
    destruct r; not_a_field E. }
  destruct r; simpl; try done.
  by rewrite lookup_insert_ne.
Qed.

Lemma put_data_lookup r body now k :
  instance_of (update_model r) body = true →
  put_data r body now !! k
  = match supplied body k with
    | Some v => Some v
    | None => if stamps r && bool_decide (k = "updated_at") then Some (VDate now) else None
    end.
Proof.
  intros Hi. destruct r; simpl; rewrite ?supplied_not_none_items; try by destruct (supplied body k).
  - case_bool_decide as Hk.
    + subst. rewrite lookup_insert_eq.
      destruct (supplied body "updated_at") as [v|] eqn:E; [|done].
      apply (supplied_is_field _ _ _ _ Hi) in E. not_a_field E.
    + rewrite lookup_insert_ne by done. rewrite supplied_not_none_items.
      by destruct (supplied body k).
  - destruct (instance_of_NumberUpdate _ Hi) as [n Hn]. rewrite Hn. simpl.
    destruct (decide (k = "number")) as [->|Hk1].
    + rewrite lookup_insert_eq. unfold supplied. by rewrite Hn.
    + rewrite lookup_insert_ne by done.
      assert (supplied body k = None) as ->.
      { destruct (supplied body k) as [v|] eqn:E; [|done].
        apply (supplied_is_field _ _ _ _ Hi) in E. not_a_field E. }
      case_bool_decide as Hk.
      * subst. by rewrite lookup_singleton_eq.
      * by rewrite lookup_singleton_ne.
Qed.

Lemma encode_not_none_items r (body : doc) :
  instance_of (update_model r) body = true →
  encode (not_none_items body) = not_none_items body.
Proof.
  intros Hi. apply map_eq. intros k. rewrite lookup_encode.
  destruct (not_none_items body !! k) as [v|] eqn:E; [|done]. simpl.
  apply map_lookup_filter_Some in E as [E _].
  by rewrite (body_to_bson r body k v).
Qed.

(** What the store keeps of the [$set] document of a PUT: the same
    document, stamped to the millisecond. *)
Lemma encode_put_data r body now :
  instance_of (update_model r) body = true →
  encode (put_data r body now) = put_data r body (ms now).
Proof.
  intros Hi. destruct r; simpl; rewrite ?encode_insert; simpl;
    try by rewrite (encode_not_none_items _ _ Hi).
  destruct (instance_of_NumberUpdate _ Hi) as [n ->]. by encode_fields.
Qed.

(** A body whose integers fit gives a [$set] document that can be encoded. *)
Lemma put_data_fit r body now :
  bson_ok body = true → bson_ok (put_data r body now) = true.
Proof.
  intros Hb. destruct r; simpl; try by apply bson_ok_not_none_items.
  - apply bson_ok_insert; [done | by apply bson_ok_not_none_items].
  - fields_fit. destruct (body !! "number") as [v|] eqn:E; [|done].
    by apply (bson_ok_lookup body "number").
Qed.

Lemma put_data_fit_now r body now now' :
  bson_ok (put_data r body now) = bson_ok (put_data r body now').
Proof.
  assert (H : ∀ t t', bson_ok (put_data r body t) = true → bson_ok (put_data r body t') = true).
  { intros t t'. rewrite !bson_ok_spec. intros H k v Hk.
    destruct r; simpl in *; try by apply (H k).
    - destruct (decide (k = "updated_at")) as [->|Hne].
      + rewrite lookup_insert_eq in Hk. by injection Hk as <-.
      + rewrite lookup_insert_ne in Hk by done. apply (H k).
        by rewrite lookup_insert_ne.
    - destruct (decide (k = "number")) as [->|Hne].
      + rewrite lookup_insert_eq in Hk. apply (H "number"). by rewrite lookup_insert_eq.
      + rewrite lookup_insert_ne in Hk by done.
        apply lookup_singleton_Some in Hk as [_ <-]. done. }
  destruct (bson_ok (put_data r body now)) eqn:E1, (bson_ok (put_data r body now')) eqn:E2;
    try done.
  - by rewrite (H now now' E1) in E2.
  - by rewrite (H now' now E2) in E1.
Qed.

Lemma validate_field_db f kw w : db (validate_field f kw w).2 = db w.
Proof.
  unfold validate_field, default_value.
  destruct (kw !! f_name f) as [v|].
  - by destruct (check f v).
  - by destruct (f_default f).
Qed.

Lemma construct_db m kw w : db (construct m kw w).2 = db w.
Proof.
  revert w. induction m as [|f m IH]; intros w; simpl; [done|].
  unfold mbind, M_bind.
  pose proof (validate_field_db f kw w) as Hf.
  destruct (validate_field f kw w) as [[v|e] w1]; simpl in Hf; [|done].
  pose proof (IH w1) as Hm.
  destruct (construct m kw w1) as [[rest|e] w2]; simpl in *; congruence.
Qed.

Lemma PUT_db r body w cur :
  instance_of (update_model r) body = true →
  bson_ok body = true →
  singleton_doc (collection r) (key r) (db w) = Some cur →
  db (PUT r body w).2
  = upd (collection r)
      (updated "id" (VStr (key r)) (put_data r body (ms (clock w (ticks w)))) true
         (sel (collection r) (db w)))
      (db w)
  ∧ singleton_doc (collection r) (key r) (db (PUT r body w).2)
    = Some (put_data r body (ms (clock w (ticks w))) ∪ cur).
Proof.
  intros Hi Hfit Hcur. rewrite PUT_eq by done.
  set (w0 := if stamps r then tick w else w).
  assert (Hdb : db w0 = db w) by (unfold w0; by destruct (stamps r)).
  destruct (upsert_then_read_eq (collection r) (key r) (model_of r)
              (put_data r body (clock w (ticks w))) w0) as [Hrun Hst].
  { by apply put_data_id. }
  { by apply put_data_fit. }
  rewrite encode_put_data in Hrun, Hst by done.
  rewrite Hrun, construct_db, db_set_db, Hst, Hdb, Hcur. done.
Qed.

(** A PUT whose [$set] document cannot be encoded raises and writes nothing. *)
Lemma PUT_refused r body w :
  instance_of (update_model r) body = true →
  bson_ok (put_data r body (clock w (ticks w))) = false →
  PUT r body w = (Raise OverflowError, if stamps r then tick w else w).
Proof.
  intros Hi Hfit. rewrite PUT_eq by done. by apply upsert_then_read_raises.
Qed.

Lemma PUT_refused_db r body w :
  instance_of (update_model r) body = true →
  bson_ok (put_data r body (clock w (ticks w))) = false →
  db (PUT r body w).2 = db w.
Proof. intros Hi Hfit. rewrite PUT_refused by done. by destruct (stamps r). Qed.

(** C5, as amended.  For each singleton PUT and each stored document, a
    body that is an instance of the update model and whose integers fit in
    64 bits changes, in the stored document, the fields it supplies with a
    non-null value and, on the two resources whose PUT stamps it (AppConfig
    and CurrentNumber), [updated_at], which becomes the reading of the
    clock to the millisecond; every other field keeps its prior value, and
    no other document of the store changes. *)
Theorem put_changes_supplied_and_stamp (r : resource) (body : doc) (w : World) (cur : doc) :
  instance_of (update_model r) body = true →
  bson_ok body = true →
  singleton_doc (collection r) (key r) (db w) = Some cur →
  ∃ cur' l1 l2,
    singleton_doc (collection r) (key r) (db (PUT r body w).2) = Some cur' ∧
    (∀ k, cur' !! k
          = match supplied body k with
            | Some v => Some v
            | None => if stamps r && bool_decide (k = "updated_at")
                      then Some (VDate (ms (clock w (ticks w))))
                      else cur !! k
            end) ∧
    sel (collection r) (db w) = l1 ++ cur :: l2 ∧
    sel (collection r) (db (PUT r body w).2) = l1 ++ cur' :: l2 ∧
    (∀ c, c ≠ collection r → sel c (db (PUT r body w).2) = sel c (db w)).
Proof.
  intros Hi Hfit Hcur. destruct (PUT_db r body w cur Hi Hfit Hcur) as [Hdb Hst].
  destruct (updated_found _ _ (put_data r body (ms (clock w (ticks w)))) true _ _ Hcur)
    as (l1 & l2 & E & _ & Hl).
  exists (put_data r body (ms (clock w (ticks w))) ∪ cur), l1, l2.
  split; [done|]. split; [|split; [done|split]].
  - intros k. rewrite lookup_union, put_data_lookup by done.
    destruct (supplied body k) as [v|].
    + by destruct (cur !! k).
    + destruct (stamps r && bool_decide (k = "updated_at")); by destruct (cur !! k).
  - by rewrite Hdb, sel_upd_eq.
  - intros c Hc. rewrite Hdb. by apply sel_upd_ne.
Qed.

Lemma put_changes_supplied_and_stamp_witness :
  ∃ cur' l1 l2,
    singleton_doc (collection RAppConfig) (key RAppConfig)
      (db (PUT RAppConfig city_only world_with_config).2) = Some cur' ∧
    (∀ k, cur' !! k
          = match supplied city_only k with
            | Some v => Some v
            | None => if stamps RAppConfig && bool_decide (k = "updated_at")
                      then Some (VDate (ms (clock world_with_config (ticks world_with_config))))
                      else defaults RAppConfig (world_of empty_db) !! k
            end) ∧
    sel (collection RAppConfig) (db world_with_config)
      = l1 ++ defaults RAppConfig (world_of empty_db) :: l2 ∧
    sel (collection RAppConfig) (db (PUT RAppConfig city_only world_with_config).2)
      = l1 ++ cur' :: l2 ∧
    (∀ c, c ≠ collection RAppConfig →
          sel c (db (PUT RAppConfig city_only world_with_config).2)
          = sel c (db world_with_config)).
Proof.
  exact (put_changes_supplied_and_stamp RAppConfig city_only world_with_config
           (defaults RAppConfig (world_of empty_db)) eq_refl eq_refl eq_refl).
Defined.

(** C5, as stated, fails: PUT /config with a body that supplies the city
    alone also changes [updated_at] of the stored document, from the
    reading it held to the fifth reading of the clock. *)
Lemma put_config_changes_updated_at :
  ¬ changes_only_supplied RAppConfig city_only world_with_config.
Proof.
  unfold changes_only_supplied. intros H.
  assert (Hc : singleton_doc (collection RAppConfig) (key RAppConfig) (db world_with_config)
               = Some (defaults RAppConfig (world_of empty_db))) by reflexivity.
  assert (Hi : instance_of (update_model RAppConfig) city_only = true) by reflexivity.
  destruct (H _ Hc) as (cur' & Hs & Hk).
  assert (Hb : bson_ok city_only = true) by reflexivity.
  pose proof (PUT_db RAppConfig city_only world_with_config _ Hi Hb Hc) as [_ Hst].
  rewrite Hst in Hs.
  assert (cur' = put_data RAppConfig city_only
                   (ms (clock world_with_config (ticks world_with_config)))
                   ∪ defaults RAppConfig (world_of empty_db)) as -> by congruence.
  specialize (Hk "updated_at"). clear H Hs Hst.
  rewrite lookup_union, put_data_lookup in Hk by done.
  assert (R : supplied city_only "updated_at" = None) by reflexivity.
  assert (C : defaults RAppConfig (world_of empty_db) !! "updated_at" = Some (VDate 1000))
    by reflexivity.
  rewrite R, C in Hk.
  rewrite bool_decide_eq_true_2 in Hk by done.
  change (stamps RAppConfig) with true in Hk.
  injection Hk as Hk. vm_compute in Hk. discriminate Hk.
Qed.

(** ** A PUT that creates the document *)

Lemma defaults_project r w : stamps r = false → defaults r w = project (model_of r) ∅.
Proof. by destruct r. Qed.

Lemma all_defaulted r f :
  stamps r = false → f ∈ model_of r → ∃ v, f_default f = Default v.
Proof.
  intros Hs Hf%list_elem_of_In.
  destruct r; try done; simpl in Hf; intuition (subst; by eexists).
Qed.

Lemma upserted_lookup r (body : doc) k :
  instance_of (update_model r) body = true →
  (not_none_items body ∪ {[ "id" := VStr (key r) ]}) !! k
  = if decide (k = "id") then Some (VStr (key r)) else supplied body k.
Proof.
  intros Hi. rewrite lookup_union, supplied_not_none_items.
  destruct (decide (k = "id")) as [->|Hk].
  - rewrite lookup_singleton_eq.
    destruct (supplied body "id") as [v|] eqn:E; [|done].
    apply (supplied_is_field _ _ _ _ Hi) in E. destruct r; not_a_field E.
  - rewrite lookup_singleton_ne by done. by destruct (supplied body k).
Qed.

Lemma upserted_field_ok r (body : doc) f :
  stamps r = false →
  instance_of (update_model r) body = true →
  f ∈ model_of r →
  field_ok f (not_none_items body ∪ {[ "id" := VStr (key r) ]}) = true.
Proof.
  intros Hs Hi Hf. pose proof (field_named_unique r f Hf) as Hn.
  unfold field_ok. rewrite upserted_lookup by done.
  destruct (decide (f_name f = "id")) as [E|E].
  - rewrite E in Hn. by apply id_field.
  - destruct (supplied body (f_name f)) as [v|] eqn:Hv.
    + eapply supplied_check; eauto using types_agree_resource.
    + by destruct (all_defaulted r f Hs Hf) as [v ->].
Qed.

Lemma upserted_construct r (body : doc) w :
  stamps r = false →
  instance_of (update_model r) body = true →
  let stored := not_none_items body ∪ {[ "id" := VStr (key r) ]} in
  construct (model_of r) stored w = (Ok (project (model_of r) stored), w).
Proof.
  intros Hs Hi stored. apply construct_pure, forallb_forall.
  intros f Hf%list_elem_of_In. by apply upserted_field_ok.
Qed.

Lemma upserted_response r (body : doc) w k :
  stamps r = false →
  instance_of (update_model r) body = true →
  let stored := not_none_items body ∪ {[ "id" := VStr (key r) ]} in
  project (model_of r) stored !! k
  = match stored !! k with Some v => Some v | None => defaults r w !! k end.
Proof.
  intros Hs Hi stored. rewrite (defaults_project r w Hs), !project_lookup.
  destruct (field_named (model_of r) k) as [f|] eqn:Hf; simpl.
  - destruct (field_named_Some _ _ _ Hf) as [_ <-].
    unfold field_value. rewrite lookup_empty. by destruct (stored !! f_name f).
  - apply field_named_None in Hf.
    destruct (stored !! k) as [v|] eqn:E; [|done]. exfalso. apply Hf.
    unfold stored in E. rewrite upserted_lookup in E by done.
    destruct (decide (k = "id")) as [->|_]; [apply id_in_model|].
    by eapply update_names_in_model, supplied_is_field.
Qed.

(** C10, as amended.  For SlideSettings, BluetoothRemote and VoiceSettings,
    when no document exists a PUT with an instance of the update model,
    whose integers fit in 64 bits, succeeds and appends one document that
    holds the fixed id and the supplied fields and nothing else; the
    response carries, for every key, the stored value when there is one and
    the documented default otherwise, and a GET that follows returns that
    same response and writes nothing. *)
Theorem put_creates_sparse_document (r : resource) (body : doc) (w : World) :
  stamps r = false →
  instance_of (update_model r) body = true →
  bson_ok body = true →
  singleton_doc (collection r) (key r) (db w) = None →
  ∃ stored resp w1,
    PUT r body w = (Ok resp, w1) ∧
    sel (collection r) (db w1) = sel (collection r) (db w) ++ [stored] ∧
    (∀ k, stored !! k = if decide (k = "id") then Some (VStr (key r)) else supplied body k) ∧
    (∀ k, resp !! k = match stored !! k with Some v => Some v | None => defaults r w !! k end) ∧
    GET r w1 = (Ok resp, w1).
Proof.
  intros Hs Hi Hfit Hnone.
  set (stored := not_none_items body ∪ {[ "id" := VStr (key r) ]}).
  assert (Hd : put_data r body (clock w (ticks w)) = not_none_items body)
    by by destruct r.
  destruct (upsert_then_read_eq (collection r) (key r) (model_of r) (not_none_items body) w)
    as [Hrun Hst].
  { rewrite <- Hd. by apply put_data_id. }
  { by apply bson_ok_not_none_items. }
  rewrite (encode_not_none_items r body Hi) in Hrun, Hst.
  rewrite Hnone in Hrun, Hst. simpl base_doc in Hrun, Hst.
  unfold singleton_doc in Hnone. rewrite updated_absent in Hrun, Hst by done.
  exists stored, (project (model_of r) stored). eexists.
  split; [|split; [|split; [|split]]].
  - rewrite PUT_eq, Hs, Hd, Hrun by done. by apply upserted_construct.
  - by rewrite db_set_db, sel_upd_eq.
  - intros k. by apply upserted_lookup.
  - intros k. by apply upserted_response.
  - rewrite GET_get_singleton, (get_singleton_found _ _ _ _ stored).
    + by apply upserted_construct.
    + by rewrite db_set_db.
Qed.

Lemma put_creates_sparse_document_witness :
  ∃ stored resp w1,
    PUT RVoiceSettings language_only (world_of empty_db) = (Ok resp, w1) ∧
    sel (collection RVoiceSettings) (db w1)
      = sel (collection RVoiceSettings) (db (world_of empty_db)) ++ [stored] ∧
    (∀ k, stored !! k = if decide (k = "id") then Some (VStr (key RVoiceSettings))
                        else supplied language_only k) ∧
    (∀ k, resp !! k = match stored !! k with
                      | Some v => Some v
                      | None => defaults RVoiceSettings (world_of empty_db) !! k
                      end) ∧
    GET RVoiceSettings w1 = (Ok resp, w1).
Proof.
  exact (put_creates_sparse_document RVoiceSettings language_only (world_of empty_db)
           eq_refl eq_refl eq_refl eq_refl).
Defined.

(** C10, as stated, fails: PUT /slides/settings with the interval 2^63 on
    a store without the document raises [OverflowError], the driver
    refusing the integer, and no document is created. *)
Lemma put_huge_interval_creates_nothing :
  ¬ put_creates_document RSlideSettings huge_interval (world_of empty_db).
Proof.
  intros H. destruct H as (stored & resp & w1 & E & _); [done..|].
  rewrite PUT_refused in E by reflexivity. discriminate E.
Qed.

(** The same refusal on PUT /number, a mutating request that is neither
    completed nor the 404: it raises [OverflowError] and the stored number
    stays. *)
Lemma put_huge_number_raises :
  PUT RCurrentNumber huge_number (world_with_number 5)
  = (Raise OverflowError, tick (world_with_number 5)) ∧
  stored_number (db (tick (world_with_number 5))) = Some (VInt 5).
Proof. split; [by rewrite PUT_refused | reflexivity]. Qed.

(** ** Failure paths of the mutating endpoints *)


Lemma fmap_eq {A B} (f : A → B) (m : M A) w :
  (f <$> m) w = match m w with
                | (Ok a, w') => (Ok (f a), w')
                | (Raise e, w') => (Raise e, w')
                end.
Proof. unfold fmap, M_fmap, mbind, M_bind. by destruct (m w) as [[]]. Qed.

Lemma fmap_world {A B} (f : A → B) (m : M A) w : ((f <$> m) w).2 = (m w).2.
Proof. rewrite fmap_eq. by destruct (m w) as [[]]. Qed.



(** *** Validation of stored documents *)

Lemma validate_field_valid f d w :
  field_valid f d = true → ∃ v w', validate_field f d w = (Ok v, w').
Proof.
  unfold field_valid, validate_field, default_value.
  destruct (d !! f_name f) as [v|].
  - intros ->. by eexists _, _.
  - destruct (f_default f); [done| | |]; intros _; by eexists _, _.
Qed.

Lemma construct_valid m d w :
  doc_valid m d = true → ∃ inst w', construct m d w = (Ok inst, w').
Proof.
  unfold doc_valid. revert w. induction m as [|f m IH]; intros w; simpl.
  - intros _. by eexists _, _.
  - intros [Hf Hm]%andb_true_iff.
    destruct (validate_field_valid f d w Hf) as (v & w1 & E1).
    destruct (IH w1 Hm) as (rest & w2 & E2).
    erewrite bind_ok by exact E1. erewrite bind_ok by exact E2. by eexists _, _.
Qed.

Lemma conforms_doc_valid m d : conforms m d = true → doc_valid m d = true.
Proof.
  unfold conforms, doc_valid. rewrite !forallb_forall. intros H f Hf.
  specialize (H f Hf). unfold field_valid. by destruct (d !! f_name f).
Qed.

Lemma doc_valid_union m (data d : doc) :
  typed_for m data → doc_valid m d = true → doc_valid m (data ∪ d) = true.
Proof.
  unfold doc_valid. rewrite !forallb_forall. intros Ht Hd f Hf.
  specialize (Hd f Hf). unfold field_valid in *. rewrite lookup_union.
  destruct (data !! f_name f) as [v|] eqn:E.
  - apply list_elem_of_In in Hf. rewrite (union_Some_l). by eapply Ht.
  - by rewrite (left_id None _).
Qed.

Lemma check_to_bson f v : check f (to_bson v) = check f v.
Proof. by destruct v. Qed.

Lemma typed_for_encode m data : typed_for m data → typed_for m (encode data).
Proof.
  intros H f v Hf Hv. rewrite lookup_encode in Hv.
  destruct (data !! f_name f) as [x|] eqn:E; [|done].
  injection Hv as <-. rewrite check_to_bson. by eapply H.
Qed.

Lemma stored_ok_union m (data d : doc) :
  typed_for m data → bson_ok data = true → stored_ok m d → stored_ok m (data ∪ d).
Proof.
  intros Ht Hb [Hv Hf]. split.
  - by apply doc_valid_union.
  - by apply bson_ok_union.
Qed.

Lemma stored_ok_encode_union m (data d : doc) :
  typed_for m data → bson_ok data = true → stored_ok m d → stored_ok m (encode data ∪ d).
Proof.
  intros Ht Hb Hd. apply stored_ok_union; [by apply typed_for_encode | by apply bson_ok_encode | done].
Qed.

Lemma updated_Forall (P : doc → Prop) k v data upsert l :
  (∀ d, P d → P (data ∪ d)) →
  P (data ∪ {[ k := v ]}) →
  Forall P l → Forall P (updated k v data upsert l).
Proof.
  intros Hu Hb Hl. unfold updated.
  destruct (find (matches k v) l) as [d|] eqn:F.
  - destruct (update_first_Some _ (λ d, data ∪ d) _ _ F) as (l1 & l2 & -> & _ & _ & ->).
    apply Forall_app in Hl as [H1 H2]. apply Forall_cons in H2 as [H2 H3].
    apply Forall_app. split; [done|]. apply Forall_cons. auto.
  - rewrite update_first_None by done. destruct upsert; [|done].
    apply Forall_app. split; [done|]. by apply Forall_cons.
Qed.

(** *** Handlers that leave the singleton collections alone *)

Lemma keeps_ret c {A} (a : A) : keeps c (mret a : M A).
Proof. by intros w c' _. Qed.

Lemma keeps_raise c {A} e : keeps c (raise e : M A).
Proof. by intros w c' _. Qed.

Lemma keeps_bind c {A B} (m : M A) (f : A → M B) :
  keeps c m → (∀ a, keeps c (f a)) → keeps c (m ≫= f).
Proof.
  intros Hm Hf w c' Hc. unfold mbind, M_bind.
  specialize (Hm w c' Hc). destruct (m w) as [[a|e] w1]; simpl in *; [|done].
  by rewrite Hf.
Qed.

Lemma keeps_pure c {A} (m : M A) : (∀ w, db (m w).2 = db w) → keeps c m.
Proof. intros H w c' _. by rewrite H. Qed.

Lemma keeps_find_one c c0 k v : keeps c (find_one c0 k v).
Proof. by apply keeps_pure. Qed.

Lemma keeps_insert_one c d : keeps c (insert_one c d).
Proof.
  intros w c' Hc. destruct (bson_ok d) eqn:E.
  - rewrite insert_one_eq by done. simpl. by apply sel_upd_ne.
  - by rewrite insert_one_raises.
Qed.

Lemma keeps_update_one c k v data upsert : keeps c (update_one c k v data upsert).
Proof.
  intros w c' Hc. destruct (encodable v && bson_ok data) eqn:E.
  - apply andb_true_iff in E as [E1 E2].
    rewrite update_one_eq by done. simpl. by apply sel_upd_ne.
  - by rewrite update_one_raises.
Qed.

Lemma keeps_delete_one c k v : keeps c (delete_one c k v).
Proof.
  intros w c' Hc. rewrite delete_one_eq.
  destruct (delete_first _ _); simpl; [by apply sel_upd_ne | done].
Qed.

Lemma keeps_construct c m kw : keeps c (construct m kw).
Proof. apply keeps_pure. intros w. apply construct_db. Qed.

Lemma keeps_getitem c d k : keeps c (getitem d k).
Proof. unfold getitem. destruct (d !! k); [apply keeps_ret | apply keeps_raise]. Qed.

Lemma keeps_for_each c {A} (f : A → M unit) l :
  (∀ x, keeps c (f x)) → keeps c (for_each f l).
Proof.
  intros Hf. induction l as [|x l IH]; simpl; [apply keeps_ret|].
  apply keeps_bind; [apply Hf | by intros _].
Qed.

Lemma keeps_mapM c {A B} (f : A → M B) l :
  (∀ x, keeps c (f x)) → keeps c (mapM f l).
Proof.
  intros Hf. induction l as [|x l IH]; simpl; [apply keeps_ret|].
  apply keeps_bind; [apply Hf | intros y].
  apply keeps_bind; [apply IH | intros ys; apply keeps_ret].
Qed.

Lemma keeps_create_slide s : keeps slide_images (create_slide s).
Proof.
  apply keeps_bind; [apply keeps_construct | intros o].
  apply keeps_bind; [apply keeps_insert_one | intros _; apply keeps_ret].
Qed.

Lemma keeps_delete_slide i : keeps slide_images (delete_slide i).
Proof.
  apply keeps_bind; [apply keeps_delete_one | intros n].
  destruct (Z.eqb n 0); [apply keeps_raise | apply keeps_ret].
Qed.

Lemma keeps_reorder_slides l : keeps slide_images (reorder_slides l).
Proof.
  apply keeps_bind; [|intros _; apply keeps_ret].
  apply keeps_for_each. intros item.
  apply keeps_bind; [apply keeps_getitem | intros i].
  apply keeps_bind; [apply keeps_getitem | intros o].
  apply keeps_update_one.
Qed.

Lemma keeps_get_slides : keeps slide_images get_slides.
Proof.
  apply keeps_bind; [by apply keeps_pure | intros l].
  apply keeps_mapM. intros d. apply keeps_construct.
Qed.

(** *** The slide endpoints complete *)





Lemma delete_slide_eq slide_id w :
  delete_slide slide_id w
  = match delete_first (matches "id" (VStr slide_id)) (sel slide_images (db w)) with
    | Some l' => (Ok {[ "message" := VStr "Slide deleted successfully" ]},
                  set_db (upd slide_images l' (db w)) w)
    | None => (Raise (HTTPException 404 "Slide not found"), w)
    end.
Proof.
  unfold delete_slide. unfold mbind at 1, M_bind. rewrite delete_one_eq.
  by destruct (delete_first _ _).
Qed.

(** *** The singleton endpoints keep the stored documents valid *)

Lemma collection_ne_slides r : collection r ≠ slide_images.
Proof. by destruct r. Qed.

Lemma collection_inj r r' : collection r = collection r' → r = r'.
Proof. by destruct r, r'. Qed.

Lemma singletons_valid_keeps {A} (m : M A) w :
  keeps slide_images m → singletons_valid (db w) → singletons_valid (db (m w).2).
Proof. intros Hk Hv r. rewrite Hk by apply collection_ne_slides. apply Hv. Qed.

Lemma singletons_valid_upd r l d :
  singletons_valid d →
  Forall (stored_ok (model_of r)) l →
  singletons_valid (upd (collection r) l d).
Proof.
  intros Hv Hl r'. destruct (decide (r = r')) as [<-|Hr].
  - by rewrite sel_upd_eq.
  - rewrite sel_upd_ne; [apply Hv|]. intros E. by apply collection_inj in E.
Qed.

Lemma singleton_doc_ok r d cur :
  singletons_valid d → singleton_doc (collection r) (key r) d = Some cur →
  stored_ok (model_of r) cur.
Proof.
  intros Hv [Hin _]%find_some. specialize (Hv r).
  rewrite Forall_forall in Hv. apply Hv. by apply list_elem_of_In.
Qed.

Lemma singleton_doc_valid r d cur :
  singletons_valid d → singleton_doc (collection r) (key r) d = Some cur →
  doc_valid (model_of r) cur = true.
Proof. intros Hv Hc. by destruct (singleton_doc_ok r d cur Hv Hc). Qed.

Lemma base_valid r : doc_valid (model_of r) {[ "id" := VStr (key r) ]} = true.
Proof. by destruct r. Qed.

Lemma base_ok r : stored_ok (model_of r) {[ "id" := VStr (key r) ]}.
Proof. split; [apply base_valid | by apply bson_ok_singleton]. Qed.


Lemma GET_valid r w :
  singletons_valid (db w) → singletons_valid (db (GET r w).2).
Proof.
  intros Hv. rewrite GET_get_singleton.
  destruct (singleton_doc (collection r) (key r) (db w)) as [cur|] eqn:E.
  - rewrite (get_singleton_found _ _ _ _ cur E). by rewrite construct_db.
  - destruct (construct_defaults r w) as (w' & Hc & Hdb).
    rewrite (get_singleton_absent _ _ _ _ _ _ E Hc (defaults_fit r w)). simpl. rewrite Hdb.
    apply singletons_valid_upd; [done|].
    apply Forall_app. split; [apply Hv|].
    apply Forall_cons. split; [|done]. split.
    + apply conforms_doc_valid, encode_defaults_conforms.
    + apply bson_ok_encode, defaults_fit.
Qed.

Lemma GET_succeeds r w :
  singletons_valid (db w) → ∃ resp w', GET r w = (Ok resp, w').
Proof.
  intros Hv. rewrite GET_get_singleton.
  destruct (singleton_doc (collection r) (key r) (db w)) as [cur|] eqn:E.
  - rewrite (get_singleton_found _ _ _ _ cur E).
    apply construct_valid. by eapply singleton_doc_valid.
  - destruct (construct_defaults r w) as (w' & Hc & Hdb).
    rewrite (get_singleton_absent _ _ _ _ _ _ E Hc (defaults_fit r w)). by eexists _, _.
Qed.

Lemma stamp_field r f now :
  stamps r = true → f ∈ model_of r → f_name f = "updated_at" →
  check f (VDate now) = true.
Proof.
  intros Hs Hf%list_elem_of_In Hn.
  destruct r; try done; simpl in Hf; intuition (subst; done).
Qed.

Lemma put_data_typed r body now :
  instance_of (update_model r) body = true →
  typed_for (model_of r) (put_data r body now).
Proof.
  intros Hi f v Hf Hv. rewrite put_data_lookup in Hv by done.
  destruct (supplied body (f_name f)) as [v'|] eqn:E.
  - injection Hv as <-. eapply supplied_check; eauto using types_agree_resource.
    by apply field_named_unique.
  - destruct (stamps r) eqn:Hs; [|done]. simpl in Hv.
    case_bool_decide; [|done]. injection Hv as <-. by eapply stamp_field.
Qed.

(** A PUT whose [$set] document can be encoded writes it, stamped to the
    millisecond, and validates what it reads back. *)
Lemma PUT_run r body w :
  instance_of (update_model r) body = true →
  bson_ok (put_data r body (clock w (ticks w))) = true →
  let data := put_data r body (ms (clock w (ticks w))) in
  let w0 := if stamps r then tick w else w in
  let l' := updated "id" (VStr (key r)) data true (sel (collection r) (db w)) in
  PUT r body w
  = construct (model_of r)
      (data ∪ base_doc (key r) (singleton_doc (collection r) (key r) (db w)))
      (set_db (upd (collection r) l' (db w)) w0).
Proof.
  intros Hi Hfit data w0 l'. rewrite PUT_eq by done. subst data l'. fold w0.
  assert (Hdb : db w0 = db w) by (unfold w0; by destruct (stamps r)).
  destruct (upsert_then_read_eq (collection r) (key r) (model_of r)
              (put_data r body (clock w (ticks w))) w0) as [Hrun _].
  { by apply put_data_id. }
  { done. }
  rewrite encode_put_data in Hrun by done.
  rewrite Hrun, Hdb. done.
Qed.

Lemma PUT_valid r body w :
  instance_of (update_model r) body = true →
  singletons_valid (db w) → singletons_valid (db (PUT r body w).2).
Proof.
  intros Hi Hv. destruct (bson_ok (put_data r body (clock w (ticks w)))) eqn:Hfit.
  - rewrite PUT_run, construct_db, db_set_db by done.
    assert (Hfit' : bson_ok (put_data r body (ms (clock w (ticks w)))) = true)
      by by rewrite (put_data_fit_now r body _ (clock w (ticks w))).
    apply singletons_valid_upd; [done|].
    apply updated_Forall; [| |apply Hv].
    + intros d. by apply stored_ok_union; [apply put_data_typed|].
    + apply stored_ok_union; [by apply put_data_typed | done | apply base_ok].
  - by rewrite PUT_refused_db.
Qed.


(** *** The counter endpoints *)

Lemma number_data_typed n t : typed_for CurrentNumber (number_data n t).
Proof.
  intros f v Hf%list_elem_of_In Hv. simpl in Hf.
  destruct Hf as [<-|[<-|[<-|Hf]]]; [| | |done]; simpl in Hv.
  - done.
  - by injection Hv as <-.
  - by injection Hv as <-.
Qed.

Lemma valid_number cur :
  doc_valid CurrentNumber cur = true → ∃ n, dict_get cur "number" (VInt 1) = VInt n.
Proof.
  unfold doc_valid, field_valid, dict_get. simpl.
  rewrite !andb_true_iff. intros (_ & H & _).
  destruct (cur !! "number") as [[]|]; try done; by eexists.
Qed.

Lemma number_data_fit n t : int64 n = true → bson_ok (number_data n t) = true.
Proof. intros H. by rewrite bson_ok_number_data. Qed.

Lemma number_written_valid d n t upsert :
  int64 n = true →
  singletons_valid d →
  singletons_valid
    (upd current_number
       (updated "id" (VStr "current_number") (number_data n t) upsert (sel current_number d)) d).
Proof.
  intros Hn Hv. apply (singletons_valid_upd RCurrentNumber); [done|].
  apply updated_Forall; [| |apply (Hv RCurrentNumber)].
  - intros d'. apply stored_ok_union; [apply number_data_typed | by apply number_data_fit].
  - apply stored_ok_union;
      [apply number_data_typed | by apply number_data_fit | apply (base_ok RCurrentNumber)].
Qed.

(** The number a valid stored document holds is an integer of 64 bits. *)
Lemma stored_ok_number cur :
  stored_ok CurrentNumber cur →
  ∃ n, dict_get cur "number" (VInt 1) = VInt n ∧ int64 n = true.
Proof.
  intros [Hv Hf]. destruct (valid_number cur Hv) as [n Hn]. exists n. split; [done|].
  unfold dict_get in Hn. destruct (cur !! "number") as [v|] eqn:E; simpl in Hn.
  - subst v. by apply (bson_ok_lookup cur "number" (VInt n)).
  - by injection Hn as <-.
Qed.

(** A step of the counter, taken or refused, keeps the stored documents valid. *)
Lemma step_number_valid (op : value → M value) (g : Z → Z) w :
  (∀ z w', op (VInt z) w' = (Ok (VInt (g z)), w')) →
  int64 (g 1) = true →
  singletons_valid (db w) → singletons_valid (db (step_number op w).2).
Proof.
  intros Hop H1 Hv.
  destruct (singleton_doc current_number "current_number" (db w)) as [cur|] eqn:E.
  - destruct (stored_ok_number cur) as (n & Hn & _).
    { by apply (singleton_doc_ok RCurrentNumber (db w)). }
    destruct (int64 (g n)) eqn:Hg.
    + destruct (step_number_found op w cur (g n) E) as [Hrun _]; [by rewrite Hn | done |].
      rewrite Hrun. simpl. by apply number_written_valid.
    + rewrite (step_number_refused op w cur (g n) E); [done | by rewrite Hn | done].
  - destruct (step_number_absent op w (g 1) E) as [Hrun _]; [by intros w' | done |].
    rewrite Hrun. simpl.
    apply (singletons_valid_upd RCurrentNumber); [done|].
    apply Forall_app. split; [apply (Hv RCurrentNumber)|].
    apply Forall_cons. split; [|done].
    apply stored_ok_union; [apply number_data_typed | by apply number_data_fit |].
    split; [done | by fields_fit].
Qed.


Lemma reset_number_ok w :
  singletons_valid (db w) →
  ∃ resp w', reset_number w = (Ok resp, w') ∧ singletons_valid (db w').
Proof.
  intros Hv.
  destruct (write_number_eq (tick w) 1 (clock w (ticks w)) true) as [Hrun _];
    [done | by left |].
  eexists _, _. split; [rewrite reset_number_eq; exact Hrun|].
  rewrite db_set_db. by apply number_written_valid.
Qed.

(** *** Every reachable state keeps its singleton documents valid *)

Lemma get_news_feed_world w : (get_news_feed w).2 = w.
Proof.
  rewrite get_news_feed_eq.
  destruct (feedparser_parse w _) as [entries|e]; [|done].
  by destruct (mapM_news_total (take 20 entries) w) as [[items|e] ->].
Qed.

Lemma handle_valid q w :
  well_formed q = true →
  singletons_valid (db w) → singletons_valid (db (handle q w).2).
Proof.
  intros Hq Hv. destruct q; simpl in Hq; unfold handle; rewrite fmap_world.
  - apply (GET_valid RAppConfig w Hv).
  - apply (PUT_valid RAppConfig _ w Hq Hv).
  - apply singletons_valid_keeps; [apply keeps_get_slides | done].
  - apply singletons_valid_keeps; [apply keeps_create_slide | done].
  - apply singletons_valid_keeps; [apply keeps_delete_slide | done].
  - apply singletons_valid_keeps; [apply keeps_reorder_slides | done].
  - apply (GET_valid RSlideSettings w Hv).
  - apply (PUT_valid RSlideSettings _ w Hq Hv).
  - apply (GET_valid RCurrentNumber w Hv).
  - apply (PUT_valid RCurrentNumber _ w Hq Hv).
  - rewrite increment_number_step.
    by apply (step_number_valid py_add1 (λ z, z + 1)).
  - rewrite decrement_number_step.
    by apply (step_number_valid decrement_op (λ z, Z.max 1 (z - 1))).
  - destruct (reset_number_ok w Hv) as (resp & w' & E & Hv'). by rewrite E.
  - by rewrite get_news_feed_world.
  - apply (GET_valid RBluetoothRemote w Hv).
  - apply (PUT_valid RBluetoothRemote _ w Hq Hv).
  - apply (GET_valid RVoiceSettings w Hv).
  - apply (PUT_valid RVoiceSettings _ w Hq Hv).
Qed.

Lemma empty_db_valid : singletons_valid empty_db.
Proof. intros r. destruct r; constructor. Qed.

Lemma reachable_valid w : reachable w → singletons_valid (db w).
Proof.
  induction 1 as [w E | q w _ IH Hq].
  - rewrite E. apply empty_db_valid.
  - by apply handle_valid.
Qed.



(** The validation the last hypothesis of C9 keeps apart: [create_slide]
    passes a null [order], which SlideImageCreate admits, to SlideImage,
    which does not. *)
Lemma create_slide_null_order_raises :
  (create_slide {[ "image_base64" := VStr "x"; "order" := VNone ]} (world_of empty_db)).1
  = Raise (ValidationError "order").
Proof. reflexivity. Qed.

(** * Further properties of the handlers *)

(** ** The counter under repeated requests *)

Lemma step_number_stored (op : value → M value) (g : Z → Z) (w : World) (N : Z) :
  (∀ z w', op (VInt z) w' = (Ok (VInt (g z)), w')) →
  stored_number (db w) = Some (VInt N) →
  int64 (g N) = true →
  ∃ resp w', step_number op w = (Ok resp, w') ∧
             number_of resp = Some (VInt (g N)) ∧
             stored_number (db w') = Some (VInt (g N)).
Proof.
  intros Hop (cur & Hcur & Hn)%stored_number_found Hg.
  destruct (step_number_found op w cur (g N) Hcur) as [Hrun Hst].
  { rewrite Hn. apply Hop. }
  { done. }
  eexists _, _. split; [exact Hrun|]. split; [done|].
  rewrite db_set_db. by eapply stored_number_updated.
Qed.

Lemma repeat_step_number (op : value → M value) (g : Z → Z) (n : nat) (w : World) (N : Z) :
  (∀ z w', op (VInt z) w' = (Ok (VInt (g z)), w')) →
  stored_number (db w) = Some (VInt N) →
  (∀ i, (i < n)%nat → int64 (Nat.iter (S i) g N) = true) →
  ∃ rs w', repeat_request n (step_number op) w = (Ok rs, w') ∧
           length rs = n ∧
           (∀ i r, rs !! i = Some r → number_of r = Some (VInt (Nat.iter (S i) g N))) ∧
           stored_number (db w') = Some (VInt (Nat.iter n g N)).
Proof.
  intros Hop. revert w N. induction n as [|n IH]; intros w N HN Hfit.
  - exists [], w. repeat split; done.
  - destruct (step_number_stored op g w N Hop HN) as (r & w1 & E1 & Hr & H1).
    { apply (Hfit 0%nat). lia. }
    destruct (IH w1 (g N) H1) as (rs & w2 & E2 & Hlen & Hrs & H2).
    { intros i Hi. rewrite <- Nat.iter_succ_r. apply Hfit. lia. }
    exists (r :: rs), w2. split; [|split; [|split]].
    + simpl. erewrite bind_ok by exact E1. erewrite bind_ok by exact E2. done.
    + simpl. by rewrite Hlen.
    + intros [|i] r' Hr'; simpl in Hr'.
      * by injection Hr' as <-.
      * rewrite (Hrs i r' Hr'). by rewrite <- !Nat.iter_succ_r.
    + by rewrite Nat.iter_succ_r.
Qed.

Lemma repeat_request_ext {A} (n : nat) (m m' : M A) w :
  (∀ w, m w = m' w) → repeat_request n m w = repeat_request n m' w.
Proof.
  intros H. revert w. induction n as [|n IH]; intros w; simpl; [done|].
  unfold mbind, M_bind. rewrite H. destruct (m' w) as [[r|e] w1]; [|done].
  by rewrite IH.
Qed.

Lemma iter_succ (n : nat) (N : Z) : Nat.iter n (λ z, z + 1) N = N + Z.of_nat n.
Proof. induction n as [|n IH]; simpl; [lia|]. rewrite IH. lia. Qed.

Lemma iter_pred_floor (n : nat) (N : Z) :
  Nat.iter (S n) (λ z, Z.max 1 (z - 1)) N = Z.max 1 (N - Z.of_nat (S n)).
Proof. induction n as [|n IH]; [simpl; lia|]. rewrite Nat.iter_succ, IH. lia. Qed.

(** X1. The counter climbs to the largest integer the store holds and
    no further.  From a stored number N, [n] calls of [increment_number]
    all succeed as long as N + n does not exceed 2^63 - 1; the call number
    i+1 returns N + i + 1 and the store ends with N + n.  At 2^63 - 1 the
    call raises [OverflowError] and the number stays where it is. *)
Theorem increment_number_repeated (n : nat) (w : World) (N : Z) :
  stored_number (db w) = Some (VInt N) →
  int64 N = true →
  (N + Z.of_nat n ≤ max_int64 →
   ∃ rs w', repeat_request n increment_number w = (Ok rs, w') ∧
            length rs = n ∧
            (∀ i r, rs !! i = Some r → number_of r = Some (VInt (N + Z.of_nat i + 1))) ∧
            stored_number (db w') = Some (VInt (N + Z.of_nat n))) ∧
  (N = max_int64 →
   ∃ w', increment_number w = (Raise OverflowError, w') ∧
         stored_number (db w') = Some (VInt N)).
Proof.
  intros HN Hfit. apply int64_spec in Hfit. unfold max_int64. split.
  - intros Hmax.
    destruct (repeat_step_number py_add1 (λ z, z + 1) n w N) as (rs & w' & E & Hl & Hrs & Hst);
      [done | done | |].
    { intros i Hi. rewrite iter_succ. apply int64_spec. lia. }
    exists rs, w'. rewrite increment_number_step. split; [done|]. split; [done|]. split.
    + intros i r Hr. rewrite (Hrs i r Hr), iter_succ. do 2 f_equal. lia.
    + by rewrite Hst, iter_succ.
  - intros ->. destruct (stored_number_found _ _ HN) as (cur & Hcur & Hn).
    eexists. split.
    + rewrite increment_number_step.
      apply (step_number_refused py_add1 w cur (9223372036854775807 + 1) Hcur); [|done].
      rewrite Hn. apply py_add1_int.
    + done.
Qed.

Lemma increment_number_repeated_witness :
  (∃ rs w', repeat_request 1000 increment_number (world_with_number 5) = (Ok rs, w') ∧
            length rs = 1000%nat ∧
            (∀ i r, rs !! i = Some r → number_of r = Some (VInt (5 + Z.of_nat i + 1))) ∧
            stored_number (db w') = Some (VInt (5 + Z.of_nat 1000))) ∧
  (∃ w', increment_number (world_with_number max_int64) = (Raise OverflowError, w') ∧
         stored_number (db w') = Some (VInt max_int64)).
Proof.
  split.
  - apply (proj1 (increment_number_repeated 1000 (world_with_number 5) 5 eq_refl eq_refl)).
    vm_compute. discriminate.
  - exact (proj2 (increment_number_repeated 0 (world_with_number max_int64) max_int64
                    eq_refl eq_refl) eq_refl).
Defined.

(** X2. From a stored number N (an integer the store holds fits in 64
    bits), [n + 1] calls of [decrement_number] all succeed; the call number
    i+1 returns max(1, N - (i+1)) and the store ends with max(1, N - (n+1)):
    once at the floor the counter stays there. *)
Theorem decrement_number_repeated (n : nat) (w : World) (N : Z) :
  stored_number (db w) = Some (VInt N) →
  int64 N = true →
  ∃ rs w', repeat_request (S n) decrement_number w = (Ok rs, w') ∧
           length rs = S n ∧
           (∀ i r, rs !! i = Some r →
                   number_of r = Some (VInt (Z.max 1 (N - Z.of_nat (S i))))) ∧
           stored_number (db w') = Some (VInt (Z.max 1 (N - Z.of_nat (S n)))).
Proof.
  intros HN Hfit.
  destruct (repeat_step_number decrement_op (λ z, Z.max 1 (z - 1)) (S n) w N)
    as (rs & w' & E & Hl & Hrs & Hst); [done | done | |].
  { intros i _. rewrite iter_pred_floor. apply int64_spec in Hfit. apply int64_spec. lia. }
  exists rs, w'. split; [|split; [done|split]].
  - rewrite <- E. apply repeat_request_ext. apply decrement_number_step.
  - intros i r Hr. by rewrite (Hrs i r Hr), iter_pred_floor.
  - by rewrite Hst, iter_pred_floor.
Qed.

Lemma decrement_number_repeated_witness :
  ∃ rs w', repeat_request 3 decrement_number (world_with_number 1) = (Ok rs, w') ∧
           length rs = 3%nat ∧
           (∀ i r, rs !! i = Some r →
                   number_of r = Some (VInt (Z.max 1 (1 - Z.of_nat (S i))))) ∧
           stored_number (db w') = Some (VInt (Z.max 1 (1 - Z.of_nat 3))).
Proof.
  exact (decrement_number_repeated 2 (world_with_number 1) 1 eq_refl eq_refl).
Defined.

(** ** The counter on a store without the document *)

(** X3. When no CurrentNumber document exists, [increment_number] and
    [decrement_number] first insert the default document (number 1) and
    then step it: increment returns 2 and decrement returns 1, and either
    leaves exactly one new document, with the fixed id, in the collection. *)
Theorem counter_created_on_first_step (w : World) :
  singleton_doc current_number "current_number" (db w) = None →
  (∃ resp w' d,
     increment_number w = (Ok resp, w') ∧ number_of resp = Some (VInt 2) ∧
     sel current_number (db w') = sel current_number (db w) ++ [d] ∧
     d !! "id" = Some (VStr "current_number") ∧ d !! "number" = Some (VInt 2)) ∧
  (∃ resp w' d,
     decrement_number w = (Ok resp, w') ∧ number_of resp = Some (VInt 1) ∧
     sel current_number (db w') = sel current_number (db w) ++ [d] ∧
     d !! "id" = Some (VStr "current_number") ∧ d !! "number" = Some (VInt 1)).
Proof.
  intros Hnone. split.
  - destruct (step_number_absent py_add1 w 2 Hnone) as [Hrun _]; [done | done |].
    eexists _, _, _. split; [rewrite increment_number_step; exact Hrun|].
    split; [done|]. split; [by rewrite db_set_db, sel_upd_eq|]. done.
  - destruct (step_number_absent decrement_op w 1 Hnone) as [Hrun _]; [done | done |].
    eexists _, _, _. split; [rewrite decrement_number_step; exact Hrun|].
    split; [done|]. split; [by rewrite db_set_db, sel_upd_eq|]. done.
Qed.

Lemma counter_created_on_first_step_witness :
  (∃ resp w' d,
     increment_number (world_of empty_db) = (Ok resp, w') ∧ number_of resp = Some (VInt 2) ∧
     sel current_number (db w') = sel current_number (db (world_of empty_db)) ++ [d] ∧
     d !! "id" = Some (VStr "current_number") ∧ d !! "number" = Some (VInt 2)) ∧
  (∃ resp w' d,
     decrement_number (world_of empty_db) = (Ok resp, w') ∧ number_of resp = Some (VInt 1) ∧
     sel current_number (db w') = sel current_number (db (world_of empty_db)) ++ [d] ∧
     d !! "id" = Some (VStr "current_number") ∧ d !! "number" = Some (VInt 1)).
Proof.
  exact (counter_created_on_first_step (world_of empty_db) eq_refl).
Defined.

(** X4. Whatever the store holds, [update_number] with an integer [n]
    of 64 bits succeeds, and the [get_current_number] that follows returns
    the very response of the update, number [n] and the time of the update
    to the millisecond, and leaves the world as it is.  With an integer
    outside that range the update raises [OverflowError] and the store is
    as before. *)
Theorem update_number_then_get (w : World) (n : Z) :
  (int64 n = true →
   ∃ resp w1,
     update_number {[ "number" := VInt n ]} w = (Ok resp, w1) ∧
     resp = number_doc n (ms (clock w (ticks w))) ∧
     get_current_number w1 = (Ok resp, w1)) ∧
  (int64 n = false →
   ∃ w1, update_number {[ "number" := VInt n ]} w = (Raise OverflowError, w1) ∧
         db w1 = db w).
Proof.
  split; [|intros Hn; exists (tick w); by rewrite update_number_eq, write_number_raises].
  intros Hn.
  destruct (write_number_eq (tick w) n (clock w (ticks w)) true) as [Hrun Hst];
    [done | by left |].
  eexists _, _. split; [rewrite update_number_eq; exact Hrun|]. split; [done|].
  change get_current_number with (get_singleton current_number "current_number" CurrentNumber).
  erewrite get_singleton_found by (rewrite db_set_db; exact Hst).
  apply construct_CurrentNumber.
  - rewrite lookup_union_r by done.
    apply (base_doc_id current_number "current_number" (db (tick w))).
  - by apply lookup_union_Some_l.
  - by apply lookup_union_Some_l.
Qed.

Lemma update_number_then_get_witness :
  (∃ resp w1,
     update_number {[ "number" := VInt 42 ]} (world_with_number 5) = (Ok resp, w1) ∧
     resp = number_doc 42 (ms (clock (world_with_number 5) (ticks (world_with_number 5)))) ∧
     get_current_number w1 = (Ok resp, w1)) ∧
  (∃ w1, update_number {[ "number" := VInt (max_int64 + 1) ]} (world_with_number 5)
         = (Raise OverflowError, w1) ∧
         db w1 = db (world_with_number 5)).
Proof.
  split.
  - exact (proj1 (update_number_then_get (world_with_number 5) 42) eq_refl).
  - exact (proj2 (update_number_then_get (world_with_number 5) (max_int64 + 1)) eq_refl).
Defined.

(** ** Creating a slide *)

Lemma instance_of_SlideImageCreate s :
  instance_of SlideImageCreate s = true →
  s !! "id" = None ∧ s !! "created_at" = None ∧
  ∃ img, s !! "image_base64" = Some (VStr img).
Proof.
  intros Hi. split; [|split].
  - destruct (s !! "id") eqn:E; [|done].
    assert (Hs : is_Some (s !! "id")) by by eexists.
    apply (instance_of_dom _ _ _ Hi) in Hs. not_a_field Hs.
  - destruct (s !! "created_at") eqn:E; [|done].
    assert (Hs : is_Some (s !! "created_at")) by by eexists.
    apply (instance_of_dom _ _ _ Hi) in Hs. not_a_field Hs.
  - apply instance_of_conforms in Hi. unfold conforms in Hi. simpl in Hi.
    destruct (s !! "image_base64") as [[]|]; try done. by eexists.
Qed.

Lemma construct_SlideImage_new s w img o :
  s !! "id" = None → s !! "created_at" = None →
  s !! "image_base64" = Some (VStr img) → s !! "order" = Some (VInt o) →
  construct SlideImage s w
  = (Ok (new_slide w img o),
     mkWorld (db w) (clock w) (S (ticks w)) (uuid_src w) (S (drawn w)) (feedparser_parse w)).
Proof.
  intros H1 H2 H3 H4. unfold construct, SlideImage, validate_field. simpl.
  rewrite H1, H2, H3, H4. reflexivity.
Qed.

Lemma new_slide_fit w img o : int64 o = true → bson_ok (new_slide w img o) = true.
Proof. intros Ho. unfold new_slide. by fields_fit. Qed.

Lemma encode_new_slide w img o : encode (new_slide w img o) = stored_slide w img o.
Proof. unfold new_slide. by encode_fields. Qed.

(** What [create_slide] does with a body that carries an image and an
    integer order, according to whether the order fits in 64 bits. *)
Lemma create_slide_eq s w img o :
  instance_of SlideImageCreate s = true →
  s !! "image_base64" = Some (VStr img) → s !! "order" = Some (VInt o) →
  let w1 := mkWorld (db w) (clock w) (S (ticks w)) (uuid_src w) (S (drawn w))
              (feedparser_parse w) in
  create_slide s w
  = if int64 o
    then (Ok (new_slide w img o),
          set_db (upd slide_images (sel slide_images (db w) ++ [stored_slide w img o]) (db w)) w1)
    else (Raise OverflowError, w1).
Proof.
  intros Hi H3 Ho w1. destruct (instance_of_SlideImageCreate s Hi) as (H1 & H2 & _).
  unfold create_slide.
  erewrite bind_ok by by apply construct_SlideImage_new.
  destruct (int64 o) eqn:E.
  - erewrite bind_ok; [|by apply insert_one_eq, new_slide_fit].
    by rewrite encode_new_slide.
  - erewrite bind_raise; [done|]. apply insert_one_raises.
    apply bson_ok_false. intros H. specialize (H "order" (VInt o) eq_refl).
    simpl in H. congruence.
Qed.

(** X5. [create_slide] on a body with an image and an integer order of
    64 bits succeeds: the slide it returns carries a freshly drawn id, the
    image and order of the body and the time of creation; one document is
    appended to the slide collection, which is that slide with the time of
    creation cut to the millisecond, and no other collection changes. *)
Theorem create_slide_appends (s : doc) (w : World) (o : Z) :
  instance_of SlideImageCreate s = true →
  s !! "order" = Some (VInt o) →
  int64 o = true →
  ∃ img w',
    s !! "image_base64" = Some (VStr img) ∧
    create_slide s w = (Ok (new_slide w img o), w') ∧
    sel slide_images (db w') = sel slide_images (db w) ++ [stored_slide w img o] ∧
    (∀ c, c ≠ slide_images → sel c (db w') = sel c (db w)).
Proof.
  intros Hi Ho Hfit. destruct (instance_of_SlideImageCreate s Hi) as (H1 & H2 & img & H3).
  exists img. eexists. split; [done|]. split; [|split].
  - by rewrite (create_slide_eq s w img o), Hfit.
  - by rewrite db_set_db, sel_upd_eq.
  - intros c Hc. rewrite db_set_db. by apply sel_upd_ne.
Qed.

Lemma create_slide_appends_witness :
  ∃ img w',
    slide_body !! "image_base64" = Some (VStr img) ∧
    create_slide slide_body world_fine_clock
      = (Ok (new_slide world_fine_clock img 3), w') ∧
    sel slide_images (db w')
      = sel slide_images (db world_fine_clock) ++ [stored_slide world_fine_clock img 3] ∧
    (∀ c, c ≠ slide_images → sel c (db w') = sel c (db world_fine_clock)).
Proof.
  exact (create_slide_appends slide_body world_fine_clock 3 eq_refl eq_refl eq_refl).
Defined.

(** X6. [create_slide] never writes unless it succeeds: whenever it
    raises, the store is as before; and it does raise on every body whose
    [order] is null, the value SlideImage refuses. *)
Theorem create_slide_failure_writes_nothing (s : doc) (w : World) :
  (∀ e w', create_slide s w = (Raise e, w') → db w' = db w) ∧
  (s !! "order" = Some VNone → ∃ e w', create_slide s w = (Raise e, w')).
Proof.
  split.
  - intros e w' E. unfold create_slide, mbind, M_bind in E.
    pose proof (construct_db SlideImage s w) as Hdb.
    destruct (construct SlideImage s w) as [[obj|e1] w1]; simpl in Hdb.
    + destruct (bson_ok obj) eqn:Hfit.
      * by rewrite insert_one_eq in E.
      * rewrite insert_one_raises in E by done. injection E as _ <-. done.
    + injection E as _ <-. done.
  - intros Ho. unfold create_slide, construct, SlideImage, mbind, M_bind.
    destruct (validate_field _ s w) as [[v1|e1] w1]; [|by eexists _, _].
    destruct (validate_field _ s w1) as [[v2|e2] w2]; [|by eexists _, _].
    unfold validate_field at 1. simpl. rewrite Ho. simpl. by eexists _, _.
Qed.

Lemma create_slide_failure_writes_nothing_witness :
  ∃ e w', create_slide {[ "image_base64" := VStr "x"; "order" := VNone ]} (world_of two_slides)
          = (Raise e, w').
Proof.
  exact (proj2 (create_slide_failure_writes_nothing
                  {[ "image_base64" := VStr "x"; "order" := VNone ]} (world_of two_slides))
           eq_refl).
Defined.

Lemma delete_first_app_None (p : doc → bool) l1 l2 :
  find p l1 = None → delete_first p (l1 ++ l2) = (l1 ++.) <$> delete_first p l2.
Proof.
  induction l1 as [|x l1 IH]; simpl.
  - intros _. by destruct (delete_first p l2).
  - destruct (p x); [done|]. intros H. rewrite IH by done.
    by destruct (delete_first p l2).
Qed.

(** X7. A slide created with an integer order of 64 bits is removed
    again by [delete_slide] on the id of the response, which restores the
    slide collection, provided no slide stored before carries that id. *)
Theorem create_then_delete (s : doc) (w : World) (o : Z) :
  instance_of SlideImageCreate s = true →
  s !! "order" = Some (VInt o) →
  int64 o = true →
  Forall (λ d, ¬ has_id (uuid_src w (drawn w)) d) (sel slide_images (db w)) →
  ∃ obj w1 w2,
    create_slide s w = (Ok obj, w1) ∧
    obj !! "id" = Some (VStr (uuid_src w (drawn w))) ∧
    delete_slide (uuid_src w (drawn w)) w1
      = (Ok {[ "message" := VStr "Slide deleted successfully" ]}, w2) ∧
    db w2 = db w.
Proof.
  intros Hi Ho Hfit Hfresh%find_None_has_id.
  destruct (instance_of_SlideImageCreate s Hi) as (H1 & H2 & img & H3).
  eexists _, _, _. split; [|split; [|split]].
  - by rewrite (create_slide_eq s w img o), Hfit.
  - done.
  - rewrite delete_slide_eq, db_set_db, sel_upd_eq. simpl db.
    rewrite delete_first_app_None by done. simpl.
    rewrite matches_self by done. simpl. reflexivity.
  - rewrite !db_set_db, upd_upd, app_nil_r. simpl db. apply upd_sel.
Qed.

Lemma create_then_delete_witness :
  ∃ obj w1 w2,
    create_slide slide_body (world_of two_slides) = (Ok obj, w1) ∧
    obj !! "id" = Some (VStr (uuid_src (world_of two_slides) (drawn (world_of two_slides)))) ∧
    delete_slide (uuid_src (world_of two_slides) (drawn (world_of two_slides))) w1
      = (Ok {[ "message" := VStr "Slide deleted successfully" ]}, w2) ∧
    db w2 = db (world_of two_slides).
Proof.
  apply (create_then_delete slide_body (world_of two_slides) 3 eq_refl eq_refl eq_refl).
  repeat constructor; vm_compute; discriminate.
Defined.

(** ** Reordering slides *)

Lemma reorder_slides_for_each l :
  reorder_slides l
  = (for_each reorder_item l;; mret {[ "message" := VStr "Slides reordered successfully" ]}).
Proof. reflexivity. Qed.

Lemma bson_ok_singleton_eq k v : bson_ok ({[k := v]} : doc) = encodable v.
Proof.
  destruct (encodable v) eqn:E; [by apply bson_ok_singleton|].
  apply bson_ok_false. intros H. specialize (H k v (lookup_singleton_eq _ _)).
  simpl in H. congruence.
Qed.

(** One entry of a reorder list: a key that is missing raises [KeyError],
    an integer that does not fit raises [OverflowError], and otherwise the
    first slide the id selects, if any, takes the order. *)
Lemma reorder_item_eq item w :
  reorder_item item w
  = match item !! "id", item !! "order" with
    | Some i, Some o =>
        if encodable i && encodable o then
          (Ok tt, set_db (upd slide_images
                            (updated "id" (to_bson i) {[ "order" := to_bson o ]} false
                               (sel slide_images (db w)))
                            (db w)) w)
        else (Raise OverflowError, w)
    | None, _ => (Raise (KeyError "id"), w)
    | Some _, None => (Raise (KeyError "order"), w)
    end.
Proof.
  unfold reorder_item, getitem.
  destruct (item !! "id") as [i|]; [|done].
  erewrite bind_ok by apply ret_eq.
  destruct (item !! "order") as [o|]; [|done].
  erewrite bind_ok by apply ret_eq.
  destruct (encodable i && encodable o) eqn:E.
  - apply andb_true_iff in E as [E1 E2].
    rewrite update_one_eq by (done || by rewrite bson_ok_singleton_eq).
    by rewrite encode_singleton.
  - apply update_one_raises. by rewrite bson_ok_singleton_eq.
Qed.

Lemma updated_no_match k v data l :
  find (matches k v) l = None → updated k v data false l = l.
Proof. intros H. unfold updated. by rewrite update_first_None. Qed.

Lemma updated_set_order i o l :
  updated "id" i {[ "order" := o ]} false l = set_order i o l.
Proof.
  unfold updated. induction l as [|d l IH]; simpl; [done|].
  destruct (matches "id" i d).
  - by rewrite insert_union_singleton_l.
  - destruct (update_first _ _ l) as [l'|]; simpl in *; by rewrite <- IH.
Qed.

Lemma fits_entry (item : doc) i o :
  bson_ok item = true → item !! "id" = Some i → item !! "order" = Some o →
  encodable i && encodable o = true.
Proof.
  intros Hf Hi Ho. apply andb_true_iff. split.
  - by apply (bson_ok_lookup item "id").
  - by apply (bson_ok_lookup item "order").
Qed.

(** A list whose entries all carry both keys and fit is applied in full. *)
Lemma for_each_reorder_eq l w :
  keyed l → fits l →
  for_each reorder_item l w
  = (Ok tt, set_db (upd slide_images (reordered l (sel slide_images (db w))) (db w)) w).
Proof.
  intros Hk. revert w. induction Hk as [|item l [[i Hi] [o Ho]] Hk IH]; intros w Hf; simpl.
  - by rewrite upd_sel, set_db_id.
  - apply Forall_cons in Hf as [Hf1 Hf2].
    erewrite bind_ok.
    2:{ rewrite reorder_item_eq, Hi, Ho, (fits_entry item i o) by done.
        by rewrite updated_set_order. }
    rewrite IH by done. rewrite Hi, Ho. simpl. by rewrite sel_upd_eq, upd_upd.
Qed.

Lemma set_order_no_match i o l :
  find (matches "id" i) l = None → set_order i o l = l.
Proof.
  induction l as [|d l IH]; simpl; [done|].
  destruct (matches "id" i d); [done|]. intros H. by rewrite IH.
Qed.

(** X8. Reorder entries whose id selects no stored slide are silent
    no-ops: when every entry carries both keys, its integers fit in 64
    bits and its id selects no slide, [reorder_slides] returns its success
    message and the world is exactly as before. *)
Theorem reorder_unknown_ids_noop (l : list doc) (w : World) :
  keyed l →
  fits l →
  no_entry_matches l (sel slide_images (db w)) →
  reorder_slides l w = (Ok {[ "message" := VStr "Slides reordered successfully" ]}, w).
Proof.
  intros Hk Hf Hn. rewrite reorder_slides_for_each.
  erewrite bind_ok by by apply for_each_reorder_eq.
  assert (E : reordered l (sel slide_images (db w)) = sel slide_images (db w)).
  { clear Hf. induction Hk as [|item l [[i Hi] [o Ho]] Hk IH]; simpl; [done|].
    apply Forall_cons in Hn as [Hn1 Hn2].
    rewrite Hi, Ho, set_order_no_match by by apply Hn1. by apply IH. }
  by rewrite E, upd_sel, set_db_id.
Qed.

Lemma reorder_unknown_ids_noop_witness :
  reorder_slides [ {[ "id" := VStr "zz"; "order" := VInt 4 ]} ] (world_of two_slides)
  = (Ok {[ "message" := VStr "Slides reordered successfully" ]}, world_of two_slides).
Proof.
  apply (reorder_unknown_ids_noop [ {[ "id" := VStr "zz"; "order" := VInt 4 ]} ]
           (world_of two_slides)).
  - repeat constructor; by eexists.
  - repeat constructor.
  - repeat constructor. intros v Hv. vm_compute in Hv. injection Hv as <-. reflexivity.
Defined.

Lemma for_each_app {A} (f : A → M unit) l1 l2 w w1 :
  for_each f l1 w = (Ok tt, w1) → for_each f (l1 ++ l2) w = for_each f l2 w1.
Proof.
  revert w. induction l1 as [|x l1 IH]; intros w; simpl.
  - by intros [= ->].
  - unfold mbind, M_bind. destruct (f x w) as [[[]|e] w']; [|done]. apply IH.
Qed.

(** X9. [reorder_slides] applies its entries one after the other and
    does not roll back.  When an entry lacks a key, after entries that
    carry both keys and fit in 64 bits, the call raises [KeyError] for the
    first key missing; the slide collection is then the one the entries
    before it produce, each giving its order to the first slide its id
    selects, and the entries after it are not applied.  So a slide that an
    earlier entry selects has the new order although the call failed. *)
Theorem reorder_stops_without_rollback (l1 l2 : list doc) (bad : doc) (k : string) (w : World) :
  keyed l1 →
  fits l1 →
  missing_key bad = Some k →
  ∃ w1,
    reorder_slides (l1 ++ bad :: l2) w = (Raise (KeyError k), w1) ∧
    sel slide_images (db w1) = reordered l1 (sel slide_images (db w)) ∧
    (∀ c, c ≠ slide_images → sel c (db w1) = sel c (db w)) ∧
    (∀ i o d rest, l1 = [ {[ "id" := VStr i; "order" := VInt o ]} ] →
                   sel slide_images (db w) = d :: rest → d !! "id" = Some (VStr i) →
                   sel slide_images (db w1) = <["order" := VInt o]> d :: rest).
Proof.
  intros Hk Hf Hb. pose proof (for_each_reorder_eq l1 w Hk Hf) as E.
  eexists. rewrite !reorder_slides_for_each. split; [|split; [|split]].
  - erewrite bind_raise; [done|].
    rewrite (for_each_app _ _ _ _ _ E). simpl.
    erewrite bind_raise; [done|].
    rewrite reorder_item_eq. unfold missing_key in Hb.
    destruct (bad !! "id"); [destruct (bad !! "order")|]; by simplify_eq.
  - by rewrite db_set_db, sel_upd_eq.
  - intros c Hc. rewrite db_set_db. by apply sel_upd_ne.
  - intros i o d rest -> Hs Hd. rewrite db_set_db, sel_upd_eq, Hs. simpl.
    assert (Hi : ({[ "id" := VStr i; "order" := VInt o ]} : doc) !! "id" = Some (VStr i))
      by done.
    assert (Ho : ({[ "id" := VStr i; "order" := VInt o ]} : doc) !! "order" = Some (VInt o))
      by done.
    rewrite Hi, Ho. simpl. by rewrite (matches_self "id" (VStr i) d Hd).
Qed.

Lemma reorder_stops_without_rollback_witness :
  ∃ w1,
    reorder_slides half_keyed (world_of two_slides) = (Raise (KeyError "order"), w1) ∧
    sel slide_images (db w1)
      = reordered [ {[ "id" := VStr "b"; "order" := VInt 7 ]} ]
          (sel slide_images (db (world_of two_slides))) ∧
    (∀ c, c ≠ slide_images → sel c (db w1) = sel c (db (world_of two_slides))) ∧
    (∀ i o d rest,
       [ ({[ "id" := VStr "b"; "order" := VInt 7 ]} : doc) ]
       = [ {[ "id" := VStr i; "order" := VInt o ]} ] →
       sel slide_images (db (world_of two_slides)) = d :: rest → d !! "id" = Some (VStr i) →
       sel slide_images (db w1) = <["order" := VInt o]> d :: rest).
Proof.
  apply (reorder_stops_without_rollback [ {[ "id" := VStr "b"; "order" := VInt 7 ]} ]
           [ {[ "id" := VStr "a"; "order" := VInt 9 ]} ] {[ "id" := VStr "a" ]} "order"
           (world_of two_slides)).
  - repeat constructor; by eexists.
  - repeat constructor.
  - reflexivity.
Defined.

Lemma same_but_order_refl l : Forall2 same_but_order l l.
Proof. apply Forall2_same_length_lookup. split; [done|]. intros i x y Hx Hy k _. congruence. Qed.

Lemma same_but_order_trans l1 l2 l3 :
  Forall2 same_but_order l1 l2 → Forall2 same_but_order l2 l3 → Forall2 same_but_order l1 l3.
Proof.
  intros H12. revert l3. induction H12 as [|x y l1 l2 Hxy _ IH]; intros l3 H23.
  - by inversion H23.
  - inversion H23 as [|? z ? l3' Hyz H23']; subst. constructor; [|by apply IH].
    intros k Hk. by rewrite (Hyz k Hk), (Hxy k Hk).
Qed.

Lemma updated_same_but_order v o l :
  Forall2 same_but_order l (updated "id" v {[ "order" := o ]} false l).
Proof.
  unfold updated. destruct (find (matches "id" v) l) as [d|] eqn:F.
  - destruct (update_first_Some _ (λ d, {[ "order" := o ]} ∪ d) _ _ F)
      as (l1 & l2 & -> & _ & _ & ->).
    apply Forall2_app; [apply same_but_order_refl|].
    constructor; [|apply same_but_order_refl].
    intros k Hk. rewrite lookup_union_r; [done|]. by apply lookup_singleton_ne.
  - rewrite update_first_None by done. apply same_but_order_refl.
Qed.

Lemma reorder_item_same_but_order item w :
  Forall2 same_but_order (sel slide_images (db w))
    (sel slide_images (db (reorder_item item w).2)).
Proof.
  rewrite reorder_item_eq.
  destruct (item !! "id") as [i|]; [|apply same_but_order_refl].
  destruct (item !! "order") as [o|]; [|apply same_but_order_refl].
  destruct (encodable i && encodable o); [|apply same_but_order_refl].
  simpl. rewrite sel_upd_eq. apply updated_same_but_order.
Qed.

Lemma for_each_reorder_same_but_order l w :
  Forall2 same_but_order (sel slide_images (db w))
    (sel slide_images (db (for_each reorder_item l w).2)).
Proof.
  revert w. induction l as [|item l IH]; intros w; simpl; [apply same_but_order_refl|].
  unfold mbind, M_bind.
  pose proof (reorder_item_same_but_order item w) as H1.
  destruct (reorder_item item w) as [[[]|e] w1]; simpl in *; [|done].
  eapply same_but_order_trans; [exact H1 | apply IH].
Qed.

(** X10. Whatever list it is given, and whether it completes or raises,
    [reorder_slides] neither adds nor removes a slide and changes no
    field of a slide other than [order]; no other collection changes. *)
Theorem reorder_changes_order_only (l : list doc) (w : World) :
  Forall2 same_but_order (sel slide_images (db w))
    (sel slide_images (db (reorder_slides l w).2)) ∧
  (∀ c, c ≠ slide_images → sel c (db (reorder_slides l w).2) = sel c (db w)).
Proof.
  split; [|intros c Hc; by apply keeps_reorder_slides].
  rewrite reorder_slides_for_each. unfold mbind, M_bind.
  pose proof (for_each_reorder_same_but_order l w) as H.
  by destruct (for_each reorder_item l w) as [[[]|e] w1].
Qed.

(** ** Slides stay listable *)

Lemma conforms_union m (data d : doc) :
  typed_for m data → conforms m d = true → conforms m (data ∪ d) = true.
Proof.
  unfold conforms. rewrite !forallb_forall. intros Ht Hd f Hf.
  specialize (Hd f Hf). rewrite lookup_union.
  destruct (data !! f_name f) as [v|] eqn:E.
  - apply list_elem_of_In in Hf. rewrite union_Some_l. by eapply Ht.
  - by rewrite (left_id None _).
Qed.

Lemma order_typed (z : Z) : typed_for SlideImage {[ "order" := VInt z ]}.
Proof.
  intros f v Hf%list_elem_of_In Hv. simpl in Hf.
  destruct Hf as [<-|[<-|[<-|[<-|Hf]]]]; [| | | |done]; simpl in Hv; try done.
  by injection Hv as <-.
Qed.

Lemma updated_conform v (z : Z) l :
  Forall (λ x, conforms SlideImage x = true) l →
  Forall (λ x, conforms SlideImage x = true) (updated "id" v {[ "order" := VInt z ]} false l).
Proof.
  intros Hl. unfold updated. destruct (find (matches "id" v) l) as [d|] eqn:F.
  - destruct (update_first_Some _ (λ d, {[ "order" := VInt z ]} ∪ d) _ _ F)
      as (l1 & l2 & -> & _ & _ & ->).
    apply Forall_app in Hl as [H1 H2]. apply Forall_cons in H2 as [H2 H3].
    apply Forall_app. split; [done|]. apply Forall_cons. split; [|done].
    apply conforms_union; [apply order_typed | done].
  - by rewrite update_first_None.
Qed.

Lemma for_each_reorder_conform l w :
  integer_orders l → slides_conform (db w) →
  slides_conform (db (for_each reorder_item l w).2).
Proof.
  intros Hl. revert w. induction Hl as [|item l Hi Hl IH]; intros w Hw; simpl; [done|].
  unfold mbind, M_bind. rewrite reorder_item_eq.
  destruct (item !! "id") as [i|]; [|done].
  destruct (item !! "order") as [o|] eqn:Ho; [|done].
  destruct (Hi o eq_refl) as [z ->].
  destruct (encodable i && encodable (VInt z)); [|done].
  apply IH. unfold slides_conform. rewrite db_set_db, sel_upd_eq. by apply updated_conform.
Qed.

Lemma delete_first_Forall (P : doc → Prop) p l l' :
  delete_first p l = Some l' → Forall P l → Forall P l'.
Proof.
  revert l'. induction l as [|x l IH]; intros l'; simpl; [done|].
  intros E [Hx Hl]%Forall_cons. destruct (p x).
  - by injection E as <-.
  - destruct (delete_first p l) as [l0|]; [|done]. injection E as <-.
    apply Forall_cons. split; [done | by apply IH].
Qed.

(** X11. The slide handlers keep the slides listable.  In a state whose
    slides all conform to SlideImage, so it is after [create_slide] on a
    body with an integer order, after [delete_slide], and after
    [reorder_slides] with integer orders; and the [get_slides] that
    follows a reorder succeeds, returns as many slides as were stored (up
    to the cap) and has them in non-decreasing order of the new orders:
    when every entry carries both keys and fits in 64 bits, it lists the
    slides in which each entry, in turn, has given its order to the first
    slide its id selects. *)
Theorem slides_stay_listable (w : World) :
  slides_conform (db w) →
  (∀ s o, instance_of SlideImageCreate s = true → s !! "order" = Some (VInt o) →
          slides_conform (db (create_slide s w).2)) ∧
  (∀ slide_id, slides_conform (db (delete_slide slide_id w).2)) ∧
  (∀ l, integer_orders l →
        slides_conform (db (reorder_slides l w).2) ∧
        ∃ resp, get_slides (reorder_slides l w).2 = (Ok resp, (reorder_slides l w).2) ∧
                StronglySorted by_order resp ∧
                length resp = (100 `min` length (sel slide_images (db w)))%nat ∧
                (keyed l → fits l →
                 resp = project SlideImage
                          <$> take 100 (sort_by "order" (reordered l (sel slide_images (db w)))))) ∧
  (∀ i o d rest,
     sel slide_images (db w) = d :: rest → d !! "id" = Some (VStr i) → int64 o = true →
     let w' := (reorder_slides [ {[ "id" := VStr i; "order" := VInt o ]} ] w).2 in
     sel slide_images (db w') = <["order" := VInt o]> d :: rest ∧
     get_slides w'
     = (Ok (project SlideImage
              <$> take 100 (sort_by "order" (<["order" := VInt o]> d :: rest))), w')).
Proof.
  intros Hw.
  assert (Hr : ∀ l, integer_orders l → slides_conform (db (reorder_slides l w).2)).
  { intros l Hl. rewrite reorder_slides_for_each. unfold mbind, M_bind.
    pose proof (for_each_reorder_conform l w Hl Hw) as H.
    by destruct (for_each reorder_item l w) as [[[]|e] w1]. }
  split; [|split; [|split]].
  - intros s o Hi Ho. destruct (instance_of_SlideImageCreate s Hi) as (H1 & H2 & img & H3).
    rewrite (create_slide_eq s w img o) by done.
    destruct (int64 o); [|exact Hw].
    unfold slides_conform. simpl. rewrite sel_upd_eq.
    apply Forall_app. split; [exact Hw|]. by repeat constructor.
  - intros slide_id. rewrite delete_slide_eq.
    destruct (delete_first _ _) as [l'|] eqn:E; [|done].
    unfold slides_conform. simpl. rewrite sel_upd_eq.
    by eapply delete_first_Forall.
  - intros l Hl. pose proof (Hr l Hl) as Hc.
    split; [done|]. eexists. split; [by apply get_slides_eq|]. split; [|split].
    + apply project_sorted.
      assert (Hs : StronglySorted by_order
                     (sort_by "order" (sel slide_images (db (reorder_slides l w).2)))).
      { apply sort_by_sorted. eapply Forall_impl; [exact Hc|].
        intros d. apply conforms_SlideImage_order. }
      rewrite <- (take_drop 100 (sort_by _ _)) in Hs. by apply StronglySorted_app_1_l in Hs.
    + rewrite length_fmap, length_take, sort_by_perm.
      pose proof (for_each_reorder_same_but_order l w) as H.
      apply Forall2_length in H. rewrite H, reorder_slides_for_each.
      unfold mbind, M_bind. by destruct (for_each reorder_item l w) as [[[]|e] w1].
    + intros Hk Hf. rewrite reorder_slides_for_each.
      erewrite bind_ok by by apply for_each_reorder_eq.
      simpl. by rewrite sel_upd_eq.
  - intros i o d rest Hs Hd Ho w'.
    assert (Hi : ({[ "id" := VStr i; "order" := VInt o ]} : doc) !! "id" = Some (VStr i))
      by done.
    assert (Hor : ({[ "id" := VStr i; "order" := VInt o ]} : doc) !! "order" = Some (VInt o))
      by done.
    assert (Hl : integer_orders [ {[ "id" := VStr i; "order" := VInt o ]} ]).
    { repeat constructor. intros v Hv. rewrite Hor in Hv. injection Hv as <-. by eexists. }
    assert (E : sel slide_images (db w') = <["order" := VInt o]> d :: rest).
    { unfold w'. rewrite reorder_slides_for_each.
      erewrite bind_ok.
      2:{ apply for_each_reorder_eq.
          - repeat constructor; by eexists.
          - repeat constructor. by fields_fit. }
      simpl. rewrite sel_upd_eq, Hi, Hor, Hs. simpl.
      by rewrite (matches_self "id" (VStr i) d Hd). }
    split; [done|]. rewrite <- E. apply get_slides_eq, (Hr _ Hl).
Qed.

Lemma slides_stay_listable_witness :
  (∀ s o, instance_of SlideImageCreate s = true → s !! "order" = Some (VInt o) →
          slides_conform (db (create_slide s (world_of two_slides)).2)) ∧
  (∀ slide_id, slides_conform (db (delete_slide slide_id (world_of two_slides)).2)) ∧
  (∀ l, integer_orders l →
        slides_conform (db (reorder_slides l (world_of two_slides)).2) ∧
        ∃ resp, get_slides (reorder_slides l (world_of two_slides)).2
                = (Ok resp, (reorder_slides l (world_of two_slides)).2) ∧
                StronglySorted by_order resp ∧
                length resp
                = (100 `min` length (sel slide_images (db (world_of two_slides))))%nat ∧
                (keyed l → fits l →
                 resp = project SlideImage
                          <$> take 100 (sort_by "order"
                                 (reordered l (sel slide_images (db (world_of two_slides))))))) ∧
  (∀ i o d rest,
     sel slide_images (db (world_of two_slides)) = d :: rest →
     d !! "id" = Some (VStr i) → int64 o = true →
     let w' := (reorder_slides [ {[ "id" := VStr i; "order" := VInt o ]} ]
                  (world_of two_slides)).2 in
     sel slide_images (db w') = <["order" := VInt o]> d :: rest ∧
     get_slides w'
     = (Ok (project SlideImage
              <$> take 100 (sort_by "order" (<["order" := VInt o]> d :: rest))), w')).
Proof.
  apply (slides_stay_listable (world_of two_slides)).
  repeat constructor.
Defined.

(** ** The news feed when the fetch succeeds *)

Lemma news_item_ok entry w :
  ¬ malformed entry →
  ∃ item, news_item entry w = (Ok item, w) ∧ item_of_entry entry item.
Proof.
  intros Hm. unfold news_item, getattr.
  destruct (entry !! "title") as [t|] eqn:Ht; [|exfalso; apply Hm; by left].
  destruct (entry !! "link") as [l|] eqn:Hl; [|exfalso; apply Hm; by right].
  eexists. split; [reflexivity|].
  unfold item_of_entry. rewrite Ht, Hl.
  split; [by eexists|]. split; [done|]. split; [by eexists|]. split; [done|].
  split; [done|]. by rewrite !dom_insert_L, dom_singleton_L.
Qed.

Lemma mapM_news_ok l w :
  Forall (λ entry, ¬ malformed entry) l →
  ∃ items, mapM news_item l w = (Ok items, w) ∧ Forall2 item_of_entry l items.
Proof.
  induction 1 as [|entry l He Hl (items & E & IH)]; simpl.
  - by exists [].
  - destruct (news_item_ok entry w He) as (item & E1 & H1).
    exists (item :: items). erewrite bind_ok by exact E1. erewrite bind_ok by exact E.
    split; [done | by constructor].
Qed.

(** X12. When the fetch returns entries and each of the first twenty has
    a title and a link, [get_news_feed] returns no [error] and one item
    for each of the first twenty entries, in feed order, with the title
    and link of the entry and its [published] text, or the empty string
    when the entry has none; later entries are dropped. *)
Theorem get_news_feed_top_twenty (w : World) (entries : list doc) :
  feedparser_parse w (rss_url_of (db w)) = Ok entries →
  Forall (λ entry, ¬ malformed entry) (take 20 entries) →
  ∃ items, get_news_feed w = (Ok (mkNews items None), w) ∧
           Forall2 item_of_entry (take 20 entries) items ∧
           length items = (20 `min` length entries)%nat.
Proof.
  intros Hp Hf. destruct (mapM_news_ok _ w Hf) as (items & E & H2).
  exists items. split; [|split; [done|]].
  - by rewrite get_news_feed_eq, Hp, E.
  - by rewrite <- (Forall2_length _ _ _ H2), length_take.
Qed.

Lemma get_news_feed_top_twenty_witness :
  ∃ items, get_news_feed (world_with_feed long_feed)
           = (Ok (mkNews items None), world_with_feed long_feed) ∧
           Forall2 item_of_entry (take 20 long_feed) items ∧
           length items = (20 `min` length long_feed)%nat.
Proof.
  apply (get_news_feed_top_twenty (world_with_feed long_feed) long_feed).
  - reflexivity.
  - repeat constructor; intros [H|H]; vm_compute in H; discriminate.
Defined.

(** ** What a PUT leaves in the store *)

Lemma PUT_stored r body w :
  instance_of (update_model r) body = true →
  bson_ok (put_data r body (clock w (ticks w))) = true →
  singleton_doc (collection r) (key r) (db (PUT r body w).2)
  = Some (put_data r body (ms (clock w (ticks w)))
            ∪ base_doc (key r) (singleton_doc (collection r) (key r) (db w))).
Proof.
  intros Hi Hfit. rewrite PUT_run, construct_db, db_set_db by done.
  set (w0 := if stamps r then tick w else w).
  assert (Hdb : db w0 = db w) by (unfold w0; by destruct (stamps r)).
  destruct (upsert_then_read_eq (collection r) (key r) (model_of r)
              (put_data r body (clock w (ticks w))) w0) as [_ Hst].
  { by apply put_data_id. }
  { done. }
  rewrite encode_put_data in Hst by done.
  by rewrite Hdb in Hst.
Qed.

Lemma PUT_stored_supplied r body w k v :
  instance_of (update_model r) body = true →
  bson_ok body = true →
  supplied body k = Some v →
  ∃ stored, singleton_doc (collection r) (key r) (db (PUT r body w).2) = Some stored ∧
            stored !! k = Some v.
Proof.
  intros Hi Hfit Hs. eexists. split; [by apply PUT_stored, put_data_fit|].
  apply lookup_union_Some_l. by rewrite put_data_lookup, Hs.
Qed.

(** The body of PUT /config holds strings only, which always encode. *)
Lemma config_body_fit body :
  instance_of AppConfigUpdate body = true → bson_ok body = true.
Proof.
  intros Hi. apply bson_ok_spec. intros k v Hk.
  assert (Hin : k ∈ f_name <$> AppConfigUpdate) by by eapply instance_of_dom.
  destruct (field_named_is_Some _ _ Hin) as [uf Huf].
  pose proof (conforms_named _ _ _ _ _ (instance_of_conforms _ _ Hi) Huf Hk) as Hc.
  destruct (field_named_Some _ _ _ Huf) as [Hf%list_elem_of_In _].
  destruct v; try done. simpl in Hc, Hf.
  intuition (subst; discriminate).
Qed.

(** ** Which URL the news feed fetches *)

Lemma news_item_world x w w' : news_item x w = ((news_item x w').1, w).
Proof.
  unfold news_item, getattr, mbind, M_bind.
  destruct (x !! "title"); [|done]. by destruct (x !! "link").
Qed.

Lemma mapM_news_world l w w' : mapM news_item l w = ((mapM news_item l w').1, w).
Proof.
  revert w w'. induction l as [|x l IH]; intros w w'; simpl; [done|].
  unfold mbind, M_bind. rewrite (news_item_world x w w').
  destruct (news_item x w') as [[y|e] w1]; simpl; [|done].
  fold (@mapM doc doc). rewrite (IH w w1).
  by destruct (mapM news_item l w1) as [[ys|e] w2].
Qed.

Lemma get_news_feed_with_feed fp w :
  fp (rss_url_of (db w)) = feedparser_parse w (rss_url_of (db w)) →
  (get_news_feed (with_feed fp w)).1 = (get_news_feed w).1.
Proof.
  intros H. rewrite !get_news_feed_eq. simpl. rewrite H.
  destruct (feedparser_parse w _) as [entries|e]; [|done].
  rewrite (mapM_news_world _ (with_feed fp w) w).
  by destruct (mapM news_item (take 20 entries) w) as [[]].
Qed.

(** X13. [get_news_feed] consults the fetcher at one URL only.  After
    [update_config] has supplied [rss_feed_url], that URL is the one
    fetched: any fetcher that agrees with the current one there gives the
    same response.  On a store without a config document the hardcoded
    default URL is the one fetched. *)
Theorem news_fetches_configured_url (w : World) (fp : value → Result (list doc)) :
  (∀ body u,
     instance_of AppConfigUpdate body = true →
     supplied body "rss_feed_url" = Some (VStr u) →
     fp (VStr u) = feedparser_parse (update_config body w).2 (VStr u) →
     (get_news_feed (with_feed fp (update_config body w).2)).1
     = (get_news_feed (update_config body w).2).1) ∧
  (singleton_doc app_config "main_config" (db w) = None →
   fp (VStr DEFAULT_RSS) = feedparser_parse w (VStr DEFAULT_RSS) →
   (get_news_feed (with_feed fp w)).1 = (get_news_feed w).1).
Proof.
  split.
  - intros body u Hi Hs Hfp. apply get_news_feed_with_feed.
    destruct (PUT_stored_supplied RAppConfig body w _ _ Hi (config_body_fit _ Hi) Hs)
      as (stored & E & Hu).
    change (PUT RAppConfig body) with (update_config body) in E.
    unfold rss_url_of. simpl in E. rewrite E. unfold dict_get. rewrite Hu. exact Hfp.
  - intros Hnone Hfp. apply get_news_feed_with_feed.
    unfold rss_url_of. by rewrite Hnone.
Qed.

Lemma news_fetches_configured_url_witness :
  (get_news_feed (with_feed example_only
                    (update_config feed_only (world_with_feed long_feed)).2)).1
  = (get_news_feed (update_config feed_only (world_with_feed long_feed)).2).1 ∧
  (get_news_feed (with_feed default_only (world_with_feed long_feed))).1
  = (get_news_feed (world_with_feed long_feed)).1.
Proof.
  split.
  - exact (proj1 (news_fetches_configured_url (world_with_feed long_feed) example_only)
             feed_only "https://example.org/rss" eq_refl eq_refl eq_refl).
  - exact (proj2 (news_fetches_configured_url (world_with_feed long_feed) default_only)
             eq_refl eq_refl).
Defined.

(** ** The weather *)

Lemma get_weather_eq w :
  ∃ resp, get_weather w = (Ok resp, w) ∧
          city resp = match singleton_doc app_config "main_config" (db w) with
                      | Some config => dict_get config "city" (VStr "ROMA")
                      | None => VStr "ROMA"
                      end ∧
          length (forecast resp) = 6%nat.
Proof.
  unfold get_weather. erewrite bind_ok by apply find_one_eq. unfold singleton_doc.
  destruct (find _ _) as [config|] eqn:F.
  - rewrite (truthy_found _ _ _ _ F). by eexists.
  - by eexists.
Qed.

(** X14. [get_weather] always answers, with six forecast days, and never
    changes the world.  The city it reports is the one last supplied to
    [update_config]; on a store without a config document it is ROMA. *)
Theorem get_weather_city (w : World) :
  (∃ resp, get_weather w = (Ok resp, w) ∧ length (forecast resp) = 6%nat) ∧
  (∀ body c,
     instance_of AppConfigUpdate body = true →
     supplied body "city" = Some (VStr c) →
     ∃ resp, get_weather (update_config body w).2 = (Ok resp, (update_config body w).2) ∧
             city resp = VStr c) ∧
  (singleton_doc app_config "main_config" (db w) = None →
   ∃ resp, get_weather w = (Ok resp, w) ∧ city resp = VStr "ROMA").
Proof.
  split; [|split].
  - destruct (get_weather_eq w) as (resp & E & _ & Hl). by exists resp.
  - intros body c Hi Hs.
    destruct (get_weather_eq (update_config body w).2) as (resp & E & Hc & _).
    exists resp. split; [done|]. rewrite Hc.
    destruct (PUT_stored_supplied RAppConfig body w _ _ Hi (config_body_fit _ Hi) Hs)
      as (stored & Est & Hu).
    change (PUT RAppConfig body) with (update_config body) in Est.
    simpl in Est. rewrite Est. unfold dict_get. by rewrite Hu.
  - intros Hnone. destruct (get_weather_eq w) as (resp & E & Hc & _).
    exists resp. split; [done|]. by rewrite Hc, Hnone.
Qed.

Lemma get_weather_city_witness :
  (∃ resp, get_weather (update_config city_only (world_of empty_db)).2
           = (Ok resp, (update_config city_only (world_of empty_db)).2) ∧
           city resp = VStr "MILANO") ∧
  (∃ resp, get_weather (world_of empty_db) = (Ok resp, world_of empty_db) ∧
           city resp = VStr "ROMA").
Proof.
  split.
  - exact (proj1 (proj2 (get_weather_city (world_of empty_db)))
             city_only "MILANO" eq_refl eq_refl).
  - exact (proj2 (proj2 (get_weather_city (world_of empty_db))) eq_refl).
Defined.

(** ** One document per singleton *)

Lemma single_keyed_find r l :
  single_keyed r l →
  find (matches "id" (VStr (key r))) l = head l.
Proof.
  intros [->|(x & -> & Hx)]; [done|]. simpl. by rewrite matches_self.
Qed.

Lemma updated_single r data upsert l :
  data !! "id" = None →
  single_keyed r l →
  single_keyed r (updated "id" (VStr (key r)) data upsert l).
Proof.
  intros Hd [->|(x & -> & Hx)]; unfold updated; simpl.
  - destruct upsert; [|by left]. right. eexists. split; [done|].
    rewrite lookup_union_r by done. apply lookup_singleton_eq.
  - rewrite matches_self by done. right. eexists. split; [done|].
    by rewrite lookup_union_r.
Qed.

Lemma singletons_unique_upd r l d :
  singletons_unique d → single_keyed r l → singletons_unique (upd (collection r) l d).
Proof.
  intros Hu Hl r'. destruct (decide (r = r')) as [<-|Hr].
  - by rewrite sel_upd_eq.
  - rewrite sel_upd_ne; [apply Hu|]. intros E. by apply collection_inj in E.
Qed.

Lemma singletons_unique_keeps {A} (m : M A) w :
  keeps slide_images m → singletons_unique (db w) → singletons_unique (db (m w).2).
Proof. intros Hk Hu r. rewrite Hk by apply collection_ne_slides. apply Hu. Qed.

Lemma GET_unique r w :
  singletons_unique (db w) → singletons_unique (db (GET r w).2).
Proof.
  intros Hu. rewrite GET_get_singleton.
  destruct (singleton_doc (collection r) (key r) (db w)) as [cur|] eqn:E.
  - rewrite (get_singleton_found _ _ _ _ cur E). by rewrite construct_db.
  - destruct (construct_defaults r w) as (w' & Hc & Hdb).
    rewrite (get_singleton_absent _ _ _ _ _ _ E Hc (defaults_fit r w)). simpl. rewrite Hdb.
    apply singletons_unique_upd; [done|].
    unfold singleton_doc in E. rewrite (single_keyed_find r _ (Hu r)) in E.
    destruct (sel (collection r) (db w)); [|done].
    right. eexists. split; [done | apply encode_defaults_id].
Qed.

Lemma PUT_unique r body w :
  instance_of (update_model r) body = true →
  singletons_unique (db w) → singletons_unique (db (PUT r body w).2).
Proof.
  intros Hi Hu. destruct (bson_ok (put_data r body (clock w (ticks w)))) eqn:Hfit.
  - rewrite PUT_run, construct_db, db_set_db by done.
    apply singletons_unique_upd; [done|].
    apply updated_single; [by apply put_data_id | apply Hu].
  - by rewrite PUT_refused_db.
Qed.

Lemma number_written_unique d n t upsert :
  singletons_unique d →
  singletons_unique
    (upd current_number
       (updated "id" (VStr "current_number") (number_data n t) upsert (sel current_number d)) d).
Proof.
  intros Hu. apply (singletons_unique_upd RCurrentNumber); [done|].
  apply (updated_single RCurrentNumber); [done | apply (Hu RCurrentNumber)].
Qed.

Lemma step_number_unique (op : value → M value) (g : Z → Z) w :
  (∀ z w', op (VInt z) w' = (Ok (VInt (g z)), w')) →
  int64 (g 1) = true →
  singletons_valid (db w) → singletons_unique (db w) →
  singletons_unique (db (step_number op w).2).
Proof.
  intros Hop H1 Hv Hu.
  destruct (singleton_doc current_number "current_number" (db w)) as [cur|] eqn:E.
  - destruct (valid_number cur) as [n Hn].
    { by apply (singleton_doc_valid RCurrentNumber (db w)). }
    destruct (int64 (g n)) eqn:Hg.
    + destruct (step_number_found op w cur (g n) E) as [Hrun _]; [by rewrite Hn | done |].
      rewrite Hrun. simpl. by apply number_written_unique.
    + rewrite (step_number_refused op w cur (g n) E); [done | by rewrite Hn | done].
  - destruct (step_number_absent op w (g 1) E) as [Hrun _]; [by intros w' | done |].
    rewrite Hrun. simpl.
    apply (singletons_unique_upd RCurrentNumber); [done|].
    unfold singleton_doc in E.
    pose proof (single_keyed_find RCurrentNumber _ (Hu RCurrentNumber)) as Hf.
    change (key RCurrentNumber) with "current_number" in Hf.
    change (collection RCurrentNumber) with current_number in Hf.
    rewrite Hf in E. destruct (sel current_number (db w)); [|done].
    right. eexists. split; [done|]. done.
Qed.

Lemma handle_unique q w :
  well_formed q = true →
  singletons_valid (db w) → singletons_unique (db w) →
  singletons_unique (db (handle q w).2).
Proof.
  intros Hq Hv Hu. destruct q; simpl in Hq; unfold handle; rewrite fmap_world.
  - apply (GET_unique RAppConfig w Hu).
  - apply (PUT_unique RAppConfig _ w Hq Hu).
  - apply singletons_unique_keeps; [apply keeps_get_slides | done].
  - apply singletons_unique_keeps; [apply keeps_create_slide | done].
  - apply singletons_unique_keeps; [apply keeps_delete_slide | done].
  - apply singletons_unique_keeps; [apply keeps_reorder_slides | done].
  - apply (GET_unique RSlideSettings w Hu).
  - apply (PUT_unique RSlideSettings _ w Hq Hu).
  - apply (GET_unique RCurrentNumber w Hu).
  - apply (PUT_unique RCurrentNumber _ w Hq Hu).
  - rewrite increment_number_step. by apply (step_number_unique py_add1 (λ z, z + 1)).
  - rewrite decrement_number_step.
    by apply (step_number_unique decrement_op (λ z, Z.max 1 (z - 1))).
  - rewrite reset_number_eq.
    destruct (write_number_eq (tick w) 1 (clock w (ticks w)) true) as [Hrun _];
      [done | by left |].
    rewrite Hrun. simpl. by apply number_written_unique.
  - by rewrite get_news_feed_world.
  - apply (GET_unique RBluetoothRemote w Hu).
  - apply (PUT_unique RBluetoothRemote _ w Hq Hu).
  - apply (GET_unique RVoiceSettings w Hu).
  - apply (PUT_unique RVoiceSettings _ w Hq Hu).
Qed.

Lemma reachable_unique w : reachable w → singletons_unique (db w).
Proof.
  induction 1 as [w E | q w Hr IH Hq].
  - rewrite E. intros r. left. by destruct r.
  - apply handle_unique; [done | by apply reachable_valid | done].
Qed.

Lemma get_singleton_resume_eq c k m :
  get_singleton c k m = (found ← find_one c "id" (VStr k); get_singleton_resume c m found).
Proof. reflexivity. Qed.

(** Outside [reachable]: two first GETs of the config that interleave both
    find the collection empty, and each inserts its own document. *)
Lemma interleaved_gets_store_two :
  length (sel app_config
            (db (two_gets_interleaved app_config "main_config" AppConfig (world_of empty_db)).2))
  = 2%nat.
Proof. vm_compute. reflexivity. Qed.

(** X15. When requests are handled one after the other, each handler
    running to its end before the next one starts, each singleton exists
    at most once: in every state reached that way from the empty store,
    each of the five singleton collections holds at most one document, and
    that document carries the fixed id of its resource.  (Handlers that
    interleave at an [await] are outside [reachable]: two first GETs that
    both find the collection empty would each insert a document.) *)
Theorem singletons_exist_once (w : World) (r : resource) :
  reachable w →
  (length (sel (collection r) (db w)) ≤ 1)%nat ∧
  Forall (λ d, d !! "id" = Some (VStr (key r))) (sel (collection r) (db w)).
Proof.
  intros Hr. destruct (reachable_unique w Hr r) as [->|(x & -> & Hx)].
  - split; [simpl; lia | constructor].
  - split; [simpl; lia | by repeat constructor].
Qed.

Lemma singletons_exist_once_witness :
  (length (sel (collection RVoiceSettings) (db world_after_three)) ≤ 1)%nat ∧
  Forall (λ d, d !! "id" = Some (VStr (key RVoiceSettings)))
    (sel (collection RVoiceSettings) (db world_after_three)).
Proof.
  exact (singletons_exist_once world_after_three RVoiceSettings
           (reachable_step PostIncrement _
              (reachable_step (PutVoice language_only) _
                 (reachable_step GetConfig _
                    (reachable_start (world_of empty_db) eq_refl) eq_refl) eq_refl) eq_refl)).
Defined.

(** X16. Singleton GETs never fail: in every state reachable from the
    empty store through the endpoints, each of the five GET handlers
    returns a document. *)
Theorem singleton_get_never_fails (w : World) (r : resource) :
  reachable w → ∃ resp w', GET r w = (Ok resp, w').
Proof. intros Hr. by apply GET_succeeds, reachable_valid. Qed.

Lemma singleton_get_never_fails_witness :
  ∃ resp w', GET RAppConfig world_after_three = (Ok resp, w').
Proof.
  exact (singleton_get_never_fails world_after_three RAppConfig
           (reachable_step PostIncrement _
              (reachable_step (PutVoice language_only) _
                 (reachable_step GetConfig _
                    (reachable_start (world_of empty_db) eq_refl) eq_refl) eq_refl) eq_refl)).
Defined.

(** ** Reading back what a PUT wrote *)

Lemma put_merged_conforms r body now cur :
  instance_of (update_model r) body = true →
  conforms (model_of r) cur = true →
  conforms (model_of r) (put_data r body now ∪ cur) = true.
Proof. intros Hi Hc. apply conforms_union; [by apply put_data_typed | done]. Qed.

(** X17. Read your writes: when the stored document of a singleton has
    every field of its model, a PUT whose integers fit in 64 bits succeeds
    and the GET that follows returns exactly the response of the PUT and
    leaves the world as it is. *)
Theorem put_then_get (r : resource) (body : doc) (w : World) (cur : doc) :
  instance_of (update_model r) body = true →
  bson_ok body = true →
  singleton_doc (collection r) (key r) (db w) = Some cur →
  conforms (model_of r) cur = true →
  ∃ resp w1, PUT r body w = (Ok resp, w1) ∧ GET r w1 = (Ok resp, w1).
Proof.
  intros Hi Hfit Hcur Hc.
  pose proof (put_merged_conforms r body (ms (clock w (ticks w))) cur Hi Hc) as Hm.
  pose proof (put_data_fit r body (clock w (ticks w)) Hfit) as Hfit'.
  pose proof (PUT_stored r body w Hi Hfit') as Hst. rewrite Hcur in Hst. simpl in Hst.
  rewrite PUT_run in * by done. rewrite Hcur in *. simpl base_doc in *.
  rewrite construct_pure in * by by apply conforms_field_ok.
  eexists _, _. split; [done|]. simpl in Hst.
  rewrite GET_get_singleton. erewrite get_singleton_found by exact Hst.
  apply construct_pure. by apply conforms_field_ok.
Qed.

Lemma put_then_get_witness :
  ∃ resp w1,
    PUT RAppConfig city_only world_with_config = (Ok resp, w1) ∧
    GET RAppConfig w1 = (Ok resp, w1).
Proof.
  exact (put_then_get RAppConfig city_only world_with_config
           (defaults RAppConfig (world_of empty_db)) eq_refl eq_refl eq_refl eq_refl).
Defined.

(** ** A PUT repeated *)

Lemma updated_idemp k v data l :
  data !! k = None →
  updated k v data true (updated k v data true l) = updated k v data true l.
Proof.
  intros Hk. destruct (find (matches k v) l) as [d|] eqn:F.
  - destruct (update_first_Some _ (λ d, data ∪ d) _ _ F) as (l1 & l2 & -> & H1 & H2 & E).
    assert (U : updated k v data true (l1 ++ d :: l2) = l1 ++ (data ∪ d) :: l2)
      by (unfold updated; by rewrite E).
    rewrite U. unfold updated. rewrite update_first_app_None by done. simpl.
    rewrite matches_union, H2 by done. simpl.
    by rewrite (assoc_L (∪)), (idemp_L (∪)).
  - rewrite (updated_absent _ _ _ _ F).
    unfold updated. rewrite update_first_app_None by done. simpl.
    rewrite matches_union by done. rewrite matches_self by apply lookup_singleton_eq.
    simpl. by rewrite (assoc_L (∪)), (idemp_L (∪)).
Qed.

Lemma validate_field_defaulted f kw w w' :
  (∃ v, f_default f = Default v) →
  validate_field f kw w = ((validate_field f kw w').1, w).
Proof.
  intros [v Hv]. unfold validate_field, default_value. rewrite Hv.
  destruct (kw !! f_name f) as [x|]; [|done]. by destruct (check f x).
Qed.

Lemma construct_defaulted m kw w w' :
  Forall (λ f, ∃ v, f_default f = Default v) m →
  construct m kw w = ((construct m kw w').1, w).
Proof.
  intros Hm. revert w. induction Hm as [|f m Hf Hm IH]; intros w; simpl; [done|].
  unfold mbind, M_bind.
  pose proof (validate_field_defaulted f kw w w' Hf) as E1.
  pose proof (validate_field_defaulted f kw w' w' Hf) as E2.
  destruct (validate_field f kw w') as [rf wf]; simpl in E1, E2.
  injection E2 as ->. rewrite E1. destruct rf as [v|e]; [|done].
  pose proof (IH w) as I1. pose proof (IH w') as I2.
  destruct (construct m kw w') as [rc wc]; simpl in I1, I2.
  injection I2 as ->. rewrite I1. by destruct rc.
Qed.

(** X18. On the three resources whose PUT does not stamp a time
    (SlideSettings, BluetoothRemote, VoiceSettings), the same PUT sent
    again changes nothing: it returns the same result and leaves the
    world the first PUT produced. *)
Theorem put_twice (r : resource) (body : doc) (w : World) :
  stamps r = false →
  instance_of (update_model r) body = true →
  PUT r body (PUT r body w).2 = ((PUT r body w).1, (PUT r body w).2).
Proof.
  intros Hs Hi.
  assert (Hall : Forall (λ f, ∃ v, f_default f = Default v) (model_of r)).
  { apply Forall_forall. intros f Hf. by apply (all_defaulted r). }
  assert (Hd : ∀ now, put_data r body now = not_none_items body) by (intros; by destruct r).
  assert (Hid : not_none_items body !! "id" = None).
  { rewrite <- (Hd 0). by apply put_data_id. }
  destruct (bson_ok (not_none_items body)) eqn:Hfit.
  2:{ assert (E : ∀ w0, PUT r body w0 = (Raise OverflowError, w0)).
      { intros w0. rewrite PUT_refused by (done || by rewrite Hd). by rewrite Hs. }
      by rewrite !E. }
  assert (Hfit' : ∀ w0, bson_ok (put_data r body (clock w0 (ticks w0))) = true)
    by (intros; by rewrite Hd).
  pose proof (PUT_stored r body w Hi (Hfit' _)) as Hst. rewrite Hd in Hst.
  rewrite (PUT_run r body (PUT r body w).2) by done.
  rewrite Hs, !Hd, Hst. simpl base_doc.
  rewrite (PUT_run r body w) by done. rewrite Hs, !Hd.
  set (stored := not_none_items body ∪ base_doc (key r) _).
  set (l' := updated "id" (VStr (key r)) (not_none_items body) true (sel (collection r) (db w))).
  rewrite (construct_defaulted _ stored (set_db (upd (collection r) l' (db w)) w) w) by done.
  simpl. rewrite sel_upd_eq, upd_upd. unfold l'. rewrite updated_idemp by done. fold l'.
  assert (not_none_items body ∪ stored = stored) as ->
    by (unfold stored; by rewrite (assoc_L (∪)), (idemp_L (∪))).
  by rewrite (construct_defaulted _ stored _ w).
Qed.

Lemma put_twice_witness :
  PUT RVoiceSettings language_only (PUT RVoiceSettings language_only (world_of empty_db)).2
  = ((PUT RVoiceSettings language_only (world_of empty_db)).1,
     (PUT RVoiceSettings language_only (world_of empty_db)).2).
Proof.
  exact (put_twice RVoiceSettings language_only (world_of empty_db) eq_refl eq_refl).
Defined.

(** ** A config document created by PUT *)

Lemma construct_pure_prefix m1 m2 kw w :
  forallb (λ f, field_ok f kw) m1 = true →
  construct (m1 ++ m2) kw w
  = match construct m2 kw w with
    | (Ok rest, w') => (Ok (overlay m1 kw rest), w')
    | (Raise e, w') => (Raise e, w')
    end.
Proof.
  induction m1 as [|f m1 IH]; simpl.
  - intros _. by destruct (construct m2 kw w) as [[]].
  - intros [Hf Hm]%andb_true_iff.
    erewrite bind_ok by by apply validate_field_pure.
    unfold mbind, M_bind. rewrite IH by done.
    by destruct (construct m2 kw w) as [[]].
Qed.

Lemma field_valid_ok f d :
  field_valid f d = true →
  (is_Some (d !! f_name f) ∨ ∃ v, f_default f = Default v) →
  field_ok f d = true.
Proof.
  unfold field_valid, field_ok. destruct (d !! f_name f) as [x|]; [done|].
  intros _ [[? ?]|[v ->]]; done.
Qed.

Lemma upserted_config_valid body now :
  instance_of AppConfigUpdate body = true →
  doc_valid AppConfig (put_data RAppConfig body now ∪ {[ "id" := VStr "main_config" ]}) = true.
Proof.
  intros Hi. apply doc_valid_union.
  - by apply (put_data_typed RAppConfig).
  - apply (base_valid RAppConfig).
Qed.

(** X19. A config document created by [update_config] on a store without
    one has no [created_at]: the stored document holds the id, the
    supplied fields and [updated_at] only.  Every later [get_config] then
    reports as [created_at] the time of that very GET, stores nothing, and
    reports as [updated_at] the time of the PUT, to the millisecond as the
    store keeps it. *)
Theorem config_created_by_put (body : doc) (w : World) :
  instance_of AppConfigUpdate body = true →
  singleton_doc app_config "main_config" (db w) = None →
  ∃ stored,
    singleton_doc app_config "main_config" (db (update_config body w).2) = Some stored ∧
    stored !! "created_at" = None ∧
    ∀ w2, db w2 = db (update_config body w).2 →
      ∃ resp, get_config w2 = (Ok resp, tick w2) ∧
              resp !! "created_at" = Some (VDate (clock w2 (ticks w2))) ∧
              resp !! "updated_at" = Some (VDate (ms (clock w (ticks w)))).
Proof.
  intros Hi Hnone.
  pose proof (PUT_stored RAppConfig body w Hi
                (put_data_fit RAppConfig body _ (config_body_fit _ Hi))) as Hst.
  change (PUT RAppConfig body) with (update_config body) in Hst.
  change (collection RAppConfig) with app_config in Hst.
  change (key RAppConfig) with "main_config" in Hst.
  rewrite Hnone in Hst. simpl base_doc in Hst.
  set (stored := put_data RAppConfig body (ms (clock w (ticks w)))
                   ∪ {[ "id" := VStr "main_config" ]}) in *.
  assert (Hl : ∀ k, stored !! k
      = match supplied body k with
        | Some v => Some v
        | None => if bool_decide (k = "updated_at") then Some (VDate (ms (clock w (ticks w))))
                  else if bool_decide (k = "id") then Some (VStr "main_config") else None
        end).
  { intros k. unfold stored. rewrite lookup_union, put_data_lookup by done. simpl.
    destruct (supplied body k) as [v|]; [by destruct (_ !! k)|].
    case_bool_decide; [by destruct (_ !! k)|].
    case_bool_decide; [subst; by rewrite lookup_singleton_eq|].
    by rewrite lookup_singleton_ne. }
  assert (Hcr : stored !! "created_at" = None).
  { rewrite Hl. destruct (supplied body "created_at") as [v|] eqn:E; [|done].
    apply (supplied_is_field _ _ _ _ Hi) in E. not_a_field E. }
  assert (Hup : stored !! "updated_at" = Some (VDate (ms (clock w (ticks w))))).
  { rewrite Hl. destruct (supplied body "updated_at") as [v|] eqn:E; [|done].
    apply (supplied_is_field _ _ _ _ Hi) in E. not_a_field E. }
  exists stored. split; [done|]. split; [done|].
  intros w2 Hdb.
  assert (Hv : ∀ f, f ∈ AppConfig → field_valid f stored = true).
  { intros f Hf%list_elem_of_In.
    pose proof (upserted_config_valid body (ms (clock w (ticks w))) Hi) as H.
    unfold doc_valid in H. rewrite forallb_forall in H. by apply H. }
  change get_config with (get_singleton app_config "main_config" AppConfig).
  erewrite get_singleton_found by (rewrite Hdb; exact Hst).
  change AppConfig with (take 9 AppConfig ++ drop 9 AppConfig).
  rewrite construct_pure_prefix.
  - eexists. split; [|split].
    + simpl. unfold mbind, M_bind, validate_field. simpl. rewrite Hcr, Hup. reflexivity.
    + simpl. by rewrite !lookup_insert_ne, lookup_insert_eq by done.
    + simpl. by rewrite !lookup_insert_ne, lookup_insert_eq by done.
  - apply forallb_forall. intros f Hf. apply field_valid_ok.
    + apply Hv, list_elem_of_In. simpl in Hf. simpl. tauto.
    + right. simpl in Hf. intuition (subst; by eexists).
Qed.

Lemma config_created_by_put_witness :
  ∃ stored,
    singleton_doc app_config "main_config" (db (update_config city_only (world_of empty_db)).2)
      = Some stored ∧
    stored !! "created_at" = None ∧
    ∀ w2, db w2 = db (update_config city_only (world_of empty_db)).2 →
      ∃ resp, get_config w2 = (Ok resp, tick w2) ∧
              resp !! "created_at" = Some (VDate (clock w2 (ticks w2))) ∧
              resp !! "updated_at"
              = Some (VDate (ms (clock (world_of empty_db) (ticks (world_of empty_db))))).
Proof.
  exact (config_created_by_put city_only (world_of empty_db) eq_refl eq_refl).
Defined.

(** ** Reads that do not write *)

Lemma mapM_db {A B} (f : A → M B) l w :
  (∀ x w, db (f x w).2 = db w) → db (mapM f l w).2 = db w.
Proof.
  intros Hf. revert w. induction l as [|x l IH]; intros w; simpl; [done|].
  unfold mbind, M_bind. pose proof (Hf x w) as H1.
  destruct (f x w) as [[y|e] w1]; simpl in H1; [|done].
  pose proof (IH w1) as H2.
  destruct (mapM f l w1) as [[ys|e] w2]; simpl in *; congruence.
Qed.

(** X20. Listing slides and fetching news never write, whether they
    succeed or raise; a singleton GET writes only when it has to create
    the document: when the document exists, the store is left as it is. *)
Theorem reads_do_not_write (w : World) :
  db (get_slides w).2 = db w ∧
  (get_news_feed w).2 = w ∧
  (∀ r cur, singleton_doc (collection r) (key r) (db w) = Some cur → db (GET r w).2 = db w).
Proof.
  split; [|split].
  - unfold get_slides. erewrite bind_ok by reflexivity.
    apply mapM_db. intros d w'. apply construct_db.
  - apply get_news_feed_world.
  - intros r cur Hcur. rewrite GET_get_singleton, (get_singleton_found _ _ _ _ cur Hcur).
    apply construct_db.
Qed.

Lemma reads_do_not_write_witness :
  db (GET RCurrentNumber (world_with_number 5)).2 = db (world_with_number 5).
Proof.
  exact (proj2 (proj2 (reads_do_not_write (world_with_number 5)))
           RCurrentNumber (number_doc 5 0) eq_refl).
Defined.
